(** * Digital zoom handling of the OMX camera adapter

    A shallow embedding of [camera/OMXCameraAdapter/OMXZoom.cpp]
    (class [Ti::Camera::OMXCameraAdapter]): the zoom step table, the
    immediate zoom entry point [setParametersZoom], the hardware apply
    [doZoom], the per-frame tick [advanceZoom] and the smooth zoom
    commands [startSmoothZoom] / [stopSmoothZoom].

    The member functions mutate the adapter object, call into the OMX
    component and into [BaseCameraAdapter]; they are written here in a
    small monad that threads the adapter's fields, records every call
    that leaves the file as an event, and has one outcome for undefined
    behaviour (a read outside [ZOOM_STEPS]). *)

From Stdlib Require Import ZArith List Bool Lia String Sorted.
Import ListNotations.
Local Open Scope Z_scope.

(** ** Machine integers and status codes *)

(** [int], [int32_t] and [status_t] are 32-bit two's complement. *)
Definition int32 (z : Z) : Z := (z + 2147483648) mod 4294967296 - 2147483648.

Definition is_int32 (z : Z) : Prop := -2147483648 <= z < 2147483648.

Definition status_t := Z.
Definition NO_ERROR : status_t := 0.
Definition EINVAL : Z := 22.

Definition OMX_ERRORTYPE := Z.
Definition OMX_ErrorNone : OMX_ERRORTYPE := 0.

Inductive OMX_STATETYPE :=
| OMX_StateInvalid
| OMX_StateLoaded
| OMX_StateIdle
| OMX_StateExecuting
| OMX_StatePause
| OMX_StateWaitForResources.

Definition OMX_STATETYPE_eqb (a b : OMX_STATETYPE) : bool :=
  match a, b with
  | OMX_StateInvalid, OMX_StateInvalid
  | OMX_StateLoaded, OMX_StateLoaded
  | OMX_StateIdle, OMX_StateIdle
  | OMX_StateExecuting, OMX_StateExecuting
  | OMX_StatePause, OMX_StatePause
  | OMX_StateWaitForResources, OMX_StateWaitForResources => true
  | _, _ => false
  end.

(** The capture modes of the adapter; the zoom code only tells the two
    video modes from the rest. *)
Inductive CaptureMode :=
| VIDEO_MODE
| VIDEO_MODE_HQ
| OTHER_MODE (tag : Z).

Definition CaptureMode_eqb (a b : CaptureMode) : bool :=
  match a, b with
  | VIDEO_MODE, VIDEO_MODE => true
  | VIDEO_MODE_HQ, VIDEO_MODE_HQ => true
  | OTHER_MODE x, OTHER_MODE y => x =? y
  | _, _ => false
  end.

(** Commands handed to [BaseCameraAdapter::setState]. *)
Inductive CameraCommands :=
| CAMERA_STOP_SMOOTH_ZOOM.

(** ** The zoom step table *)

Definition FrontSensorVideoMinZoom : Z := 66816.
Definition BackSensorVideoMinZoom : Z := 66304.

Definition ZOOM_STEPS : list Z :=
  [ 65536; 68157; 70124; 72745;
    75366; 77988; 80609; 83231;
    86508; 89784; 92406; 95683;
    99615; 102892; 106168; 110100;
    114033; 117965; 122552; 126484;
    131072; 135660; 140247; 145490;
    150733; 155976; 161219; 167117;
    173015; 178913; 185467; 192020;
    198574; 205783; 212992; 220201;
    228065; 236585; 244449; 252969;
    262144; 271319; 281149; 290980;
    300810; 311951; 322437; 334234;
    346030; 357827; 370934; 384041;
    397148; 411566; 425984; 441057;
    456131; 472515; 488899; 506593;
    524288 ].

(** The table length (the array is declared with [ZOOM_STAGES] entries and
    initialised with this many). *)
Definition ZOOM_STAGES : Z := Eval cbv in Z.of_nat (List.length ZOOM_STEPS).

(** [ZOOM_STEPS[index]]: [None] is a read outside the array. *)
Definition ZOOM_STEPS_at (index : Z) : option Z :=
  if index <? 0 then None else nth_error ZOOM_STEPS (Z.to_nat index).

(** ** The adapter object *)

Record Adapter := mkAdapter {
  mCurrentZoomIdx : Z;
  mTargetZoomIdx : Z;
  mPreviousZoomIndx : Z;
  mZoomInc : Z;
  mZoomParameterIdx : Z;
  mReturnZoomStatus : bool;
  mZoomUpdating : bool;
  mZoomUpdate : bool;
  mMaxZoomSupported : Z;
  mComponentState : OMX_STATETYPE;
  mCapMode : CaptureMode;
  mSensorIndex : Z;
  mPrevZoomModeIsVideo : bool;
  mPrevZoomSensorIndex : Z
}.

Definition set_mCurrentZoomIdx (v : Z) (a : Adapter) : Adapter :=
  mkAdapter v (mTargetZoomIdx a) (mPreviousZoomIndx a) (mZoomInc a)
    (mZoomParameterIdx a) (mReturnZoomStatus a) (mZoomUpdating a)
    (mZoomUpdate a) (mMaxZoomSupported a) (mComponentState a) (mCapMode a)
    (mSensorIndex a) (mPrevZoomModeIsVideo a) (mPrevZoomSensorIndex a).

Definition set_mTargetZoomIdx (v : Z) (a : Adapter) : Adapter :=
  mkAdapter (mCurrentZoomIdx a) v (mPreviousZoomIndx a) (mZoomInc a)
    (mZoomParameterIdx a) (mReturnZoomStatus a) (mZoomUpdating a)
    (mZoomUpdate a) (mMaxZoomSupported a) (mComponentState a) (mCapMode a)
    (mSensorIndex a) (mPrevZoomModeIsVideo a) (mPrevZoomSensorIndex a).

Definition set_mPreviousZoomIndx (v : Z) (a : Adapter) : Adapter :=
  mkAdapter (mCurrentZoomIdx a) (mTargetZoomIdx a) v (mZoomInc a)
    (mZoomParameterIdx a) (mReturnZoomStatus a) (mZoomUpdating a)
    (mZoomUpdate a) (mMaxZoomSupported a) (mComponentState a) (mCapMode a)
    (mSensorIndex a) (mPrevZoomModeIsVideo a) (mPrevZoomSensorIndex a).

Definition set_mZoomInc (v : Z) (a : Adapter) : Adapter :=
  mkAdapter (mCurrentZoomIdx a) (mTargetZoomIdx a) (mPreviousZoomIndx a) v
    (mZoomParameterIdx a) (mReturnZoomStatus a) (mZoomUpdating a)
    (mZoomUpdate a) (mMaxZoomSupported a) (mComponentState a) (mCapMode a)
    (mSensorIndex a) (mPrevZoomModeIsVideo a) (mPrevZoomSensorIndex a).

Definition set_mZoomParameterIdx (v : Z) (a : Adapter) : Adapter :=
  mkAdapter (mCurrentZoomIdx a) (mTargetZoomIdx a) (mPreviousZoomIndx a)
    (mZoomInc a) v (mReturnZoomStatus a) (mZoomUpdating a)
    (mZoomUpdate a) (mMaxZoomSupported a) (mComponentState a) (mCapMode a)
    (mSensorIndex a) (mPrevZoomModeIsVideo a) (mPrevZoomSensorIndex a).

Definition set_mReturnZoomStatus (v : bool) (a : Adapter) : Adapter :=
  mkAdapter (mCurrentZoomIdx a) (mTargetZoomIdx a) (mPreviousZoomIndx a)
    (mZoomInc a) (mZoomParameterIdx a) v (mZoomUpdating a)
    (mZoomUpdate a) (mMaxZoomSupported a) (mComponentState a) (mCapMode a)
    (mSensorIndex a) (mPrevZoomModeIsVideo a) (mPrevZoomSensorIndex a).

Definition set_mZoomUpdating (v : bool) (a : Adapter) : Adapter :=
  mkAdapter (mCurrentZoomIdx a) (mTargetZoomIdx a) (mPreviousZoomIndx a)
    (mZoomInc a) (mZoomParameterIdx a) (mReturnZoomStatus a) v
    (mZoomUpdate a) (mMaxZoomSupported a) (mComponentState a) (mCapMode a)
    (mSensorIndex a) (mPrevZoomModeIsVideo a) (mPrevZoomSensorIndex a).

Definition set_mZoomUpdate (v : bool) (a : Adapter) : Adapter :=
  mkAdapter (mCurrentZoomIdx a) (mTargetZoomIdx a) (mPreviousZoomIndx a)
    (mZoomInc a) (mZoomParameterIdx a) (mReturnZoomStatus a)
    (mZoomUpdating a) v (mMaxZoomSupported a) (mComponentState a)
    (mCapMode a) (mSensorIndex a) (mPrevZoomModeIsVideo a)
    (mPrevZoomSensorIndex a).

Definition set_mPrevZoomModeIsVideo (v : bool) (a : Adapter) : Adapter :=
  mkAdapter (mCurrentZoomIdx a) (mTargetZoomIdx a) (mPreviousZoomIndx a)
    (mZoomInc a) (mZoomParameterIdx a) (mReturnZoomStatus a)
    (mZoomUpdating a) (mZoomUpdate a) (mMaxZoomSupported a)
    (mComponentState a) (mCapMode a) (mSensorIndex a) v
    (mPrevZoomSensorIndex a).

Definition set_mPrevZoomSensorIndex (v : Z) (a : Adapter) : Adapter :=
  mkAdapter (mCurrentZoomIdx a) (mTargetZoomIdx a) (mPreviousZoomIndx a)
    (mZoomInc a) (mZoomParameterIdx a) (mReturnZoomStatus a)
    (mZoomUpdating a) (mZoomUpdate a) (mMaxZoomSupported a)
    (mComponentState a) (mCapMode a) (mSensorIndex a)
    (mPrevZoomModeIsVideo a) v.

(** ** Calls that leave the file *)

(** What the rest of the HAL and the OMX component see of a call:
    - [OMX_SetConfig] on [OMX_IndexConfigCommonDigitalZoom] with the scale
      factors written and the component's answer;
    - [notifyZoomSubscribers (index, status)];
    - the three [BaseCameraAdapter] state machine calls. *)
Inductive Event :=
| DigitalZoomSet (xWidth xHeight : Z) (eError : OMX_ERRORTYPE)
| ZoomNotified (index : Z) (isFinalStep : bool)
| StateRequested (op : CameraCommands)
| StateCommitted
| StateRolledBack.

(** The adapter object together with the number of [OMX_SetConfig] calls
    the component has received so far. *)
Record Machine := mkMachine {
  adapter : Adapter;
  omxCalls : nat
}.

(** A member function: from a machine either the returned value, the
    machine after the call and the events of the call in order, or [None]
    when the call runs into undefined behaviour. *)
Definition M (A : Type) : Type := Machine -> option (A * Machine * list Event).

Definition pure {A} (a : A) : M A := fun m => Some (a, m, []).

Definition bind {A B} (c : M A) (k : A -> M B) : M B :=
  fun m =>
    match c m with
    | None => None
    | Some (a, m1, e1) =>
        match k a m1 with
        | None => None
        | Some (b, m2, e2) => Some (b, m2, e1 ++ e2)
        end
    end.

Declare Scope zoom_scope.
Delimit Scope zoom_scope with zoom.
Notation "x <- c ;; k" := (bind c (fun x => k))
  (at level 61, c at next level, right associativity) : zoom_scope.
Notation "c ;; k" := (bind c (fun _ => k))
  (at level 61, right associativity) : zoom_scope.
Local Open Scope zoom_scope.

Definition read {A} (field : Adapter -> A) : M A :=
  fun m => Some (field (adapter m), m, []).

Definition assign {A} (setter : A -> Adapter -> Adapter) (v : A) : M unit :=
  fun m => Some (tt, mkMachine (setter v (adapter m)) (omxCalls m), []).

Definition emit (e : Event) : M unit := fun m => Some (tt, m, [e]).

Definition fromArray {A} (cell : option A) : M A :=
  fun m => match cell with
           | Some v => Some (v, m, [])
           | None => None
           end.

Definition notifyZoomSubscribers (index : Z) (status : bool) : M unit :=
  emit (ZoomNotified index status).

(** The answers of [BaseCameraAdapter] during one call of [advanceZoom]:
    the adapter state that [getState] stores, and the status returned by
    [setState], [commitState] and [rollbackState]. *)
Record Bridge := mkBridge {
  getState : Z;
  setStateStatus : status_t;
  commitStateStatus : status_t;
  rollbackStateStatus : status_t
}.

Definition setState (br : Bridge) (op : CameraCommands) : M status_t :=
  emit (StateRequested op) ;; pure (setStateStatus br).

Definition commitState (br : Bridge) : M status_t :=
  emit StateCommitted ;; pure (commitStateStatus br).

Definition rollbackState (br : Bridge) : M status_t :=
  emit StateRolledBack ;; pure (rollbackStateStatus br).

(** [android::CameraParameters] as far as this file reads it: [getInt]. *)
Definition CameraParameters := string -> Z.
Definition KEY_ZOOM : string := "zoom"%string.
Definition getInt (params : CameraParameters) (key : string) : Z := params key.

(** ** Reading the events of a call *)

(** The scale factors handed to the component, in call order. *)
Fixpoint hardwareWrites (evs : list Event) : list Z :=
  match evs with
  | [] => []
  | DigitalZoomSet _ xHeight _ :: evs' => xHeight :: hardwareWrites evs'
  | _ :: evs' => hardwareWrites evs'
  end.

(** The [(index, isFinalStep)] pairs sent to the zoom subscribers. *)
Fixpoint notifications (evs : list Event) : list (Z * bool) :=
  match evs with
  | [] => []
  | ZoomNotified index isFinalStep :: evs' =>
      (index, isFinalStep) :: notifications evs'
  | _ :: evs' => notifications evs'
  end.

(** How many times the exit from smooth zoom was requested. *)
Fixpoint stopRequests (evs : list Event) : nat :=
  match evs with
  | [] => 0%nat
  | StateRequested CAMERA_STOP_SMOOTH_ZOOM :: evs' => S (stopRequests evs')
  | _ :: evs' => stopRequests evs'
  end.

(** The fields [doZoom] may write. *)
Definition zoomApplied (previousZoomIndx : Z) (prevZoomModeIsVideo : bool)
    (prevZoomSensorIndex : Z) (a : Adapter) : Adapter :=
  set_mPreviousZoomIndx previousZoomIndx
    (set_mPrevZoomModeIsVideo prevZoomModeIsVideo
       (set_mPrevZoomSensorIndex prevZoomSensorIndex a)).

(** [curZoomModeIsVideo] of [doZoom]. *)
Definition curZoomModeIsVideo (a : Adapter) : bool :=
  CaptureMode_eqb (mCapMode a) VIDEO_MODE
  || CaptureMode_eqb (mCapMode a) VIDEO_MODE_HQ.

(** The sensor and the video / non-video mode are those of the last zoom
    that went past the check of [mPreviousZoomIndx]. *)
Definition quirkContextUnchanged (a : Adapter) : Prop :=
  curZoomModeIsVideo a = mPrevZoomModeIsVideo a
  /\ mSensorIndex a = mPrevZoomSensorIndex a.

(** [mMaxZoomSupported] counts entries of [ZOOM_STEPS]. *)
Definition zoomRangeInTable (a : Adapter) : Prop :=
  0 <= mMaxZoomSupported a <= ZOOM_STAGES.

(** A call fails when it returns a status other than [NO_ERROR]. *)
Definition fails {A} (outcome : option (status_t * A * list Event)) : Prop :=
  exists ret after evs, outcome = Some (ret, after, evs) /\ ret <> NO_ERROR.

(** ** Whole calls and call sequences *)

(** A write as this file hands it to the component: width equal to height,
    between 1.0 and 8.0 in 16.16 fixed point. *)
Definition zoomWrite (e : Event) : Prop :=
  match e with
  | DigitalZoomSet xWidth xHeight _ =>
      xWidth = xHeight /\ 65536 <= xHeight <= 524288
  | _ => True
  end.

(** An event other than a write to the component. *)
Definition notAWrite (e : Event) : Prop :=
  match e with
  | DigitalZoomSet _ _ _ => False
  | _ => True
  end.

(** [m'] differs from [m] in nothing but the fields of the zoom session
    (indices, increment and the three flags): the record of the last
    applied zoom, the configuration and the component are as in [m]. *)
Definition sessionWrite (m m' : Machine) : Prop :=
  omxCalls m' = omxCalls m
  /\ mPreviousZoomIndx (adapter m') = mPreviousZoomIndx (adapter m)
  /\ mMaxZoomSupported (adapter m') = mMaxZoomSupported (adapter m)
  /\ mComponentState (adapter m') = mComponentState (adapter m)
  /\ mCapMode (adapter m') = mCapMode (adapter m)
  /\ mSensorIndex (adapter m') = mSensorIndex (adapter m)
  /\ mPrevZoomModeIsVideo (adapter m') = mPrevZoomModeIsVideo (adapter m)
  /\ mPrevZoomSensorIndex (adapter m') = mPrevZoomSensorIndex (adapter m).

(** Every return of [c] relates the machine before, the machine after and
    the events by [R]. *)
Definition preserves (R : Machine -> Machine -> list Event -> Prop)
    {A} (c : M A) : Prop :=
  forall m a m' evs, c m = Some (a, m', evs) -> R m m' evs.

(** From a machine in [I], [c] returns, with a machine in [I]. *)
Definition runsUnder (I : Machine -> Prop) {A} (c : M A) : Prop :=
  forall m, I m -> exists a m' evs, c m = Some (a, m', evs) /\ I m'.

(** [zoomRangeInTable] of the adapter of a machine. *)
Definition tableCovered (m : Machine) : Prop := zoomRangeInTable (adapter m).

(** The calls a client of the zoom code can make. *)
Inductive Call :=
| SetParametersZoom (params : CameraParameters) (state : Z)
| AdvanceZoom (br : Bridge)
| StartSmoothZoom (targetIdx : Z)
| StopSmoothZoom.

(** Both zoom indices lie in [[0, mMaxZoomSupported)]. *)
Definition indicesInRange (a : Adapter) : Prop :=
  0 <= mCurrentZoomIdx a < mMaxZoomSupported a
  /\ 0 <= mTargetZoomIdx a < mMaxZoomSupported a.

(** Indices in range, and a stop step is pending only away from the target,
    with the increment pointing at it. *)
Definition sessionCoherent (a : Adapter) : Prop :=
  indicesInRange a
  /\ (mReturnZoomStatus a = true ->
      mCurrentZoomIdx a <> mTargetZoomIdx a
      /\ mZoomInc a = if mCurrentZoomIdx a <? mTargetZoomIdx a then 1 else -1).

(** [(mCurrentZoomIdx, mTargetZoomIdx)] after a tick, from the session
    before it and the [ZOOM_ACTIVE] bit of the adapter state. *)
Definition advancedIndices (zoomActive : bool) (a : Adapter) : Z * Z :=
  if mReturnZoomStatus a then
    (int32 (mCurrentZoomIdx a + mZoomInc a),
     int32 (mCurrentZoomIdx a + mZoomInc a))
  else if mCurrentZoomIdx a =? mTargetZoomIdx a then
    (mCurrentZoomIdx a, mTargetZoomIdx a)
  else if zoomActive then
    (int32 (mCurrentZoomIdx a
            + (if mCurrentZoomIdx a <? mTargetZoomIdx a then 1 else -1)),
     mTargetZoomIdx a)
  else
    (mTargetZoomIdx a, mTargetZoomIdx a).

(** The notifications of a tick, from the session before it and the
    [ZOOM_ACTIVE] bit: one final notification for a pending stop step, one
    notification per step of a smooth zoom (final when the step reaches
    the target), none otherwise. *)
Definition tickNotifications (zoomActive : bool) (a : Adapter)
  : list (Z * bool) :=
  let current := fst (advancedIndices zoomActive a) in
  if mReturnZoomStatus a then [(current, true)]
  else if mCurrentZoomIdx a =? mTargetZoomIdx a then []
  else if zoomActive then [(current, current =? mTargetZoomIdx a)]
  else [].

(** A call other than [setParametersZoom]. *)
Definition smoothZoomCall (c : Call) : Prop :=
  match c with
  | SetParametersZoom _ _ => False
  | _ => True
  end.

(** ** Sessions and collaborators used in the examples *)

(** A fresh session: all indices at 0 and no flag set, with the whole table
    supported, an executing component and the back sensor in a non-video
    mode. *)
Definition sessionAtZero : Adapter :=
  {| mCurrentZoomIdx := 0;
     mTargetZoomIdx := 0;
     mPreviousZoomIndx := 0;
     mZoomInc := 1;
     mZoomParameterIdx := 0;
     mReturnZoomStatus := false;
     mZoomUpdating := false;
     mZoomUpdate := false;
     mMaxZoomSupported := ZOOM_STAGES;
     mComponentState := OMX_StateExecuting;
     mCapMode := OTHER_MODE 0;
     mSensorIndex := 0;
     mPrevZoomModeIsVideo := false;
     mPrevZoomSensorIndex := 0 |}.

(** The same session with three zoom stages supported. *)
Definition threeStageSession : Adapter :=
  mkAdapter 0 0 0 1 0 false false false 3 OMX_StateExecuting (OTHER_MODE 0)
    0 false 0.

(** The session at zero after the capture mode went to video. *)
Definition videoSessionAtZero : Adapter :=
  mkAdapter 0 0 0 1 0 false false false ZOOM_STAGES OMX_StateExecuting
    VIDEO_MODE 0 false 0.

(** A session whose component is invalid and whose previous zoom index is
    far outside the three supported stages. *)
Definition invalidSession : Adapter :=
  mkAdapter 0 0 99 1 0 false false false 3 OMX_StateInvalid (OTHER_MODE 0)
    0 false 0.

(** A smooth zoom under way from index 0 to index 5. *)
Definition zoomingSession : Adapter :=
  mkAdapter 0 5 0 1 0 false false false ZOOM_STAGES OMX_StateExecuting
    (OTHER_MODE 0) 0 false 0.

Definition OMX_ErrorHardware : OMX_ERRORTYPE := -2147479543.

Definition componentAccepts : nat -> Z -> Z -> OMX_ERRORTYPE :=
  fun _ _ _ => OMX_ErrorNone.

Definition componentRejects : nat -> Z -> Z -> OMX_ERRORTYPE :=
  fun _ _ _ => OMX_ErrorHardware.

(** A value for the [ZOOM_ACTIVE] bit. *)
Definition zoomActiveBit : Z := 128.

Definition bridgeZoomActive : Bridge :=
  mkBridge zoomActiveBit NO_ERROR NO_ERROR NO_ERROR.

Definition bridgeIdle : Bridge := mkBridge 0 NO_ERROR NO_ERROR NO_ERROR.

(** Parameters whose [KEY_ZOOM] is [zoom]. *)
Definition zoomParameter (zoom : Z) : CameraParameters :=
  fun key => if String.eqb key KEY_ZOOM then zoom else -1.

(** The front sensor in video mode, as the last zoom recorded it. *)
Definition frontVideoSession : Adapter :=
  mkAdapter 0 0 0 1 0 false false false ZOOM_STAGES OMX_StateExecuting
    VIDEO_MODE 1 true 1.

(** A smooth zoom from 0 to 5 stopped before its first step. *)
Definition stoppedSession : Adapter :=
  mkAdapter 0 5 0 1 0 true false false ZOOM_STAGES OMX_StateExecuting
    (OTHER_MODE 0) 0 false 0.

(** A client that mixes immediate and smooth zoom, with requests in and
    out of range. *)
Definition mixedCalls : list Call :=
  [ SetParametersZoom (zoomParameter 4) 0;
    StartSmoothZoom 7;
    AdvanceZoom bridgeZoomActive;
    SetParametersZoom (zoomParameter 99) 0;
    AdvanceZoom bridgeZoomActive;
    StopSmoothZoom;
    AdvanceZoom bridgeIdle;
    StartSmoothZoom 100 ].

(** A client that uses smooth zoom only. *)
Definition smoothCalls : list Call :=
  [ StartSmoothZoom 3;
    AdvanceZoom bridgeZoomActive;
    StopSmoothZoom;
    AdvanceZoom bridgeIdle;
    StartSmoothZoom 0;
    AdvanceZoom bridgeIdle ].

(** Closed arithmetic side conditions on a concrete session. *)
Ltac concrete :=
  unfold zoomRangeInTable, is_int32; cbn; unfold ZOOM_STAGES; lia.

(** ** The member functions *)

Section OMXZoom.

(** Built with or without [CAMERAHAL_TUNA]. *)
Variable CAMERAHAL_TUNA : bool.

(** The [ZOOM_ACTIVE] bit mask of the adapter states. *)
Variable ZOOM_ACTIVE : Z.

(** The OMX component: its answer to the [n]-th [OMX_SetConfig] of
    [OMX_IndexConfigCommonDigitalZoom], given [xWidth] and [xHeight]. *)
Variable OMX_SetConfig : nat -> Z -> Z -> OMX_ERRORTYPE.

Definition OMX_SetConfig_DigitalZoom (xWidth xHeight : Z) : M OMX_ERRORTYPE :=
  fun m =>
    let eError := OMX_SetConfig (omxCalls m) xWidth xHeight in
    Some (eError, mkMachine (adapter m) (S (omxCalls m)),
          [DigitalZoomSet xWidth xHeight eError]).

Definition getZoomStep (index : Z) : M Z :=
  if CAMERAHAL_TUNA then
    prevZoomModeIsVideo <- read mPrevZoomModeIsVideo ;;
    if negb (index =? 0) || negb prevZoomModeIsVideo then
      fromArray (ZOOM_STEPS_at index)
    else
      sensorIndex <- read mSensorIndex ;;
      if sensorIndex =? 1 then pure FrontSensorVideoMinZoom
      else pure BackSensorVideoMinZoom
  else
    fromArray (ZOOM_STEPS_at index).

(** [doZoom] from [if ( NO_ERROR == ret )] on. *)
Definition doZoom_apply (ret : status_t) (index : Z) : M status_t :=
  if NO_ERROR =? ret then
    xHeight <- getZoomStep index ;;
    let xWidth := xHeight in
    eError <- OMX_SetConfig_DigitalZoom xWidth xHeight ;;
    if negb (OMX_ErrorNone =? eError) then
      pure (-1)
    else
      assign set_mPreviousZoomIndx index ;;
      pure ret
  else
    pure ret.

Definition doZoom (index : Z) : M status_t :=
  let ret := NO_ERROR in
  componentState <- read mComponentState ;;
  let ret :=
    if OMX_STATETYPE_eqb OMX_StateInvalid componentState then -1 else ret in
  maxZoomSupported <- read mMaxZoomSupported ;;
  let ret :=
    if (0 >? index) || (int32 (maxZoomSupported - 1) <? index)
    then - EINVAL else ret in
  previousZoomIndx <- read mPreviousZoomIndx ;;
  if CAMERAHAL_TUNA then
    capMode <- read mCapMode ;;
    let curZoomModeIsVideo :=
      CaptureMode_eqb capMode VIDEO_MODE
      || CaptureMode_eqb capMode VIDEO_MODE_HQ in
    prevZoomModeIsVideo <- read mPrevZoomModeIsVideo ;;
    sensorIndex <- read mSensorIndex ;;
    prevZoomSensorIndex <- read mPrevZoomSensorIndex ;;
    if (previousZoomIndx =? index)
       && (negb (index =? 0)
           || (Bool.eqb curZoomModeIsVideo prevZoomModeIsVideo
               && (sensorIndex =? prevZoomSensorIndex)))
    then pure NO_ERROR
    else
      assign set_mPrevZoomModeIsVideo curZoomModeIsVideo ;;
      assign set_mPrevZoomSensorIndex sensorIndex ;;
      doZoom_apply ret index
  else
    if previousZoomIndx =? index then pure NO_ERROR
    else doZoom_apply ret index.

Definition setParametersZoom (params : CameraParameters) (state : Z)
  : M status_t :=
  let ret := NO_ERROR in
  (if negb (Z.land ZOOM_ACTIVE state =? ZOOM_ACTIVE) then
     let zoom := getInt params KEY_ZOOM in
     maxZoomSupported <- read mMaxZoomSupported ;;
     if (zoom >=? 0) && (zoom <? maxZoomSupported) then
       assign set_mTargetZoomIdx zoom ;;
       targetZoomIdx <- read mTargetZoomIdx ;;
       assign set_mCurrentZoomIdx targetZoomIdx ;;
       zoomUpdating <- read mZoomUpdating ;;
       if negb zoomUpdating then
         currentZoomIdx <- read mCurrentZoomIdx ;;
         doZoom currentZoomIdx ;;
         assign set_mZoomUpdating true
       else
         assign set_mZoomUpdate true
     else pure tt
   else pure tt) ;;
  pure ret.

(** [setState (CAMERA_STOP_SMOOTH_ZOOM)] followed by [commitState] or
    [rollbackState], as both places of [advanceZoom] write it. *)
Definition requestStopSmoothZoom (br : Bridge) : M status_t :=
  ret <- setState br CAMERA_STOP_SMOOTH_ZOOM ;;
  if NO_ERROR =? ret then
    commitState br
  else
    rollback <- rollbackState br ;;
    pure (Z.lor ret rollback).

(** [advanceZoom] up to the [if (mZoomUpdate)] at its end: the three-way
    branch that moves the zoom indices. *)
Definition advanceZoom_move (br : Bridge) : M status_t :=
  let ret := NO_ERROR in
  let state := getState br in
  let zoomActive := negb (Z.land ZOOM_ACTIVE state =? 0) in
  returnZoomStatus <- read mReturnZoomStatus ;;
  currentZoomIdx <- read mCurrentZoomIdx ;;
  targetZoomIdx <- read mTargetZoomIdx ;;
  if returnZoomStatus then
    zoomInc <- read mZoomInc ;;
    assign set_mCurrentZoomIdx (int32 (currentZoomIdx + zoomInc)) ;;
    currentZoomIdx <- read mCurrentZoomIdx ;;
    assign set_mTargetZoomIdx currentZoomIdx ;;
    assign set_mReturnZoomStatus false ;;
    ret <- doZoom currentZoomIdx ;;
    notifyZoomSubscribers currentZoomIdx true ;;
    pure ret
  else if negb (currentZoomIdx =? targetZoomIdx) then
    (if zoomActive then
       (if currentZoomIdx <? targetZoomIdx
        then assign set_mZoomInc 1
        else assign set_mZoomInc (-1)) ;;
       zoomInc <- read mZoomInc ;;
       assign set_mCurrentZoomIdx (int32 (currentZoomIdx + zoomInc))
     else
       assign set_mCurrentZoomIdx targetZoomIdx) ;;
    currentZoomIdx <- read mCurrentZoomIdx ;;
    ret <- doZoom currentZoomIdx ;;
    if zoomActive then
      if currentZoomIdx =? targetZoomIdx then
        ret <- (if NO_ERROR =? ret then requestStopSmoothZoom br
                else pure ret) ;;
        assign set_mReturnZoomStatus false ;;
        notifyZoomSubscribers currentZoomIdx true ;;
        pure ret
      else
        notifyZoomSubscribers currentZoomIdx false ;;
        pure ret
    else pure ret
  else if (currentZoomIdx =? targetZoomIdx) && zoomActive then
    requestStopSmoothZoom br
  else pure ret.

(** The end of [advanceZoom]: a zoom deferred by [setParametersZoom]. *)
Definition advanceZoom_deferred : M unit :=
  zoomUpdate <- read mZoomUpdate ;;
  if zoomUpdate then
    targetZoomIdx <- read mTargetZoomIdx ;;
    doZoom targetZoomIdx ;;
    assign set_mZoomUpdate false ;;
    assign set_mZoomUpdating true
  else
    assign set_mZoomUpdating false.

Definition advanceZoom (br : Bridge) : M status_t :=
  ret <- advanceZoom_move br ;;
  advanceZoom_deferred ;;
  pure ret.

Definition startSmoothZoom (targetIdx : Z) : M status_t :=
  let ret := NO_ERROR in
  maxZoomSupported <- read mMaxZoomSupported ;;
  if (targetIdx >=? 0) && (targetIdx <? maxZoomSupported) then
    assign set_mTargetZoomIdx targetIdx ;;
    currentZoomIdx <- read mCurrentZoomIdx ;;
    assign set_mZoomParameterIdx currentZoomIdx ;;
    assign set_mReturnZoomStatus false ;;
    pure ret
  else
    pure (- EINVAL).

Definition stopSmoothZoom : M status_t :=
  let ret := NO_ERROR in
  targetZoomIdx <- read mTargetZoomIdx ;;
  currentZoomIdx <- read mCurrentZoomIdx ;;
  (if negb (targetZoomIdx =? currentZoomIdx) then
     (if currentZoomIdx <? targetZoomIdx
      then assign set_mZoomInc 1
      else assign set_mZoomInc (-1)) ;;
     assign set_mReturnZoomStatus true ;;
     assign set_mReturnZoomStatus true
   else pure tt) ;;
  pure ret.

(** One call of [advanceZoom] as the tick driver sees it: the status
    returned, [mCurrentZoomIdx] after the call and the events. *)
Record Tick := mkTick {
  tickStatus : status_t;
  tickIndex : Z;
  tickEvents : list Event
}.

(** [advanceZoom] called once per frame, with the answers of
    [BaseCameraAdapter] of each frame. *)
Fixpoint runTicks (brs : list Bridge) (m : Machine)
  : option (list Tick * Machine) :=
  match brs with
  | [] => Some ([], m)
  | br :: brs' =>
      match advanceZoom br m with
      | None => None
      | Some (ret, m1, evs) =>
          match runTicks brs' m1 with
          | None => None
          | Some (ticks, m2) =>
              Some (mkTick ret (mCurrentZoomIdx (adapter m1)) evs :: ticks, m2)
          end
      end
  end.

(** What a frame shows: the zoom index after it, the notifications it
    sent and how often it asked to leave smooth zoom. *)
Definition observe (t : Tick) : Z * list (Z * bool) * nat :=
  (tickIndex t, notifications (tickEvents t), stopRequests (tickEvents t)).

(** The [k]-th frame of a smooth zoom of [total] frames that starts at
    index [current] and moves by [dir] per frame: one notification, final
    at the last frame only, where the exit from smooth zoom is requested
    once. *)
Definition smoothTick (current dir : Z) (total k : nat)
  : Z * list (Z * bool) * nat :=
  (current + dir * Z.of_nat k,
   [(current + dir * Z.of_nat k, (k =? total)%nat)],
   if (k =? total)%nat then 1%nat else 0%nat).

(** The adapter when [doZoom] is past its check of [mPreviousZoomIndx]. *)
Definition pastGuard (a : Adapter) : Adapter :=
  if CAMERAHAL_TUNA
  then set_mPrevZoomSensorIndex (mSensorIndex a)
         (set_mPrevZoomModeIsVideo (curZoomModeIsVideo a) a)
  else a.

(** The check of [mPreviousZoomIndx] at the head of [doZoom]. *)
Definition guardFires (a : Adapter) (index : Z) : bool :=
  if CAMERAHAL_TUNA
  then (mPreviousZoomIndx a =? index)
       && (negb (index =? 0)
           || (Bool.eqb (curZoomModeIsVideo a) (mPrevZoomModeIsVideo a)
               && (mSensorIndex a =? mPrevZoomSensorIndex a)))
  else mPreviousZoomIndx a =? index.

(** One call of a client. *)
Definition runCall (c : Call) : M status_t :=
  match c with
  | SetParametersZoom params state => setParametersZoom params state
  | AdvanceZoom br => advanceZoom br
  | StartSmoothZoom targetIdx => startSmoothZoom targetIdx
  | StopSmoothZoom => stopSmoothZoom
  end.

(** A sequence of calls, one after the other, with the status of each. *)
Fixpoint runCalls (calls : list Call) : M (list status_t) :=
  match calls with
  | [] => pure []
  | c :: calls' =>
      ret <- runCall c ;;
      rets <- runCalls calls' ;;
      pure (ret :: rets)
  end.

(** *** Basic facts *)

Lemma int32_small (z : Z) : is_int32 z -> int32 z = z.
Proof.
  unfold is_int32, int32. intros H.
  rewrite Z.mod_small by lia. lia.
Qed.

Lemma ZOOM_STEPS_at_defined (index : Z) :
  0 <= index < ZOOM_STAGES -> exists v, ZOOM_STEPS_at index = Some v /\ 65536 <= v <= 524288.
Proof.
  intros H. unfold ZOOM_STEPS_at.
  destruct (index <? 0) eqn:E; [apply Z.ltb_lt in E; lia|].
  assert (Hn : (Z.to_nat index < 61)%nat) by (unfold ZOOM_STAGES in H; lia).
  clear E H. revert Hn. generalize (Z.to_nat index). intros n Hn.
  do 61 (destruct n as [|n]; [eexists; split; [reflexivity|lia]|]).
  lia.
Qed.

Lemma getZoomStep_in_range (index : Z) (m : Machine) :
  0 <= index < ZOOM_STAGES ->
  exists v, getZoomStep index m = Some (v, m, []) /\ 65536 <= v <= 524288.
Proof.
  intros H. destruct (ZOOM_STEPS_at_defined index H) as (v & Hv & Hb).
  unfold getZoomStep, bind, read, pure, fromArray.
  destruct CAMERAHAL_TUNA; [|rewrite Hv; eauto].
  destruct (negb (index =? 0) || negb (mPrevZoomModeIsVideo (adapter m))).
  - rewrite Hv. eauto.
  - unfold FrontSensorVideoMinZoom, BackSensorVideoMinZoom.
    destruct (mSensorIndex (adapter m) =? 1); eexists; (split; [reflexivity|lia]).
Qed.

Lemma getZoomStep_ext (index : Z) (m m' : Machine) (scale : Z) :
  mPrevZoomModeIsVideo (adapter m') = mPrevZoomModeIsVideo (adapter m) ->
  mSensorIndex (adapter m') = mSensorIndex (adapter m) ->
  getZoomStep index m = Some (scale, m, []) ->
  getZoomStep index m' = Some (scale, m', []).
Proof.
  intros Hv Hs. unfold getZoomStep, bind, read, pure, fromArray.
  destruct CAMERAHAL_TUNA.
  - cbn. rewrite Hv.
    destruct (negb (index =? 0) || negb (mPrevZoomModeIsVideo (adapter m))).
    + destruct (ZOOM_STEPS_at index); [|discriminate].
      intros H; injection H as <-. reflexivity.
    + cbn. rewrite Hs.
      destruct (mSensorIndex (adapter m) =? 1);
        intros H; injection H as <-; reflexivity.
  - destruct (ZOOM_STEPS_at index); [|discriminate].
    intros H; injection H as <-. reflexivity.
Qed.

Lemma doZoom_in_range_check (a : Adapter) (index : Z) :
  zoomRangeInTable a ->
  (0 >? index) || (int32 (mMaxZoomSupported a - 1) <? index) = false ->
  0 <= index < mMaxZoomSupported a.
Proof.
  unfold zoomRangeInTable, ZOOM_STAGES. intros Hmax H.
  rewrite int32_small in H by (unfold is_int32; lia).
  apply orb_false_elim in H. destruct H as [H1 H2].
  rewrite Z.gtb_ltb in H1. apply Z.ltb_ge in H1. apply Z.ltb_ge in H2. lia.
Qed.

Lemma doZoom_apply_total (ret index : Z) (a : Adapter) (n : nat) :
  (ret = NO_ERROR -> 0 <= index < ZOOM_STAGES) ->
  exists r p n' evs,
    doZoom_apply ret index (mkMachine a n)
    = Some (r, mkMachine (set_mPreviousZoomIndx p a) n', evs)
    /\ notifications evs = [] /\ stopRequests evs = 0%nat.
Proof.
  intros H. unfold doZoom_apply.
  destruct (NO_ERROR =? ret) eqn:E.
  - apply Z.eqb_eq in E. symmetry in E.
    destruct (getZoomStep_in_range index (mkMachine a n) (H E)) as (v & Hv & _).
    unfold bind. rewrite Hv.
    unfold OMX_SetConfig_DigitalZoom, assign, pure. cbn [adapter omxCalls].
    destruct (negb (OMX_ErrorNone =? OMX_SetConfig n v v)).
    + exists (-1), (mPreviousZoomIndx a), (S n). eexists.
      destruct a; cbn. repeat split.
    + exists ret, index, (S n). eexists. cbn. repeat split.
  - exists ret, (mPreviousZoomIndx a), n, []. destruct a; cbn. repeat split.
Qed.

Lemma doZoom_total (index : Z) (m : Machine) :
  zoomRangeInTable (adapter m) ->
  exists ret p v s n evs,
    doZoom index m = Some (ret, mkMachine (zoomApplied p v s (adapter m)) n, evs)
    /\ notifications evs = [] /\ stopRequests evs = 0%nat.
Proof.
  intros Hmax. destruct m as [a n]. cbn [adapter] in *.
  unfold doZoom, bind, read, assign, pure. cbn [adapter omxCalls].
  set (ret := if (0 >? index) || _ then _ else _).
  assert (Hret : ret = NO_ERROR -> 0 <= index < ZOOM_STAGES).
  { subst ret. intros E.
    destruct ((0 >? index) || (int32 (mMaxZoomSupported a - 1) <? index)) eqn:C;
      [discriminate|].
    apply doZoom_in_range_check in C; [|assumption].
    unfold zoomRangeInTable in Hmax. lia. }
  clearbody ret.
  destruct CAMERAHAL_TUNA.
  - destruct ((mPreviousZoomIndx a =? index) && _).
    + exists NO_ERROR, (mPreviousZoomIndx a), (mPrevZoomModeIsVideo a),
        (mPrevZoomSensorIndex a), n, [].
      destruct a; cbn. repeat split.
    + match goal with
      | |- context [doZoom_apply ret index (mkMachine ?a' ?n')] =>
          destruct (doZoom_apply_total ret index a' n' Hret)
            as (r & p & n1 & evs & Heq & Hn & Hs); rewrite Heq
      end.
      exists r, p,
        (CaptureMode_eqb (mCapMode a) VIDEO_MODE
         || CaptureMode_eqb (mCapMode a) VIDEO_MODE_HQ),
        (mSensorIndex a), n1, evs.
      split; [|split; assumption].
      destruct a; cbn. reflexivity.
  - destruct (mPreviousZoomIndx a =? index).
    + exists NO_ERROR, (mPreviousZoomIndx a), (mPrevZoomModeIsVideo a),
        (mPrevZoomSensorIndex a), n, [].
      destruct a; cbn. repeat split.
    + destruct (doZoom_apply_total ret index a n Hret)
        as (r & p & n1 & evs & Heq & Hn & Hs); rewrite Heq.
      exists r, p, (mPrevZoomModeIsVideo a), (mPrevZoomSensorIndex a), n1, evs.
      split; [|split; assumption].
      destruct a; cbn. reflexivity.
Qed.

Lemma doZoom_succeeds (index : Z) (m : Machine) :
  zoomRangeInTable (adapter m) ->
  mComponentState (adapter m) <> OMX_StateInvalid ->
  0 <= index < mMaxZoomSupported (adapter m) ->
  (forall n w h, OMX_SetConfig n w h = OMX_ErrorNone) ->
  exists v s n evs,
    doZoom index m
    = Some (NO_ERROR, mkMachine (zoomApplied index v s (adapter m)) n, evs)
    /\ notifications evs = [] /\ stopRequests evs = 0%nat.
Proof.
  intros Hmax Hst Hidx Hok. destruct m as [a n]. cbn [adapter] in *.
  assert (Hstage : 0 <= index < ZOOM_STAGES)
    by (unfold zoomRangeInTable in Hmax; lia).
  unfold doZoom, bind, read, assign, pure. cbn [adapter omxCalls].
  assert (Hrange : (0 >? index) || (int32 (mMaxZoomSupported a - 1) <? index) = false).
  { unfold zoomRangeInTable, ZOOM_STAGES in Hmax.
    rewrite int32_small by (unfold is_int32; lia).
    apply orb_false_intro; [rewrite Z.gtb_ltb|]; apply Z.ltb_ge; lia. }
  rewrite Hrange.
  assert (Hvalid : OMX_STATETYPE_eqb OMX_StateInvalid (mComponentState a) = false)
    by (destruct (mComponentState a); [congruence|reflexivity..]).
  rewrite Hvalid.
  assert (Happly : forall a' n',
    exists n1 evs, doZoom_apply NO_ERROR index (mkMachine a' n')
      = Some (NO_ERROR, mkMachine (set_mPreviousZoomIndx index a') n1, evs)
      /\ notifications evs = [] /\ stopRequests evs = 0%nat).
  { intros a' n'. unfold doZoom_apply. cbn [NO_ERROR Z.eqb].
    destruct (getZoomStep_in_range index (mkMachine a' n') Hstage) as (x & Hx & _).
    unfold bind. rewrite Hx.
    unfold OMX_SetConfig_DigitalZoom, assign, pure. cbn [adapter omxCalls].
    rewrite Hok. cbn. eauto. }
  destruct CAMERAHAL_TUNA.
  - destruct ((mPreviousZoomIndx a =? index) && _) eqn:G.
    + apply andb_true_iff in G. destruct G as [G _]. apply Z.eqb_eq in G.
      exists (mPrevZoomModeIsVideo a), (mPrevZoomSensorIndex a), n, [].
      subst index. destruct a; cbn. repeat split.
    + match goal with
      | |- context [doZoom_apply NO_ERROR index (mkMachine ?a' ?n')] =>
          destruct (Happly a' n') as (n1 & evs & Heq & Hn & Hs); rewrite Heq
      end.
      exists (CaptureMode_eqb (mCapMode a) VIDEO_MODE
              || CaptureMode_eqb (mCapMode a) VIDEO_MODE_HQ),
        (mSensorIndex a), n1, evs.
      split; [|split; assumption].
      destruct a; cbn. reflexivity.
  - destruct (mPreviousZoomIndx a =? index) eqn:G.
    + apply Z.eqb_eq in G.
      exists (mPrevZoomModeIsVideo a), (mPrevZoomSensorIndex a), n, [].
      subst index. destruct a; cbn. repeat split.
    + destruct (Happly a n) as (n1 & evs & Heq & Hn & Hs); rewrite Heq.
      exists (mPrevZoomModeIsVideo a), (mPrevZoomSensorIndex a), n1, evs.
      split; [|split; assumption].
      destruct a; cbn. reflexivity.
Qed.

Lemma doZoom_guarded (index : Z) (m : Machine) :
  guardFires (adapter m) index = true ->
  doZoom index m = Some (NO_ERROR, m, []).
Proof.
  unfold guardFires, curZoomModeIsVideo, doZoom, bind, read, pure.
  destruct CAMERAHAL_TUNA; intros H; cbn [adapter]; rewrite H; reflexivity.
Qed.

Lemma doZoom_apply_writes (index : Z) (a : Adapter) (n : nat) (scale : Z) :
  getZoomStep index (mkMachine a n) = Some (scale, mkMachine a n, []) ->
  doZoom_apply NO_ERROR index (mkMachine a n)
  = Some (if OMX_ErrorNone =? OMX_SetConfig n scale scale
          then NO_ERROR else -1,
          mkMachine
            (if OMX_ErrorNone =? OMX_SetConfig n scale scale
             then set_mPreviousZoomIndx index a else a)
            (S n),
          [DigitalZoomSet scale scale (OMX_SetConfig n scale scale)]).
Proof.
  intros Hscale.
  unfold doZoom_apply. cbn [NO_ERROR Z.eqb]. unfold bind. rewrite Hscale.
  unfold OMX_SetConfig_DigitalZoom, assign, pure. cbn [adapter omxCalls].
  destruct (OMX_ErrorNone =? OMX_SetConfig n scale scale); reflexivity.
Qed.

Lemma doZoom_writes (index : Z) (a : Adapter) (n : nat) :
  zoomRangeInTable a ->
  mComponentState a <> OMX_StateInvalid ->
  0 <= index < mMaxZoomSupported a ->
  guardFires a index = false ->
  exists scale,
    getZoomStep index (mkMachine (pastGuard a) n)
    = Some (scale, mkMachine (pastGuard a) n, [])
    /\ 65536 <= scale <= 524288
    /\ doZoom index (mkMachine a n)
       = Some (if OMX_ErrorNone =? OMX_SetConfig n scale scale
               then NO_ERROR else -1,
               mkMachine
                 (if OMX_ErrorNone =? OMX_SetConfig n scale scale
                  then set_mPreviousZoomIndx index (pastGuard a)
                  else pastGuard a)
                 (S n),
               [DigitalZoomSet scale scale (OMX_SetConfig n scale scale)]).
Proof.
  intros Hmax Hst Hidx Hg.
  assert (Hstage : 0 <= index < ZOOM_STAGES)
    by (unfold zoomRangeInTable in Hmax; lia).
  destruct (getZoomStep_in_range index (mkMachine (pastGuard a) n) Hstage)
    as (scale & Hscale & Hb).
  exists scale. split; [assumption|]. split; [assumption|].
  apply doZoom_apply_writes in Hscale.
  assert (Hrange : (0 >? index) || (int32 (mMaxZoomSupported a - 1) <? index) = false).
  { unfold zoomRangeInTable, ZOOM_STAGES in Hmax.
    rewrite int32_small by (unfold is_int32; lia).
    apply orb_false_intro; [rewrite Z.gtb_ltb|]; apply Z.ltb_ge; lia. }
  assert (Hvalid : OMX_STATETYPE_eqb OMX_StateInvalid (mComponentState a) = false)
    by (destruct (mComponentState a); [congruence|reflexivity..]).
  unfold guardFires, curZoomModeIsVideo in Hg.
  unfold pastGuard, curZoomModeIsVideo in Hscale |- *.
  unfold doZoom, bind, read, assign, pure.
  destruct CAMERAHAL_TUNA;
    cbn -[doZoom_apply int32 Z.sub Z.ltb Z.gtb Z.eqb OMX_STATETYPE_eqb];
    rewrite Hg, Hrange, Hvalid;
    match goal with
    | |- context [doZoom_apply ?r index ?m] =>
        match type of Hscale with
        | doZoom_apply _ _ ?m' = _ =>
            change (doZoom_apply r index m) with (doZoom_apply NO_ERROR index m')
        end
    end;
    rewrite Hscale; reflexivity.
Qed.

Lemma advanceZoom_deferred_total (a : Adapter) (n : nat) :
  zoomRangeInTable a ->
  exists p v s u n' evs,
    advanceZoom_deferred (mkMachine a n)
    = Some (tt, mkMachine (set_mZoomUpdate false
                             (set_mZoomUpdating u (zoomApplied p v s a))) n',
            evs)
    /\ notifications evs = [] /\ stopRequests evs = 0%nat.
Proof.
  intros Hmax.
  unfold advanceZoom_deferred, bind, read, assign, pure.
  cbn -[doZoom].
  destruct (mZoomUpdate a) eqn:U; cbn -[doZoom].
  - destruct (doZoom_total (mTargetZoomIdx a) (mkMachine a n) Hmax)
      as (r & p & v & s & n' & evs & Heq & Hn & Hs).
    cbn [adapter] in Heq. rewrite Heq. cbn -[doZoom].
    exists p, v, s, true, n', (evs ++ []).
    rewrite !app_nil_r. repeat split; try assumption.
  - exists (mPreviousZoomIndx a), (mPrevZoomModeIsVideo a),
      (mPrevZoomSensorIndex a), false, n, [].
    repeat split. destruct a; cbn in *. subst. reflexivity.
Qed.

Lemma notifications_app (e1 e2 : list Event) :
  notifications (e1 ++ e2) = notifications e1 ++ notifications e2.
Proof.
  induction e1 as [|e e1 IH]; [reflexivity|].
  destruct e; cbn; rewrite IH; reflexivity.
Qed.

Lemma stopRequests_app (e1 e2 : list Event) :
  stopRequests (e1 ++ e2) = (stopRequests e1 + stopRequests e2)%nat.
Proof.
  induction e1 as [|e e1 IH]; [reflexivity|].
  destruct e as [| |[]| |]; cbn; rewrite IH; reflexivity.
Qed.

Lemma hardwareWrites_app (e1 e2 : list Event) :
  hardwareWrites (e1 ++ e2) = hardwareWrites e1 ++ hardwareWrites e2.
Proof.
  induction e1 as [|e e1 IH]; [reflexivity|].
  destruct e; cbn; rewrite IH; reflexivity.
Qed.

Lemma requestStopSmoothZoom_events (br : Bridge) (m : Machine) :
  exists r evs,
    requestStopSmoothZoom br m = Some (r, m, evs)
    /\ notifications evs = [] /\ stopRequests evs = 1%nat
    /\ hardwareWrites evs = [].
Proof.
  unfold requestStopSmoothZoom, setState, commitState, rollbackState,
    bind, emit, pure.
  destruct (NO_ERROR =? setStateStatus br); cbn; eauto 8.
Qed.

(** One frame of a running smooth zoom. *)
Lemma advanceZoom_move_smooth (br : Bridge) (a : Adapter) (n : nat) (dir : Z) :
  zoomRangeInTable a ->
  mReturnZoomStatus a = false ->
  Z.land ZOOM_ACTIVE (getState br) <> 0 ->
  is_int32 (mCurrentZoomIdx a) ->
  is_int32 (mTargetZoomIdx a) ->
  mCurrentZoomIdx a <> mTargetZoomIdx a ->
  dir = (if mCurrentZoomIdx a <? mTargetZoomIdx a then 1 else -1) ->
  exists ret p v s n' evs,
    advanceZoom_move br (mkMachine a n)
    = Some (ret,
            mkMachine (zoomApplied p v s
                         (set_mZoomInc dir
                            (set_mCurrentZoomIdx (mCurrentZoomIdx a + dir) a)))
                      n',
            evs)
    /\ notifications evs
       = [(mCurrentZoomIdx a + dir,
           mCurrentZoomIdx a + dir =? mTargetZoomIdx a)]
    /\ (mCurrentZoomIdx a + dir <> mTargetZoomIdx a ->
        stopRequests evs = 0%nat)
    /\ (mCurrentZoomIdx a + dir = mTargetZoomIdx a ->
        mComponentState a <> OMX_StateInvalid ->
        0 <= mTargetZoomIdx a < mMaxZoomSupported a ->
        (forall k w h, OMX_SetConfig k w h = OMX_ErrorNone) ->
        stopRequests evs = 1%nat).
Proof.
  intros Hmax Hret Hact Hc Ht Hne Hdir.
  destruct a as [cur tgt prev inc par rzs upd upg mx cs cm si pv ps].
  cbn in Hret, Hc, Ht, Hne, Hdir |- *.
  subst rzs.
  assert (Hstep : int32 (cur + dir) = cur + dir).
  { apply int32_small. unfold is_int32 in *.
    destruct (cur <? tgt) eqn:L; subst dir;
      [apply Z.ltb_lt in L|apply Z.ltb_ge in L]; lia. }
  unfold advanceZoom_move, bind, read, assign, pure, notifyZoomSubscribers, emit.
  cbn -[doZoom int32 Z.add Z.land Z.eqb Z.ltb requestStopSmoothZoom].
  apply Z.eqb_neq in Hne. rewrite Hne.
  apply Z.eqb_neq in Hact. rewrite Hact.
  cbn -[doZoom int32 Z.add Z.land Z.eqb Z.ltb requestStopSmoothZoom].
  assert (Hinc :
    (if cur <? tgt
     then assign set_mZoomInc 1
     else assign set_mZoomInc (-1)) = assign set_mZoomInc dir)
    by (subst dir; destruct (cur <? tgt); reflexivity).
  unfold assign in Hinc. rewrite Hinc. clear Hinc.
  cbn -[doZoom int32 Z.add Z.land Z.eqb Z.ltb requestStopSmoothZoom].
  rewrite Hstep.
  match goal with
  | |- context [doZoom ?i ?m] =>
      destruct (doZoom_total i m Hmax)
        as (r & p & v & s & n' & evs & Heq & Hn & Hs);
      pose proof (doZoom_succeeds i m Hmax) as Hgood
  end.
  cbn [adapter] in Heq, Hgood.
  assert (Hr : cs <> OMX_StateInvalid -> 0 <= cur + dir < mx ->
               (forall k w h, OMX_SetConfig k w h = OMX_ErrorNone) ->
               r = NO_ERROR).
  { intros H1 H2 H3. destruct (Hgood H1 H2 H3) as (? & ? & ? & ? & Hg & _).
    rewrite Heq in Hg. congruence. }
  clear Hgood. rewrite Heq. clear Heq.
  cbn -[doZoom int32 Z.add Z.land Z.eqb Z.ltb requestStopSmoothZoom].
  destruct (cur + dir =? tgt) eqn:E.
  - apply Z.eqb_eq in E.
    change (match r with 0 => true | _ => false end) with (NO_ERROR =? r).
    destruct (NO_ERROR =? r) eqn:R.
    + match goal with
      | |- context [requestStopSmoothZoom br ?m] =>
          destruct (requestStopSmoothZoom_events br m)
            as (r' & evs' & Heq' & Hn' & Hs' & _); rewrite Heq'; clear Heq'
      end.
      cbn -[Z.add].
      exists r', p, v, s, n'. eexists. split; [reflexivity|].
      rewrite ?app_nil_r, ?notifications_app, ?stopRequests_app, ?Hn, ?Hn', ?Hs, ?Hs'.
      cbn. repeat split; intros; try reflexivity; try contradiction.
    + cbn -[Z.add].
      exists r, p, v, s, n'. eexists. split; [reflexivity|].
      rewrite ?app_nil_r, ?notifications_app, ?stopRequests_app, ?Hn, ?Hs.
      cbn. repeat split; intros; try reflexivity; try contradiction.
      rewrite Hr in R by (assumption || lia). discriminate.
  - apply Z.eqb_neq in E. cbn -[Z.add].
    exists r, p, v, s, n'. eexists. split; [reflexivity|].
    rewrite ?app_nil_r, ?notifications_app, ?stopRequests_app, ?Hn, ?Hs.
    cbn. repeat split; intros; try reflexivity; try contradiction.
Qed.

Lemma advanceZoom_smooth (br : Bridge) (a : Adapter) (n : nat) (dir : Z) :
  zoomRangeInTable a ->
  mReturnZoomStatus a = false ->
  Z.land ZOOM_ACTIVE (getState br) <> 0 ->
  is_int32 (mCurrentZoomIdx a) ->
  is_int32 (mTargetZoomIdx a) ->
  mCurrentZoomIdx a <> mTargetZoomIdx a ->
  dir = (if mCurrentZoomIdx a <? mTargetZoomIdx a then 1 else -1) ->
  exists ret a' n' evs,
    advanceZoom br (mkMachine a n) = Some (ret, mkMachine a' n', evs)
    /\ mCurrentZoomIdx a' = mCurrentZoomIdx a + dir
    /\ mTargetZoomIdx a' = mTargetZoomIdx a
    /\ mReturnZoomStatus a' = false
    /\ mMaxZoomSupported a' = mMaxZoomSupported a
    /\ mComponentState a' = mComponentState a
    /\ notifications evs
       = [(mCurrentZoomIdx a + dir,
           mCurrentZoomIdx a + dir =? mTargetZoomIdx a)]
    /\ (mCurrentZoomIdx a + dir <> mTargetZoomIdx a ->
        stopRequests evs = 0%nat)
    /\ (mCurrentZoomIdx a + dir = mTargetZoomIdx a ->
        mComponentState a <> OMX_StateInvalid ->
        0 <= mTargetZoomIdx a < mMaxZoomSupported a ->
        (forall k w h, OMX_SetConfig k w h = OMX_ErrorNone) ->
        stopRequests evs = 1%nat).
Proof.
  intros Hmax Hret Hact Hc Ht Hne Hdir.
  destruct (advanceZoom_move_smooth br a n dir Hmax Hret Hact Hc Ht Hne Hdir)
    as (r & p & v & s & n1 & e1 & Hmove & Hn1 & Hs0 & Hs1).
  unfold advanceZoom, bind. rewrite Hmove.
  match goal with
  | |- context [advanceZoom_deferred (mkMachine ?a1 ?k)] =>
      destruct (advanceZoom_deferred_total a1 k)
        as (p2 & v2 & s2 & u & n2 & e2 & Hdef & Hn2 & Hs2);
      [destruct a; exact Hmax | rewrite Hdef]
  end.
  unfold pure. do 4 eexists. split; [reflexivity|].
  rewrite ?app_nil_r, ?notifications_app, ?stopRequests_app, Hn1, Hn2, Hs2.
  rewrite Nat.add_0_r, app_nil_r.
  destruct a; cbn in *. repeat split; assumption.
Qed.

Lemma smoothTick_shift (current dir : Z) (total k : nat) :
  smoothTick current dir (S total) (S k)
  = smoothTick (current + dir) dir total k.
Proof.
  unfold smoothTick. rewrite Nat2Z.inj_succ. cbn [Nat.eqb].
  replace (current + dir * Z.succ (Z.of_nat k))
    with (current + dir + dir * Z.of_nat k) by lia.
  reflexivity.
Qed.

Lemma runTicks_smooth (brs : list Bridge) :
  forall (a : Adapter) (n : nat) (dir : Z),
    dir = 1 \/ dir = -1 ->
    mTargetZoomIdx a - mCurrentZoomIdx a = dir * Z.of_nat (List.length brs) ->
    zoomRangeInTable a ->
    mReturnZoomStatus a = false ->
    is_int32 (mCurrentZoomIdx a) ->
    0 <= mTargetZoomIdx a < mMaxZoomSupported a ->
    mComponentState a <> OMX_StateInvalid ->
    (forall k w h, OMX_SetConfig k w h = OMX_ErrorNone) ->
    Forall (fun br => Z.land ZOOM_ACTIVE (getState br) <> 0) brs ->
    exists ticks m2,
      runTicks brs (mkMachine a n) = Some (ticks, m2)
      /\ mCurrentZoomIdx (adapter m2) = mTargetZoomIdx a
      /\ map observe ticks
         = map (smoothTick (mCurrentZoomIdx a) dir (List.length brs))
             (seq 1 (List.length brs)).
Proof.
  induction brs as [|br brs IH]; intros a n dir Hdir Hdist Hmax Hret Hc Ht Hcs Hok Hact.
  - cbn in *. exists [], (mkMachine a n). cbn. repeat split. lia.
  - inversion Hact as [|? ? Hbr Hrest]; subst.
    cbn [List.length] in Hdist. rewrite Nat2Z.inj_succ in Hdist.
    assert (Htgt : is_int32 (mTargetZoomIdx a))
      by (unfold is_int32, zoomRangeInTable, ZOOM_STAGES in *; lia).
    assert (Hne : mCurrentZoomIdx a <> mTargetZoomIdx a) by lia.
    assert (Hd : dir = (if mCurrentZoomIdx a <? mTargetZoomIdx a then 1 else -1)).
    { destruct (mCurrentZoomIdx a <? mTargetZoomIdx a) eqn:L;
        [apply Z.ltb_lt in L|apply Z.ltb_ge in L]; lia. }
    destruct (advanceZoom_smooth br a n dir Hmax Hret Hbr Hc Htgt Hne Hd)
      as (r & a' & n' & evs & Hadv & Hcur & Htg & Hrz & Hmx & Hst & Hnot & Hs0 & Hs1).
    assert (H1 : mTargetZoomIdx a' - mCurrentZoomIdx a'
                 = dir * Z.of_nat (List.length brs))
      by (rewrite Hcur, Htg; lia).
    assert (H2 : zoomRangeInTable a')
      by (unfold zoomRangeInTable in *; rewrite Hmx; assumption).
    assert (H3 : is_int32 (mCurrentZoomIdx a'))
      by (rewrite Hcur; unfold is_int32, zoomRangeInTable, ZOOM_STAGES in *; lia).
    assert (H4 : 0 <= mTargetZoomIdx a' < mMaxZoomSupported a')
      by (rewrite Htg, Hmx; assumption).
    assert (H5 : mComponentState a' <> OMX_StateInvalid)
      by (rewrite Hst; assumption).
    destruct (IH a' n' dir Hdir H1 H2 Hrz H3 H4 H5 Hok Hrest)
      as (ticks & m2 & Hrun & Hend & Hobs).
    cbn [runTicks]. rewrite Hadv, Hrun.
      exists (mkTick r (mCurrentZoomIdx (adapter (mkMachine a' n'))) evs :: ticks), m2.
      split; [reflexivity|]. split; [rewrite Hend; assumption|].
      cbn [map List.length seq]. rewrite Hobs.
      rewrite <- (seq_shift (List.length brs) 1), map_map.
      f_equal.
      * unfold observe, smoothTick. cbn [tickIndex tickEvents adapter].
        rewrite Hnot, Hcur. rewrite Z.mul_1_r.
        destruct brs as [|br' brs'].
        -- cbn [List.length] in *.
           assert (E : mCurrentZoomIdx a + dir = mTargetZoomIdx a) by lia.
           rewrite Hs1 by assumption.
           apply Z.eqb_eq in E. rewrite E. reflexivity.
        -- cbn [List.length] in *.
           assert (E : mCurrentZoomIdx a + dir <> mTargetZoomIdx a) by lia.
           rewrite Hs0 by assumption.
           apply Z.eqb_neq in E. rewrite E. reflexivity.
      * apply map_ext. intros k. rewrite smoothTick_shift, Hcur. reflexivity.
Qed.

Lemma startSmoothZoom_started (targetIdx : Z) (m m1 : Machine) (e1 : list Event) :
  startSmoothZoom targetIdx m = Some (NO_ERROR, m1, e1) ->
  0 <= targetIdx < mMaxZoomSupported (adapter m)
  /\ m1 = mkMachine
            (set_mReturnZoomStatus false
               (set_mZoomParameterIdx (mCurrentZoomIdx (adapter m))
                  (set_mTargetZoomIdx targetIdx (adapter m))))
            (omxCalls m)
  /\ e1 = [].
Proof.
  unfold startSmoothZoom, bind, read, assign, pure. cbn.
  destruct ((targetIdx >=? 0) && (targetIdx <? mMaxZoomSupported (adapter m))) eqn:C;
    cbn; intros H; [|discriminate].
  apply andb_true_iff in C. destruct C as [C1 C2].
  rewrite Z.geb_leb in C1. apply Z.leb_le in C1. apply Z.ltb_lt in C2.
  injection H as <- <-. repeat split; lia.
Qed.

(** *** Smooth zoom reaches its target *)

(** C1. After a successful [startSmoothZoom (targetIdx)] at index
    [current], with zoom active in every frame, a valid component and a
    component that accepts every zoom, [|targetIdx - current|] calls of
    [advanceZoom] end with [mCurrentZoomIdx = targetIdx]; the [k]-th call
    leaves the index at [current] plus [k] steps towards the target and
    notifies the subscribers once with that index, with [isFinalStep]
    false before the last call and true in the last call, which is also
    the only one that requests the exit from smooth zoom. *)
Theorem smooth_zoom_reaches_target
    (m m1 : Machine) (targetIdx : Z) (e1 : list Event) (brs : list Bridge) :
  let current := mCurrentZoomIdx (adapter m) in
  let dir := if current <? targetIdx then 1 else -1 in
  let total := Z.abs_nat (targetIdx - current) in
  startSmoothZoom targetIdx m = Some (NO_ERROR, m1, e1) ->
  zoomRangeInTable (adapter m) ->
  is_int32 current ->
  mComponentState (adapter m) <> OMX_StateInvalid ->
  (forall k w h, OMX_SetConfig k w h = OMX_ErrorNone) ->
  Forall (fun br => Z.land ZOOM_ACTIVE (getState br) <> 0) brs ->
  List.length brs = total ->
  exists ticks m2,
    runTicks brs m1 = Some (ticks, m2)
    /\ mCurrentZoomIdx (adapter m2) = targetIdx
    /\ map observe ticks = map (smoothTick current dir total) (seq 1 total).
Proof.
  intros current dir total Hstart Hmax Hc Hcs Hok Hact Hlen.
  apply startSmoothZoom_started in Hstart. destruct Hstart as (Ht & -> & _).
  destruct m as [a n]. cbn [adapter omxCalls] in *.
  rewrite <- Hlen.
  destruct a as [cur tgt prev inc par rzs upd upg mx cs cm si pv ps].
  cbn in current, Ht, Hmax, Hc, Hcs |- *.
  assert (Hd : dir = 1 \/ dir = -1)
    by (subst dir; destruct (current <? targetIdx); auto).
  assert (Hdist : targetIdx - cur = dir * Z.of_nat (List.length brs)).
  { rewrite Hlen. subst dir total current.
    destruct (cur <? targetIdx) eqn:L;
      [apply Z.ltb_lt in L|apply Z.ltb_ge in L]; lia. }
  exact (runTicks_smooth brs
           (mkAdapter cur targetIdx prev inc cur false upd upg mx cs cm si pv ps)
           n dir Hd Hdist Hmax eq_refl Hc Ht Hcs Hok Hact).
Qed.

(** Every way [doZoom] can return. *)
Lemma doZoom_inv (index : Z) (a : Adapter) (n : nat)
    (ret : status_t) (m' : Machine) (evs : list Event) :
  doZoom index (mkMachine a n) = Some (ret, m', evs) ->
  (guardFires a index = true
   /\ ret = NO_ERROR /\ m' = mkMachine a n /\ evs = [])
  \/ (guardFires a index = false
      /\ ret <> NO_ERROR /\ m' = mkMachine (pastGuard a) n /\ evs = [])
  \/ (guardFires a index = false
      /\ exists scale,
           getZoomStep index (mkMachine (pastGuard a) n)
           = Some (scale, mkMachine (pastGuard a) n, [])
           /\ evs = [DigitalZoomSet scale scale (OMX_SetConfig n scale scale)]
           /\ ((OMX_SetConfig n scale scale <> OMX_ErrorNone
                /\ ret = -1 /\ m' = mkMachine (pastGuard a) (S n))
               \/ (OMX_SetConfig n scale scale = OMX_ErrorNone
                   /\ ret = NO_ERROR
                   /\ m' = mkMachine (set_mPreviousZoomIndx index (pastGuard a))
                                     (S n)))).
Proof.
  destruct (guardFires a index) eqn:G.
  - rewrite (doZoom_guarded index (mkMachine a n) G). intros H.
    injection H as <- <- <-. left. repeat split.
  - right. revert H. unfold guardFires, curZoomModeIsVideo in G.
    unfold doZoom, bind, read, assign, pure.
    set (r0 := if (0 >? index) || _ then _ else _).
    assert (Happly : forall r m1 e1,
      doZoom_apply r0 index (mkMachine (pastGuard a) n) = Some (r, m1, e1) ->
      (r <> NO_ERROR /\ m1 = mkMachine (pastGuard a) n /\ e1 = [])
      \/ exists scale,
           getZoomStep index (mkMachine (pastGuard a) n)
           = Some (scale, mkMachine (pastGuard a) n, [])
           /\ e1 = [DigitalZoomSet scale scale (OMX_SetConfig n scale scale)]
           /\ ((OMX_SetConfig n scale scale <> OMX_ErrorNone
                /\ r = -1 /\ m1 = mkMachine (pastGuard a) (S n))
               \/ (OMX_SetConfig n scale scale = OMX_ErrorNone
                   /\ r = NO_ERROR
                   /\ m1 = mkMachine (set_mPreviousZoomIndx index (pastGuard a))
                                     (S n)))).
    { intros r m1 e1. unfold doZoom_apply.
      destruct (NO_ERROR =? r0) eqn:R.
      - apply Z.eqb_eq in R. unfold bind.
        destruct (getZoomStep index (mkMachine (pastGuard a) n))
          as [[[scale ms] es]|] eqn:S; [|discriminate].
        assert (Hpure : ms = mkMachine (pastGuard a) n /\ es = []).
        { revert S. unfold getZoomStep, bind, read, pure, fromArray.
          repeat match goal with
                 | |- context [if ?c then _ else _] => destruct c
                 | |- context [match ZOOM_STEPS_at ?i with _ => _ end] =>
                     destruct (ZOOM_STEPS_at i)
                 end; intros S; inversion S; split; reflexivity. }
        destruct Hpure as [-> ->].
        unfold OMX_SetConfig_DigitalZoom, assign, pure. cbn [adapter omxCalls].
        destruct (OMX_ErrorNone =? OMX_SetConfig n scale scale) eqn:O;
          cbn; intros H; injection H as <- <- <-; right; exists scale;
          (split; [reflexivity|]); (split; [reflexivity|]).
        + right. apply Z.eqb_eq in O. repeat split; congruence.
        + left. apply Z.eqb_neq in O. repeat split; congruence.
      - unfold pure. intros H. injection H as <- <- <-. left.
        apply Z.eqb_neq in R. repeat split. congruence. }
    clearbody r0. unfold pastGuard, curZoomModeIsVideo in Happly |- *.
    destruct CAMERAHAL_TUNA;
      cbn -[doZoom_apply]; rewrite G;
      match goal with
      | |- context [doZoom_apply r0 index ?m] =>
          match type of Happly with
          | forall r m1 e1, doZoom_apply _ _ ?m0 = _ -> _ =>
              change m with m0
          end
      end;
      destruct (doZoom_apply r0 index _) as [[[r m1] e1]|] eqn:A;
      try discriminate;
      cbn; intros H; injection H as <- <- <-;
      destruct (Happly _ _ _ eq_refl) as [(H1 & H2 & H3)|(scale & H1 & H2 & H3)].
    all: try (left; repeat split; assumption).
    all: right; split; [reflexivity|]; exists scale; repeat split; assumption.
Qed.

Lemma guardFires_same_context (a : Adapter) (index : Z) :
  mPreviousZoomIndx a = index ->
  quirkContextUnchanged a ->
  guardFires a index = true.
Proof.
  unfold quirkContextUnchanged, guardFires. intros <- [Hv Hs].
  rewrite Z.eqb_refl, Hv, Hs, Z.eqb_refl, Bool.eqb_reflx.
  destruct CAMERAHAL_TUNA; [apply orb_true_r|reflexivity].
Qed.

(** *** Immediate zoom *)

(** C3, as the code has it. For a requested index outside
    [[0, mMaxZoomSupported)], [setParametersZoom] leaves the adapter
    unchanged, writes nothing to the component, notifies nobody, and
    returns [NO_ERROR]: the request is dropped without an error. *)
Theorem setParametersZoom_out_of_range_ignored
    (params : CameraParameters) (state : Z) (m : Machine) :
  ~ (0 <= getInt params KEY_ZOOM < mMaxZoomSupported (adapter m)) ->
  setParametersZoom params state m = Some (NO_ERROR, m, []).
Proof.
  intros Hout. unfold setParametersZoom, bind, read, pure.
  destruct (negb (Z.land ZOOM_ACTIVE state =? ZOOM_ACTIVE)); [|reflexivity].
  destruct ((getInt params KEY_ZOOM >=? 0)
            && (getInt params KEY_ZOOM <? mMaxZoomSupported (adapter m))) eqn:C;
    [|reflexivity].
  apply andb_true_iff in C. destruct C as [C1 C2].
  rewrite Z.geb_leb in C1. apply Z.leb_le in C1. apply Z.ltb_lt in C2. lia.
Qed.

(** C4, as the code has it. Whatever index is requested, while the
    adapter state has [ZOOM_ACTIVE] set [setParametersZoom] leaves the
    adapter unchanged, writes nothing to the component, and returns
    [NO_ERROR]: the request is dropped without an error. *)
Theorem setParametersZoom_ignored_while_zoom_active
    (params : CameraParameters) (state : Z) (m : Machine) :
  Z.land ZOOM_ACTIVE state = ZOOM_ACTIVE ->
  setParametersZoom params state m = Some (NO_ERROR, m, []).
Proof.
  intros Hactive. unfold setParametersZoom, bind, pure.
  rewrite Hactive, Z.eqb_refl. reflexivity.
Qed.

(** *** The check of the previous zoom index *)

(** C9. When [index] equals [mPreviousZoomIndx] and the sensor and the
    video mode are those of the previous zoom, [doZoom] returns
    [NO_ERROR], writes nothing to the component and changes nothing,
    whatever the component state and whether or not [index] lies in
    [[0, mMaxZoomSupported)]: the early return comes before [ret] is
    looked at. *)
Theorem doZoom_same_index_skips_error_checks (index : Z) (m : Machine) :
  mPreviousZoomIndx (adapter m) = index ->
  quirkContextUnchanged (adapter m) ->
  doZoom index m = Some (NO_ERROR, m, []).
Proof.
  intros Hprev Hctx. apply doZoom_guarded.
  apply guardFires_same_context; assumption.
Qed.

(** C6, as the code has it. When a first [doZoom (index)] returns
    [NO_ERROR], a second [doZoom (index)] right after it (same sensor,
    same capture mode) returns [NO_ERROR], writes nothing to the
    component and changes nothing. The two calls together write once
    when the first call went past the check of [mPreviousZoomIndx], and
    not at all when the first call was stopped by that check. *)
Theorem doZoom_twice_second_is_noop
    (index : Z) (m m1 : Machine) (evs1 : list Event) :
  doZoom index m = Some (NO_ERROR, m1, evs1) ->
  exists evs2,
    doZoom index m1 = Some (NO_ERROR, m1, evs2)
    /\ hardwareWrites evs2 = []
    /\ List.length (hardwareWrites (evs1 ++ evs2))
       = (if guardFires (adapter m) index then 0%nat else 1%nat).
Proof.
  destruct m as [a n]. intros H. cbn [adapter]. exists [].
  apply doZoom_inv in H.
  destruct H as [(G & _ & -> & ->)
                |[(G & Hr & _)
                 |(G & scale & _ & -> & [(_ & Hr & _)|(_ & _ & ->)])]].
  - rewrite G. repeat split. apply doZoom_guarded; assumption.
  - congruence.
  - discriminate.
  - rewrite G. repeat split.
    apply doZoom_guarded. cbn [adapter].
    unfold guardFires, pastGuard, curZoomModeIsVideo.
    destruct CAMERAHAL_TUNA; destruct a; cbn;
      rewrite ?Z.eqb_refl, ?Bool.eqb_reflx, ?orb_true_r; reflexivity.
Qed.

(** *** Smooth zoom commands *)

(** C10. With [mCurrentZoomIdx = mTargetZoomIdx], [stopSmoothZoom]
    returns [NO_ERROR] and leaves every field as it was ([mZoomInc] and
    [mReturnZoomStatus] included), so an [advanceZoom] after it does
    what it would have done without it. *)
Theorem stopSmoothZoom_at_target_changes_nothing (m : Machine) :
  mCurrentZoomIdx (adapter m) = mTargetZoomIdx (adapter m) ->
  stopSmoothZoom m = Some (NO_ERROR, m, [])
  /\ forall br, (stopSmoothZoom ;; advanceZoom br) m = advanceZoom br m.
Proof.
  intros Heq.
  assert (Hstop : stopSmoothZoom m = Some (NO_ERROR, m, [])).
  { unfold stopSmoothZoom, bind, read, pure.
    rewrite Heq, Z.eqb_refl. reflexivity. }
  split; [assumption|].
  intros br. unfold bind at 1. rewrite Hstop.
  destruct (advanceZoom br m) as [[[r m2] e2]|]; reflexivity.
Qed.

Lemma stopSmoothZoom_pending (a : Adapter) (n : nat) :
  mCurrentZoomIdx a <> mTargetZoomIdx a ->
  stopSmoothZoom (mkMachine a n)
  = Some (NO_ERROR,
          mkMachine
            (set_mReturnZoomStatus true
               (set_mZoomInc
                  (if mCurrentZoomIdx a <? mTargetZoomIdx a then 1 else -1) a))
            n,
          []).
Proof.
  intros Hne. unfold stopSmoothZoom, bind, read, assign, pure.
  cbn [adapter omxCalls].
  assert (E : (mTargetZoomIdx a =? mCurrentZoomIdx a) = false)
    by (apply Z.eqb_neq; congruence).
  rewrite E. cbn [negb].
  destruct (mCurrentZoomIdx a <? mTargetZoomIdx a); destruct a; reflexivity.
Qed.

Lemma advanceZoom_move_return (br : Bridge) (a : Adapter) (n : nat) :
  mReturnZoomStatus a = true ->
  let index := int32 (mCurrentZoomIdx a + mZoomInc a) in
  advanceZoom_move br (mkMachine a n)
  = (ret <- doZoom index ;;
     notifyZoomSubscribers index true ;;
     pure ret)
      (mkMachine
         (set_mReturnZoomStatus false
            (set_mTargetZoomIdx index (set_mCurrentZoomIdx index a)))
         n).
Proof.
  intros Hret index. subst index.
  unfold advanceZoom_move, bind, read, assign, pure.
  cbn -[doZoom int32 Z.add]. rewrite Hret. cbn -[doZoom int32 Z.add].
  destruct (doZoom _ _) as [[[r m1] e1]|]; reflexivity.
Qed.

(** C2. When [stopSmoothZoom] is called with
    [mCurrentZoomIdx <> mTargetZoomIdx], the next [advanceZoom] moves
    [mCurrentZoomIdx] by one step in the direction fixed at the stop (the
    sign of target minus current), sets [mTargetZoomIdx] to the new
    current index, clears [mReturnZoomStatus], calls [doZoom] on the new
    index (its status is the status of the tick, its events come first,
    and it is a write to the component whenever the component is valid,
    the index in range and not stopped by the previous-index check) and
    notifies the subscribers once, with [isFinalStep] true; the distance
    to the former target plays no part. *)
Theorem stop_then_advance_settles (a : Adapter) (n : nat) (br : Bridge) :
  let current := mCurrentZoomIdx a in
  let target := mTargetZoomIdx a in
  let dir := if current <? target then 1 else -1 in
  let settled :=
    set_mReturnZoomStatus false
      (set_mTargetZoomIdx (current + dir)
         (set_mCurrentZoomIdx (current + dir) (set_mZoomInc dir a))) in
  current <> target ->
  is_int32 current ->
  is_int32 target ->
  zoomRangeInTable a ->
  exists m1 ret m2 evs,
    stopSmoothZoom (mkMachine a n) = Some (NO_ERROR, m1, [])
    /\ advanceZoom br m1 = Some (ret, m2, evs)
    /\ mCurrentZoomIdx (adapter m2) = current + dir
    /\ mTargetZoomIdx (adapter m2) = current + dir
    /\ mReturnZoomStatus (adapter m2) = false
    /\ notifications evs = [(current + dir, true)]
    /\ exists m' applied deferred,
         doZoom (current + dir) (mkMachine settled n) = Some (ret, m', applied)
         /\ evs = applied ++ ZoomNotified (current + dir) true :: deferred
         /\ (mComponentState a <> OMX_StateInvalid ->
             0 <= current + dir < mMaxZoomSupported a ->
             guardFires settled (current + dir) = false ->
             exists scale,
               applied
               = [DigitalZoomSet scale scale (OMX_SetConfig n scale scale)]).
Proof.
  intros current target dir settled Hne Hc Ht Hmax.
  assert (Hstep : int32 (current + dir) = current + dir).
  { apply int32_small. unfold is_int32 in *. subst dir.
    destruct (current <? target) eqn:L;
      [apply Z.ltb_lt in L|apply Z.ltb_ge in L]; lia. }
  exists (mkMachine (set_mReturnZoomStatus true (set_mZoomInc dir a)) n).
  pose proof (stopSmoothZoom_pending a n Hne) as Hstop.
  fold current target dir in Hstop. rewrite Hstop. clear Hstop.
  assert (Hmax' : zoomRangeInTable settled) by (destruct a; exact Hmax).
  destruct (doZoom_total (current + dir) (mkMachine settled n) Hmax')
    as (r & p & v & s & n1 & e1 & Hzoom & Hn1 & Hs1).
  assert (Hmove :
    advanceZoom_move br
      (mkMachine (set_mReturnZoomStatus true (set_mZoomInc dir a)) n)
    = Some (r, mkMachine (zoomApplied p v s settled) n1,
            e1 ++ [ZoomNotified (current + dir) true])).
  { rewrite advanceZoom_move_return by (destruct a; reflexivity).
    replace (mCurrentZoomIdx (set_mReturnZoomStatus true (set_mZoomInc dir a))
             + mZoomInc (set_mReturnZoomStatus true (set_mZoomInc dir a)))
      with (current + dir) by (destruct a; reflexivity).
    rewrite Hstep.
    replace (set_mReturnZoomStatus false
               (set_mTargetZoomIdx (current + dir)
                  (set_mCurrentZoomIdx (current + dir)
                     (set_mReturnZoomStatus true (set_mZoomInc dir a)))))
      with settled by (destruct a; reflexivity).
    unfold bind, notifyZoomSubscribers, emit, pure. rewrite Hzoom.
    reflexivity. }
  unfold advanceZoom, bind. rewrite Hmove.
  destruct (advanceZoom_deferred_total (zoomApplied p v s settled) n1)
    as (p2 & v2 & s2 & u & n2 & e2 & Hdef & Hn2 & Hs2);
    [destruct a; exact Hmax|].
  rewrite Hdef.
  unfold pure. do 3 eexists.
  split; [reflexivity|]. split; [reflexivity|].
  cbn [adapter].
  split; [destruct a; reflexivity|].
  split; [destruct a; reflexivity|].
  split; [destruct a; reflexivity|].
  split.
  { rewrite !notifications_app, Hn1, Hn2. reflexivity. }
  exists (mkMachine (zoomApplied p v s settled) n1), e1, e2.
  split; [exact Hzoom|]. split.
  { rewrite app_nil_r, <- app_assoc. reflexivity. }
  intros Hcs Hidx Hg.
  assert (Hcs' : mComponentState settled <> OMX_StateInvalid)
    by (destruct a; exact Hcs).
  assert (Hidx' : 0 <= current + dir < mMaxZoomSupported settled)
    by (destruct a; exact Hidx).
  destruct (doZoom_writes (current + dir) settled n Hmax' Hcs' Hidx' Hg)
    as (scale & _ & _ & Hw).
  rewrite Hzoom in Hw. exists scale. congruence.
Qed.

(** *** The table lookup *)

(** C8, as the code has it. [getZoomStep] does not check its index. For
    an index in [[0, ZOOM_STAGES)] it returns a scale factor between 1.0
    and 8.0 in 16.16 fixed point that depends on nothing but the index,
    [mPrevZoomModeIsVideo] and [mSensorIndex]: for index 0 in a
    [CAMERAHAL_TUNA] build with [mPrevZoomModeIsVideo] set it is
    [FrontSensorVideoMinZoom] for sensor 1 and [BackSensorVideoMinZoom]
    for any other sensor, and in every other case it is the table entry
    of the index; for an index outside [[0, ZOOM_STAGES)] it
    reads outside [ZOOM_STEPS]. The range check is the caller's: with
    [mMaxZoomSupported] at most the table length, [doZoom] on an index
    outside [[0, mMaxZoomSupported)] returns without a lookup and without
    a write, with [-EINVAL] unless the previous-index check returned
    [NO_ERROR] first. *)
Theorem getZoomStep_unchecked_lookup (index : Z) (m : Machine) :
  (0 <= index < ZOOM_STAGES ->
   exists scale,
     getZoomStep index m = Some (scale, m, [])
     /\ 65536 <= scale <= 524288
     /\ (index <> 0 -> ZOOM_STEPS_at index = Some scale)
     /\ (if CAMERAHAL_TUNA && (index =? 0)
            && mPrevZoomModeIsVideo (adapter m)
         then scale = if mSensorIndex (adapter m) =? 1
                      then FrontSensorVideoMinZoom
                      else BackSensorVideoMinZoom
         else ZOOM_STEPS_at index = Some scale)
     /\ forall m',
          mPrevZoomModeIsVideo (adapter m') = mPrevZoomModeIsVideo (adapter m) ->
          mSensorIndex (adapter m') = mSensorIndex (adapter m) ->
          getZoomStep index m' = Some (scale, m', []))
  /\ (~ 0 <= index < ZOOM_STAGES -> getZoomStep index m = None)
  /\ (zoomRangeInTable (adapter m) ->
      ~ 0 <= index < mMaxZoomSupported (adapter m) ->
      doZoom index m
      = if guardFires (adapter m) index
        then Some (NO_ERROR, m, [])
        else Some (- EINVAL, mkMachine (pastGuard (adapter m)) (omxCalls m), [])).
Proof.
  split; [|split].
  - intros Hin.
    destruct (getZoomStep_in_range index m Hin) as (scale & Hs & Hb).
    exists scale. split; [assumption|]. split; [assumption|].
    split; [|split;
             [|intros m' Hv Hsn;
               exact (getZoomStep_ext index m m' scale Hv Hsn Hs)]].
    + intros Hnz. revert Hs. unfold getZoomStep, bind, read, pure, fromArray.
      apply Z.eqb_neq in Hnz.
      destruct CAMERAHAL_TUNA; cbn; rewrite ?Hnz; cbn;
        (destruct (ZOOM_STEPS_at index); [|discriminate]);
        intros H; injection H as <-; reflexivity.
    + revert Hs. unfold getZoomStep, bind, read, pure, fromArray.
      destruct CAMERAHAL_TUNA; cbn [andb].
      * destruct (index =? 0); cbn [negb orb andb].
        -- destruct (mPrevZoomModeIsVideo (adapter m)); cbn [negb].
           ++ destruct (mSensorIndex (adapter m) =? 1);
                intros H; injection H as <-; reflexivity.
           ++ destruct (ZOOM_STEPS_at index); [|discriminate].
              intros H; injection H as <-; reflexivity.
        -- destruct (ZOOM_STEPS_at index); [|discriminate].
           intros H; injection H as <-; reflexivity.
      * destruct (ZOOM_STEPS_at index); [|discriminate].
        intros H; injection H as <-; reflexivity.
  - intros Hout.
    assert (Hnone : ZOOM_STEPS_at index = None).
    { unfold ZOOM_STEPS_at. destruct (index <? 0) eqn:L; [reflexivity|].
      apply Z.ltb_ge in L. apply nth_error_None.
      unfold ZOOM_STAGES in Hout. cbn [List.length ZOOM_STEPS]. lia. }
    unfold getZoomStep, bind, read, fromArray. rewrite Hnone.
    destruct CAMERAHAL_TUNA; [|reflexivity].
    assert (Z0 : (index =? 0) = false)
      by (apply Z.eqb_neq; unfold ZOOM_STAGES in Hout; lia).
    rewrite Z0. reflexivity.
  - intros Hmax Hout. destruct m as [a n]. cbn [adapter omxCalls] in *.
    destruct (guardFires a index) eqn:G;
      [apply doZoom_guarded; assumption|].
    assert (Hrange : (0 >? index) || (int32 (mMaxZoomSupported a - 1) <? index) = true).
    { unfold zoomRangeInTable, ZOOM_STAGES in Hmax.
      rewrite int32_small by (unfold is_int32; lia).
      apply orb_true_iff. rewrite Z.gtb_ltb, !Z.ltb_lt. lia. }
    unfold guardFires, curZoomModeIsVideo in G.
    unfold pastGuard, curZoomModeIsVideo.
    unfold doZoom, doZoom_apply, bind, read, assign, pure.
    destruct CAMERAHAL_TUNA;
      cbn -[int32 Z.sub Z.ltb Z.gtb Z.eqb OMX_STATETYPE_eqb];
      rewrite G, Hrange; reflexivity.
Qed.

(** *** A rejected write *)

(** When the component rejects the write of [doZoom (index)], the call
    returns [-1] and leaves [mPreviousZoomIndx] alone; the next
    [doZoom (index)] writes again. This holds without [CAMERAHAL_TUNA],
    and with it for every call that got past the check because
    [mPreviousZoomIndx] differs from [index]. *)
Lemma doZoom_rejected_write_retried (index : Z) (a : Adapter) (n : nat) :
  zoomRangeInTable a ->
  mComponentState a <> OMX_StateInvalid ->
  0 <= index < mMaxZoomSupported a ->
  mPreviousZoomIndx a <> index ->
  exists scale,
    (OMX_SetConfig n scale scale <> OMX_ErrorNone ->
     exists m1,
       doZoom index (mkMachine a n)
       = Some (-1, m1,
               [DigitalZoomSet scale scale (OMX_SetConfig n scale scale)])
       /\ mPreviousZoomIndx (adapter m1) = mPreviousZoomIndx a
       /\ exists ret2 m2,
            doZoom index m1
            = Some (ret2, m2,
                    [DigitalZoomSet scale scale
                       (OMX_SetConfig (S n) scale scale)])).
Proof.
  intros Hmax Hcs Hidx Hprev.
  assert (G : guardFires a index = false).
  { unfold guardFires. apply Z.eqb_neq in Hprev. rewrite Hprev.
    destruct CAMERAHAL_TUNA; reflexivity. }
  destruct (doZoom_writes index a n Hmax Hcs Hidx G) as (scale & Hz & _ & Hw).
  exists scale. intros Hrej.
  apply Z.eqb_neq in Hrej. rewrite Z.eqb_sym in Hrej. rewrite Hrej in Hw.
  eexists. split; [exact Hw|]. cbn [adapter].
  split; [unfold pastGuard; destruct CAMERAHAL_TUNA; destruct a; reflexivity|].
  assert (Hmax2 : zoomRangeInTable (pastGuard a))
    by (unfold pastGuard; destruct CAMERAHAL_TUNA; destruct a; exact Hmax).
  assert (Hcs2 : mComponentState (pastGuard a) <> OMX_StateInvalid)
    by (unfold pastGuard; destruct CAMERAHAL_TUNA; destruct a; exact Hcs).
  assert (Hidx2 : 0 <= index < mMaxZoomSupported (pastGuard a))
    by (unfold pastGuard; destruct CAMERAHAL_TUNA; destruct a; exact Hidx).
  assert (G2 : guardFires (pastGuard a) index = false).
  { unfold guardFires, pastGuard.
    destruct CAMERAHAL_TUNA; destruct a; cbn in *;
      apply Z.eqb_neq in Hprev; rewrite Hprev; reflexivity. }
  destruct (doZoom_writes index (pastGuard a) (S n) Hmax2 Hcs2 Hidx2 G2)
    as (scale2 & Hz2 & _ & Hw2).
  assert (Hsame : scale2 = scale).
  { assert (Hpp : pastGuard (pastGuard a) = pastGuard a)
      by (unfold pastGuard, curZoomModeIsVideo;
          destruct CAMERAHAL_TUNA; destruct a; reflexivity).
    rewrite Hpp in Hz2.
    pose proof (getZoomStep_ext index (mkMachine (pastGuard a) n)
                  (mkMachine (pastGuard a) (S n)) scale eq_refl eq_refl Hz)
      as Hdet.
    rewrite Hz2 in Hdet. congruence. }
  subst scale2. do 2 eexists. exact Hw2.
Qed.

(** *** Deferred immediate zoom *)

Lemma setParametersZoom_deferred
    (params : CameraParameters) (state : Z) (a : Adapter) (n : nat) :
  Z.land ZOOM_ACTIVE state <> ZOOM_ACTIVE ->
  0 <= getInt params KEY_ZOOM < mMaxZoomSupported a ->
  mZoomUpdating a = true ->
  setParametersZoom params state (mkMachine a n)
  = Some (NO_ERROR,
          mkMachine
            (set_mZoomUpdate true
               (set_mCurrentZoomIdx (getInt params KEY_ZOOM)
                  (set_mTargetZoomIdx (getInt params KEY_ZOOM) a)))
            n,
          []).
Proof.
  intros Hidle Hidx Hupd.
  unfold setParametersZoom, bind, read, assign, pure.
  apply Z.eqb_neq in Hidle. rewrite Hidle.
  cbn -[doZoom Z.geb Z.ltb].
  assert (C : (getInt params KEY_ZOOM >=? 0)
              && (getInt params KEY_ZOOM <? mMaxZoomSupported a) = true).
  { apply andb_true_iff. rewrite Z.geb_leb, Z.leb_le, Z.ltb_lt. lia. }
  rewrite C. cbn -[doZoom]. rewrite Hupd. destruct a; reflexivity.
Qed.

Lemma advanceZoom_move_at_target (br : Bridge) (m : Machine) :
  mReturnZoomStatus (adapter m) = false ->
  mCurrentZoomIdx (adapter m) = mTargetZoomIdx (adapter m) ->
  exists ret evs,
    advanceZoom_move br m = Some (ret, m, evs) /\ hardwareWrites evs = [].
Proof.
  intros Hret Heq.
  unfold advanceZoom_move, bind, read, pure.
  rewrite Hret, Heq, Z.eqb_refl.
  cbn -[requestStopSmoothZoom Z.land Z.eqb].
  destruct (negb (Z.land ZOOM_ACTIVE (getState br) =? 0)).
  - destruct (requestStopSmoothZoom_events br m) as (r & e & Hr & _ & _ & Hw).
    rewrite Hr. exists r, e. split; [reflexivity|assumption].
  - exists NO_ERROR, []. split; reflexivity.
Qed.

(** Without a smooth zoom step pending, two immediate zooms that arrive
    while [mZoomUpdating] is set write nothing themselves, and the next
    [advanceZoom] writes what [doZoom] writes for the second index. *)
Lemma setParametersZoom_coalesced
    (p1 p2 : CameraParameters) (s1 s2 : Z) (a : Adapter) (n : nat)
    (br : Bridge) :
  mZoomUpdating a = true ->
  mReturnZoomStatus a = false ->
  Z.land ZOOM_ACTIVE s1 <> ZOOM_ACTIVE ->
  Z.land ZOOM_ACTIVE s2 <> ZOOM_ACTIVE ->
  0 <= getInt p1 KEY_ZOOM < mMaxZoomSupported a ->
  0 <= getInt p2 KEY_ZOOM < mMaxZoomSupported a ->
  zoomRangeInTable a ->
  exists m1 m2 ret m3 evs r' m' applied,
    setParametersZoom p1 s1 (mkMachine a n) = Some (NO_ERROR, m1, [])
    /\ setParametersZoom p2 s2 m1 = Some (NO_ERROR, m2, [])
    /\ advanceZoom br m2 = Some (ret, m3, evs)
    /\ doZoom (getInt p2 KEY_ZOOM) m2 = Some (r', m', applied)
    /\ hardwareWrites evs = hardwareWrites applied
    /\ mCurrentZoomIdx (adapter m3) = getInt p2 KEY_ZOOM.
Proof.
  intros Hupd Hret H1 H2 Hi1 Hi2 Hmax.
  pose (a1 := set_mZoomUpdate true
                (set_mCurrentZoomIdx (getInt p1 KEY_ZOOM)
                   (set_mTargetZoomIdx (getInt p1 KEY_ZOOM) a))).
  pose (a2 := set_mZoomUpdate true
                (set_mCurrentZoomIdx (getInt p2 KEY_ZOOM)
                   (set_mTargetZoomIdx (getInt p2 KEY_ZOOM) a1))).
  exists (mkMachine a1 n), (mkMachine a2 n).
  assert (Hset1 : setParametersZoom p1 s1 (mkMachine a n)
                  = Some (NO_ERROR, mkMachine a1 n, []))
    by (apply setParametersZoom_deferred; assumption).
  assert (Hset2 : setParametersZoom p2 s2 (mkMachine a1 n)
                  = Some (NO_ERROR, mkMachine a2 n, [])).
  { apply setParametersZoom_deferred;
      [assumption|destruct a; exact Hi2|destruct a; exact Hupd]. }
  assert (Hmax2 : zoomRangeInTable a2) by (destruct a; exact Hmax).
  destruct (advanceZoom_move_at_target br (mkMachine a2 n))
    as (r & e & Hmove & Hw);
    [destruct a; exact Hret|destruct a; reflexivity|].
  destruct (doZoom_total (getInt p2 KEY_ZOOM) (mkMachine a2 n) Hmax2)
    as (r' & p & v & s & n' & applied & Hzoom & _ & _).
  exists r. eexists. exists (e ++ (applied ++ []) ++ []).
  exists r'. eexists. exists applied.
  split; [exact Hset1|]. split; [exact Hset2|].
  split.
  { unfold advanceZoom, bind. rewrite Hmove.
    unfold advanceZoom_deferred, bind, read, assign, pure.
    cbn -[doZoom].
    replace (mZoomUpdate a2) with true by (destruct a; reflexivity).
    replace (mTargetZoomIdx a2) with (getInt p2 KEY_ZOOM)
      by (destruct a; reflexivity).
    cbn -[doZoom]. rewrite Hzoom. cbn -[doZoom]. reflexivity. }
  split; [exact Hzoom|].
  split.
  { rewrite !hardwareWrites_app, Hw, !app_nil_r. reflexivity. }
  destruct a; reflexivity.
Qed.

(** ** Further properties of the zoom code *)

(** *** The table and the lookup *)

Lemma ZOOM_STEPS_sorted : StronglySorted Z.lt ZOOM_STEPS.
Proof.
  apply Sorted_StronglySorted; [exact Z.lt_trans|].
  unfold ZOOM_STEPS. repeat (constructor; try reflexivity).
Qed.

Lemma StronglySorted_nth_error (l : list Z) :
  StronglySorted Z.lt l ->
  forall (i j : nat) (x y : Z),
    (i < j)%nat -> nth_error l i = Some x -> nth_error l j = Some y -> x < y.
Proof.
  induction 1 as [|a l Hs IH Hall]; intros i j x y Hij Hi Hj.
  - destruct i; discriminate.
  - destruct j as [|j]; [lia|]. cbn in Hj.
    destruct i as [|i]; cbn in Hi.
    + injection Hi as <-. apply nth_error_In in Hj.
      rewrite Forall_forall in Hall. apply Hall. assumption.
    + apply (IH i j); [lia|assumption..].
Qed.

Lemma ZOOM_STEPS_at_inv (index v : Z) :
  ZOOM_STEPS_at index = Some v ->
  0 <= index < ZOOM_STAGES
  /\ nth_error ZOOM_STEPS (Z.to_nat index) = Some v
  /\ 65536 <= v <= 524288.
Proof.
  intros H.
  assert (Hin : 0 <= index < ZOOM_STAGES).
  { unfold ZOOM_STEPS_at in H. destruct (index <? 0) eqn:L; [discriminate|].
    apply Z.ltb_ge in L.
    assert (Hn : nth_error ZOOM_STEPS (Z.to_nat index) <> None) by congruence.
    apply nth_error_Some in Hn. cbn [List.length ZOOM_STEPS] in Hn.
    unfold ZOOM_STAGES. lia. }
  split; [assumption|].
  destruct (ZOOM_STEPS_at_defined index Hin) as (v' & Hv' & Hb).
  rewrite H in Hv'. injection Hv' as <-. split; [|assumption].
  unfold ZOOM_STEPS_at in H. destruct (index <? 0); [discriminate|assumption].
Qed.

Lemma ZOOM_STEPS_at_increasing (i j x y : Z) :
  i < j -> ZOOM_STEPS_at i = Some x -> ZOOM_STEPS_at j = Some y -> x < y.
Proof.
  intros Hij Hi Hj.
  apply ZOOM_STEPS_at_inv in Hi. apply ZOOM_STEPS_at_inv in Hj.
  destruct Hi as (Ri & Ni & _), Hj as (Rj & Nj & _).
  apply (StronglySorted_nth_error ZOOM_STEPS ZOOM_STEPS_sorted
           (Z.to_nat i) (Z.to_nat j)); [lia|assumption..].
Qed.

(** What [getZoomStep] can return, and for which index. *)
Lemma getZoomStep_inv (index : Z) (m m' : Machine) (scale : Z) (evs : list Event) :
  getZoomStep index m = Some (scale, m', evs) ->
  m' = m /\ evs = [] /\ 65536 <= scale <= 524288
  /\ ((ZOOM_STEPS_at index = Some scale
       /\ CAMERAHAL_TUNA && (index =? 0)
          && mPrevZoomModeIsVideo (adapter m) = false)
      \/ (index = 0 /\ CAMERAHAL_TUNA = true
          /\ mPrevZoomModeIsVideo (adapter m) = true
          /\ scale = if mSensorIndex (adapter m) =? 1
                     then FrontSensorVideoMinZoom
                     else BackSensorVideoMinZoom)).
Proof.
  unfold getZoomStep, bind, read, pure, fromArray.
  destruct CAMERAHAL_TUNA.
  - destruct (index =? 0) eqn:Z0; cbn [negb orb andb].
    + apply Z.eqb_eq in Z0.
      destruct (mPrevZoomModeIsVideo (adapter m)) eqn:V; cbn [negb].
      * unfold FrontSensorVideoMinZoom, BackSensorVideoMinZoom.
        destruct (mSensorIndex (adapter m) =? 1);
          intros H; injection H as <- <- <-;
          (repeat split; [lia..|]); right; repeat split; assumption.
      * destruct (ZOOM_STEPS_at index) as [v|] eqn:T; [|discriminate].
        intros H; injection H as <- <- <-.
        destruct (ZOOM_STEPS_at_inv index v T) as (_ & _ & Hb).
        repeat split; try lia. left. split; reflexivity.
    + destruct (ZOOM_STEPS_at index) as [v|] eqn:T; [|discriminate].
      intros H; injection H as <- <- <-.
      destruct (ZOOM_STEPS_at_inv index v T) as (_ & _ & Hb).
      repeat split; try lia. left. split; reflexivity.
  - destruct (ZOOM_STEPS_at index) as [v|] eqn:T; [|discriminate].
    intros H; injection H as <- <- <-.
    destruct (ZOOM_STEPS_at_inv index v T) as (_ & _ & Hb).
    repeat split; try lia. left. split; reflexivity.
Qed.

(** X1. The scale factor grows strictly with the zoom index, in both
    builds and whatever the sensor and the recorded video mode of either
    lookup: the values substituted at index 0 under [CAMERAHAL_TUNA] stay
    below the entry of index 1. *)
Theorem getZoomStep_strictly_increasing
    (i j : Z) (m1 m2 : Machine) (si sj : Z) :
  i < j ->
  getZoomStep i m1 = Some (si, m1, []) ->
  getZoomStep j m2 = Some (sj, m2, []) ->
  si < sj.
Proof.
  intros Hij Hi Hj.
  apply getZoomStep_inv in Hi. apply getZoomStep_inv in Hj.
  destruct Hi as (_ & _ & _ & [(Ti & _)|(I0 & _ & _ & Si)]);
    destruct Hj as (_ & _ & _ & [(Tj & _)|(J0 & _ & _ & Sj)]).
  - exact (ZOOM_STEPS_at_increasing i j si sj Hij Ti Tj).
  - subst j. apply ZOOM_STEPS_at_inv in Ti. lia.
  - subst i.
    assert (H1 : ZOOM_STEPS_at 1 = Some 68157) by reflexivity.
    assert (Hle : 68157 <= sj).
    { destruct (Z.eq_dec j 1) as [->|Hn].
      - rewrite H1 in Tj. injection Tj as <-. lia.
      - assert (68157 < sj)
          by (apply (ZOOM_STEPS_at_increasing 1 j); [lia|assumption..]).
        lia. }
    unfold FrontSensorVideoMinZoom, BackSensorVideoMinZoom in Si.
    destruct (mSensorIndex (adapter m1) =? 1); lia.
  - lia.
Qed.

(** *** What one [doZoom] does *)

Lemma pastGuard_zoomApplied (a : Adapter) :
  exists v s, pastGuard a = zoomApplied (mPreviousZoomIndx a) v s a.
Proof.
  unfold pastGuard. destruct CAMERAHAL_TUNA.
  - exists (curZoomModeIsVideo a), (mSensorIndex a). destruct a; reflexivity.
  - exists (mPrevZoomModeIsVideo a), (mPrevZoomSensorIndex a).
    destruct a; reflexivity.
Qed.

Lemma guardFires_previous (a : Adapter) (index : Z) :
  guardFires a index = true -> mPreviousZoomIndx a = index.
Proof.
  unfold guardFires. destruct CAMERAHAL_TUNA; intros H.
  - apply andb_true_iff in H. destruct H as [H _]. apply Z.eqb_eq. assumption.
  - apply Z.eqb_eq. assumption.
Qed.

Lemma doZoom_effects
    (index : Z) (m m' : Machine) (ret : status_t) (evs : list Event) :
  doZoom index m = Some (ret, m', evs) ->
  (exists p v s, adapter m' = zoomApplied p v s (adapter m))
  /\ ((evs = [] /\ omxCalls m' = omxCalls m)
      \/ exists scale,
           evs = [DigitalZoomSet scale scale
                    (OMX_SetConfig (omxCalls m) scale scale)]
           /\ 65536 <= scale <= 524288
           /\ omxCalls m' = S (omxCalls m)).
Proof.
  destruct m as [a n]. cbn [adapter omxCalls]. intros H.
  apply doZoom_inv in H.
  destruct (pastGuard_zoomApplied a) as (v & s & Hpast).
  destruct H as [(_ & _ & -> & ->)
                |[(_ & _ & -> & ->)
                 |(_ & scale & Hs & -> & [(_ & _ & ->)|(_ & _ & ->)])]];
    cbn [adapter omxCalls].
  - split; [|left; split; reflexivity].
    exists (mPreviousZoomIndx a), (mPrevZoomModeIsVideo a),
      (mPrevZoomSensorIndex a). destruct a; reflexivity.
  - split; [|left; split; reflexivity].
    exists (mPreviousZoomIndx a), v, s. assumption.
  - apply getZoomStep_inv in Hs. destruct Hs as (_ & _ & Hb & _).
    split; [exists (mPreviousZoomIndx a), v, s; assumption|].
    right. exists scale. repeat split; lia.
  - apply getZoomStep_inv in Hs. destruct Hs as (_ & _ & Hb & _).
    split; [|right; exists scale; repeat split; lia].
    exists index, v, s. rewrite Hpast. destruct a; reflexivity.
Qed.

(** X2. Whenever [doZoom] returns, it has changed nothing of the adapter
    but [mPreviousZoomIndx], [mPrevZoomModeIsVideo] and
    [mPrevZoomSensorIndex], and it has either done nothing towards the
    outside, or made exactly one [OMX_SetConfig] call, with width equal to
    height and between 1.0 and 8.0; it never notifies the subscribers and
    never calls the state machine. *)
Theorem doZoom_one_write_and_session_kept
    (index : Z) (m m' : Machine) (ret : status_t) (evs : list Event) :
  doZoom index m = Some (ret, m', evs) ->
  (exists p v s, adapter m' = zoomApplied p v s (adapter m))
  /\ ((evs = [] /\ omxCalls m' = omxCalls m)
      \/ exists scale,
           evs = [DigitalZoomSet scale scale
                    (OMX_SetConfig (omxCalls m) scale scale)]
           /\ 65536 <= scale <= 524288
           /\ omxCalls m' = S (omxCalls m)).
Proof. exact (doZoom_effects index m m' ret evs). Qed.

(** X3. [mPreviousZoomIndx] follows the writes the component accepted:
    after a [doZoom (index)] that returns [NO_ERROR] it is [index], after
    one that returns an error it is what it was, and it changes only in a
    call whose write the component answered with [OMX_ErrorNone]. *)
Theorem doZoom_previous_index_follows_accepted_writes
    (index : Z) (m m' : Machine) (ret : status_t) (evs : list Event) :
  doZoom index m = Some (ret, m', evs) ->
  (ret = NO_ERROR -> mPreviousZoomIndx (adapter m') = index)
  /\ (ret <> NO_ERROR ->
      mPreviousZoomIndx (adapter m') = mPreviousZoomIndx (adapter m))
  /\ (mPreviousZoomIndx (adapter m') <> mPreviousZoomIndx (adapter m) ->
      exists scale, evs = [DigitalZoomSet scale scale OMX_ErrorNone]).
Proof.
  destruct m as [a n]. cbn [adapter omxCalls]. intros H.
  apply doZoom_inv in H.
  destruct (pastGuard_zoomApplied a) as (v & s & Hpast).
  assert (Hprev : mPreviousZoomIndx (pastGuard a) = mPreviousZoomIndx a)
    by (rewrite Hpast; destruct a; reflexivity).
  destruct H as [(G & -> & -> & ->)
                |[(_ & Hr & -> & ->)
                 |(_ & scale & _ & -> & [(_ & -> & ->)|(Hok & -> & ->)])]];
    cbn [adapter].
  - apply guardFires_previous in G.
    repeat split; intros; congruence.
  - rewrite Hprev. repeat split; intros; congruence.
  - rewrite Hprev. repeat split; intros; try congruence. discriminate.
  - rewrite Hok.
    replace (mPreviousZoomIndx (set_mPreviousZoomIndx index (pastGuard a)))
      with index by (destruct (pastGuard a); reflexivity).
    repeat split; intros; try congruence. exists scale. reflexivity.
Qed.

(** X4. The scale [doZoom (0)] writes when it writes: in a build with
    [CAMERAHAL_TUNA] and a video capture mode it is the value of the front
    sensor for sensor 1 and the value of the back sensor for any other
    sensor; in every other case it is 1.0. The video mode used is the
    current one, which [doZoom] has just recorded. *)
Theorem doZoom_index_0_scale (a : Adapter) (n : nat)
    (ret : status_t) (m' : Machine) (scale : Z) (reply : OMX_ERRORTYPE)
    (evs : list Event) :
  doZoom 0 (mkMachine a n)
  = Some (ret, m', DigitalZoomSet scale scale reply :: evs) ->
  scale = if CAMERAHAL_TUNA && curZoomModeIsVideo a
          then if mSensorIndex a =? 1
               then FrontSensorVideoMinZoom
               else BackSensorVideoMinZoom
          else 65536.
Proof.
  intros H. apply doZoom_inv in H.
  destruct H as [(_ & _ & _ & He)
                |[(_ & _ & _ & He)
                 |(_ & sc & Hs & He & _)]]; try discriminate.
  injection He as -> _ _.
  apply getZoomStep_inv in Hs.
  destruct Hs as (_ & _ & _ & [(T & C)|(_ & Htuna & Hv & ->)]).
  - unfold ZOOM_STEPS_at in T. cbn in T. injection T as <-.
    unfold pastGuard in C.
    destruct CAMERAHAL_TUNA; [|reflexivity].
    cbn [andb adapter Z.eqb] in C |- *.
    replace (mPrevZoomModeIsVideo
               (set_mPrevZoomSensorIndex (mSensorIndex a)
                  (set_mPrevZoomModeIsVideo (curZoomModeIsVideo a) a)))
      with (curZoomModeIsVideo a) in C by (destruct a; reflexivity).
    rewrite C. reflexivity.
  - unfold pastGuard in *. rewrite Htuna in *. cbn [andb adapter] in *.
    replace (mPrevZoomModeIsVideo
               (set_mPrevZoomSensorIndex (mSensorIndex a)
                  (set_mPrevZoomModeIsVideo (curZoomModeIsVideo a) a)))
      with (curZoomModeIsVideo a) in Hv by (destruct a; reflexivity).
    rewrite Hv.
    replace (mSensorIndex
               (set_mPrevZoomSensorIndex (mSensorIndex a)
                  (set_mPrevZoomModeIsVideo (curZoomModeIsVideo a) a)))
      with (mSensorIndex a) by (destruct a; reflexivity).
    reflexivity.
Qed.

(** *** Relations kept by every call *)

Section Preservation.

Variable R : Machine -> Machine -> list Event -> Prop.
Hypothesis R_refl : forall m, R m m [].
Hypothesis R_trans :
  forall m1 m2 m3 e1 e2, R m1 m2 e1 -> R m2 m3 e2 -> R m1 m3 (e1 ++ e2).
Hypothesis R_session : forall m m', sessionWrite m m' -> R m m' [].
Hypothesis R_event : forall m e, notAWrite e -> R m m [e].
Hypothesis R_doZoom : forall index, preserves R (doZoom index).

Lemma preserves_pure {A} (a : A) : preserves R (pure a).
Proof. intros m x m' evs H. injection H as _ <- <-. apply R_refl. Qed.

Lemma preserves_read {A} (field : Adapter -> A) : preserves R (read field).
Proof. intros m x m' evs H. injection H as _ <- <-. apply R_refl. Qed.

Lemma preserves_emit (e : Event) : notAWrite e -> preserves R (emit e).
Proof.
  intros He m x m' evs H. injection H as _ <- <-. apply R_event. assumption.
Qed.

Lemma preserves_assign {A} (setter : A -> Adapter -> Adapter) (v : A) :
  (forall m, sessionWrite m (mkMachine (setter v (adapter m)) (omxCalls m))) ->
  preserves R (assign setter v).
Proof.
  intros Hs m x m' evs H. injection H as _ <- <-. apply R_session, Hs.
Qed.

Lemma preserves_bind {A B} (c : M A) (k : A -> M B) :
  preserves R c -> (forall a, preserves R (k a)) -> preserves R (bind c k).
Proof.
  intros Hc Hk m b m' evs. unfold bind.
  destruct (c m) as [[[a m1] e1]|] eqn:C; [|discriminate].
  destruct (k a m1) as [[[b' m2] e2]|] eqn:K; [|discriminate].
  intros H. injection H as <- <- <-.
  exact (R_trans m m1 m2 e1 e2 (Hc m a m1 e1 C) (Hk a m1 b' m2 e2 K)).
Qed.

Lemma preserves_if {A} (b : bool) (c1 c2 : M A) :
  preserves R c1 -> preserves R c2 -> preserves R (if b then c1 else c2).
Proof. destruct b; auto. Qed.

Lemma preserves_requestStopSmoothZoom (br : Bridge) :
  preserves R (requestStopSmoothZoom br).
Proof.
  unfold requestStopSmoothZoom, setState, commitState, rollbackState.
  repeat first
    [ apply preserves_pure
    | apply preserves_emit; exact I
    | apply preserves_if
    | apply preserves_bind; [|intros ?] ].
Qed.

Lemma preserves_setParametersZoom (params : CameraParameters) (state : Z) :
  preserves R (setParametersZoom params state).
Proof.
  unfold setParametersZoom. cbv zeta.
  repeat first
    [ apply preserves_pure
    | apply preserves_read
    | apply R_doZoom
    | apply preserves_if
    | apply preserves_assign;
        intros [[] ?]; repeat split
    | apply preserves_bind; [|intros ?] ].
Qed.

Lemma preserves_advanceZoom (br : Bridge) : preserves R (advanceZoom br).
Proof.
  unfold advanceZoom, advanceZoom_move, advanceZoom_deferred,
    notifyZoomSubscribers.
  cbv zeta.
  repeat first
    [ apply preserves_pure
    | apply preserves_read
    | apply R_doZoom
    | apply preserves_requestStopSmoothZoom
    | apply preserves_emit; exact I
    | apply preserves_if
    | apply preserves_assign;
        intros [[] ?]; repeat split
    | apply preserves_bind; [|intros ?] ].
Qed.

Lemma preserves_startSmoothZoom (targetIdx : Z) :
  preserves R (startSmoothZoom targetIdx).
Proof.
  unfold startSmoothZoom. cbv zeta.
  repeat first
    [ apply preserves_pure
    | apply preserves_read
    | apply preserves_if
    | apply preserves_assign;
        intros [[] ?]; repeat split
    | apply preserves_bind; [|intros ?] ].
Qed.

Lemma preserves_stopSmoothZoom : preserves R stopSmoothZoom.
Proof.
  unfold stopSmoothZoom. cbv zeta.
  repeat first
    [ apply preserves_pure
    | apply preserves_read
    | apply preserves_if
    | apply preserves_assign;
        intros [[] ?]; repeat split
    | apply preserves_bind; [|intros ?] ].
Qed.

Lemma preserves_runCall (c : Call) : preserves R (runCall c).
Proof.
  destruct c; cbn [runCall].
  - apply preserves_setParametersZoom.
  - apply preserves_advanceZoom.
  - apply preserves_startSmoothZoom.
  - apply preserves_stopSmoothZoom.
Qed.

Lemma preserves_runCalls (calls : list Call) : preserves R (runCalls calls).
Proof.
  induction calls as [|c calls IH]; cbn [runCalls].
  - apply preserves_pure.
  - apply preserves_bind; [apply preserves_runCall|intros ret].
    apply preserves_bind; [exact IH|intros rets]. apply preserves_pure.
Qed.

End Preservation.

Lemma notAWrite_zoomWrite (e : Event) : notAWrite e -> zoomWrite e.
Proof. destruct e; cbn; tauto. Qed.

Lemma notAWrite_hardwareWrites (e : Event) :
  notAWrite e -> hardwareWrites [e] = [].
Proof. destruct e; cbn; tauto. Qed.

Lemma doZoom_invalid_quiet
    (index : Z) (m m' : Machine) (ret : status_t) (evs : list Event) :
  mComponentState (adapter m) = OMX_StateInvalid ->
  doZoom index m = Some (ret, m', evs) ->
  evs = [].
Proof.
  intros Hcs. unfold doZoom, doZoom_apply, bind, read, assign, pure.
  rewrite Hcs. cbn [OMX_STATETYPE_eqb].
  destruct ((0 >? index) || (int32 (mMaxZoomSupported (adapter m) - 1) <? index));
    destruct CAMERAHAL_TUNA;
    cbn -[int32 Z.sub Z.ltb Z.gtb Z.eqb];
    match goal with
    | |- context [if ?g then _ else _] => destruct g
    end;
    cbn; intros H; injection H as _ _ <-; reflexivity.
Qed.

(** Whenever a sequence of calls returns, every write among its events is
    square and in range. *)
Lemma runCalls_writes
    (calls : list Call) (m m' : Machine) (rets : list status_t)
    (evs : list Event) :
  runCalls calls m = Some (rets, m', evs) ->
  Forall zoomWrite evs.
Proof.
  apply (preserves_runCalls (fun _ _ e => Forall zoomWrite e)).
  - intros _. constructor.
  - intros _ _ _ e1 e2 H1 H2. apply Forall_app. split; assumption.
  - intros _ _ _. constructor.
  - intros _ e He. constructor; [apply notAWrite_zoomWrite; assumption|constructor].
  - intros index m0 r m1 e H. apply doZoom_effects in H.
    destruct H as (_ & [(-> & _)|(scale & -> & Hb & _)]).
    + constructor.
    + constructor; [cbn; split; [reflexivity|assumption]|constructor].
Qed.

(** X6. No sequence of calls changes [mMaxZoomSupported], the component
    state, the capture mode or the sensor index, and the component has
    received exactly as many [OMX_SetConfig] calls as the events show. *)
Theorem calls_keep_configuration
    (calls : list Call) (m m' : Machine) (rets : list status_t)
    (evs : list Event) :
  runCalls calls m = Some (rets, m', evs) ->
  mMaxZoomSupported (adapter m') = mMaxZoomSupported (adapter m)
  /\ mComponentState (adapter m') = mComponentState (adapter m)
  /\ mCapMode (adapter m') = mCapMode (adapter m)
  /\ mSensorIndex (adapter m') = mSensorIndex (adapter m)
  /\ omxCalls m' = (omxCalls m + List.length (hardwareWrites evs))%nat.
Proof.
  apply (preserves_runCalls
           (fun m0 m1 e =>
              mMaxZoomSupported (adapter m1) = mMaxZoomSupported (adapter m0)
              /\ mComponentState (adapter m1) = mComponentState (adapter m0)
              /\ mCapMode (adapter m1) = mCapMode (adapter m0)
              /\ mSensorIndex (adapter m1) = mSensorIndex (adapter m0)
              /\ omxCalls m1
                 = (omxCalls m0 + List.length (hardwareWrites e))%nat)).
  - intros m0. cbn. repeat split. lia.
  - intros m1 m2 m3 e1 e2 (A1 & A2 & A3 & A4 & A5) (B1 & B2 & B3 & B4 & B5).
    rewrite hardwareWrites_app, length_app.
    repeat split; try congruence. lia.
  - intros m0 m1 (S1 & _ & S3 & S4 & S5 & S6 & _). cbn.
    repeat split; try assumption. lia.
  - intros m0 e He. rewrite (notAWrite_hardwareWrites e He). cbn.
    repeat split. lia.
  - intros index m0 r m1 e H. apply doZoom_effects in H.
    destruct H as ((p0 & v0 & s0 & Ha) & Hev).
    rewrite Ha.
    assert (F : forall a, mMaxZoomSupported (zoomApplied p0 v0 s0 a)
                          = mMaxZoomSupported a
                          /\ mComponentState (zoomApplied p0 v0 s0 a)
                             = mComponentState a
                          /\ mCapMode (zoomApplied p0 v0 s0 a) = mCapMode a
                          /\ mSensorIndex (zoomApplied p0 v0 s0 a)
                             = mSensorIndex a)
      by (intros []; repeat split).
    destruct (F (adapter m0)) as (F1 & F2 & F3 & F4).
    repeat split; try assumption.
    destruct Hev as [(-> & ->)|(scale & -> & _ & ->)]; cbn; lia.
Qed.

(** X7. While the component is in [OMX_StateInvalid], no sequence of calls
    writes to it. *)
Theorem no_write_to_invalid_component
    (calls : list Call) (m m' : Machine) (rets : list status_t)
    (evs : list Event) :
  mComponentState (adapter m) = OMX_StateInvalid ->
  runCalls calls m = Some (rets, m', evs) ->
  hardwareWrites evs = [].
Proof.
  intros Hcs Hrun.
  apply (preserves_runCalls
           (fun m0 m1 e =>
              mComponentState (adapter m1) = mComponentState (adapter m0)
              /\ (mComponentState (adapter m0) = OMX_StateInvalid ->
                  hardwareWrites e = []))) in Hrun.
  - apply Hrun. assumption.
  - intros m0. split; reflexivity.
  - intros m1 m2 m3 e1 e2 (A1 & A2) (B1 & B2).
    split; [congruence|]. intros H.
    rewrite hardwareWrites_app, A2, B2 by congruence. reflexivity.
  - intros m0 m1 (_ & _ & _ & S4 & _). split; [assumption|reflexivity].
  - intros m0 e He. split; [reflexivity|].
    intros _. apply notAWrite_hardwareWrites. assumption.
  - intros index m0 r m1 e H. split.
    + apply doZoom_effects in H. destruct H as ((p0 & v0 & s0 & Ha) & _).
      rewrite Ha. destruct (adapter m0); reflexivity.
    + intros Hinv. rewrite (doZoom_invalid_quiet index m0 m1 r e Hinv H).
      reflexivity.
Qed.

(** *** No read outside the table *)

Lemma runs_pure {A} (a : A) : runsUnder tableCovered (pure a).
Proof. intros m Hm. exists a, m, []. split; [reflexivity|assumption]. Qed.

Lemma runs_read {A} (field : Adapter -> A) :
  runsUnder tableCovered (read field).
Proof. intros m Hm. do 3 eexists. split; [reflexivity|assumption]. Qed.

Lemma runs_emit (e : Event) : runsUnder tableCovered (emit e).
Proof. intros m Hm. do 3 eexists. split; [reflexivity|assumption]. Qed.

Lemma runs_assign {A} (setter : A -> Adapter -> Adapter) (v : A) :
  (forall a, mMaxZoomSupported (setter v a) = mMaxZoomSupported a) ->
  runsUnder tableCovered (assign setter v).
Proof.
  intros Hs m Hm. do 3 eexists. split; [reflexivity|].
  unfold tableCovered, zoomRangeInTable in *. cbn [adapter].
  rewrite Hs. assumption.
Qed.

Lemma runs_bind {A B} (c : M A) (k : A -> M B) :
  runsUnder tableCovered c ->
  (forall a, runsUnder tableCovered (k a)) ->
  runsUnder tableCovered (bind c k).
Proof.
  intros Hc Hk m Hm. unfold bind.
  destruct (Hc m Hm) as (a & m1 & e1 & C & Hm1). rewrite C.
  destruct (Hk a m1 Hm1) as (b & m2 & e2 & K & Hm2). rewrite K.
  do 3 eexists. split; [reflexivity|assumption].
Qed.

Lemma runs_if {A} (b : bool) (c1 c2 : M A) :
  runsUnder tableCovered c1 -> runsUnder tableCovered c2 ->
  runsUnder tableCovered (if b then c1 else c2).
Proof. destruct b; auto. Qed.

Lemma runs_doZoom (index : Z) : runsUnder tableCovered (doZoom index).
Proof.
  intros m Hm.
  destruct (doZoom_total index m Hm) as (r & p & v & s & n & e & H & _).
  rewrite H. do 3 eexists. split; [reflexivity|].
  unfold tableCovered, zoomRangeInTable in *. cbn [adapter].
  destruct (adapter m); exact Hm.
Qed.

Lemma runs_runCall (c : Call) : runsUnder tableCovered (runCall c).
Proof.
  destruct c; cbn [runCall];
    unfold setParametersZoom, advanceZoom, advanceZoom_move,
      advanceZoom_deferred, requestStopSmoothZoom, setState, commitState,
      rollbackState, notifyZoomSubscribers, startSmoothZoom, stopSmoothZoom;
    cbv zeta;
    repeat first
      [ apply runs_pure
      | apply runs_read
      | apply runs_emit
      | apply runs_doZoom
      | apply runs_if
      | apply runs_assign; intros []; reflexivity
      | apply runs_bind; [|intros ?] ].
Qed.

Lemma runs_runCalls (calls : list Call) : runsUnder tableCovered (runCalls calls).
Proof.
  induction calls as [|c calls IH]; cbn [runCalls].
  - apply runs_pure.
  - apply runs_bind; [apply runs_runCall|intros ret].
    apply runs_bind; [exact IH|intros rets]. apply runs_pure.
Qed.

(** X5. With [mMaxZoomSupported] between 0 and the length of
    [ZOOM_STEPS], any sequence of calls to [setParametersZoom],
    [advanceZoom], [startSmoothZoom] and [stopSmoothZoom] runs to its end,
    and every [OMX_SetConfig] it makes has its width equal to its height,
    at a scale between 1.0 (65536) and 8.0 (524288). *)
Theorem every_write_is_square_and_in_range (calls : list Call) (m : Machine) :
  zoomRangeInTable (adapter m) ->
  exists rets m' evs,
    runCalls calls m = Some (rets, m', evs)
    /\ Forall zoomWrite evs.
Proof.
  intros Hmax.
  destruct (runs_runCalls calls m Hmax) as (rets & m' & evs & Hrun & _).
  exists rets, m', evs. split; [exact Hrun|].
  exact (runCalls_writes calls m m' rets evs Hrun).
Qed.

(** X8. With [mMaxZoomSupported] between 0 and the length of
    [ZOOM_STEPS], every sequence of calls runs to its end: no call reads
    outside the table, whatever the indices requested, the adapter states
    passed and the answers of the component and of the state machine. *)
Theorem calls_never_read_outside_table (calls : list Call) (m : Machine) :
  zoomRangeInTable (adapter m) ->
  exists rets m' evs,
    runCalls calls m = Some (rets, m', evs)
    /\ zoomRangeInTable (adapter m').
Proof. exact (runs_runCalls calls m). Qed.

(** *** What one tick does to the session *)

Lemma advanceZoom_deferred_inv
    (a : Adapter) (n : nat) (u : unit) (m2 : Machine) (e2 : list Event) :
  advanceZoom_deferred (mkMachine a n) = Some (u, m2, e2) ->
  (exists p v s,
     adapter m2
     = set_mZoomUpdate false
         (set_mZoomUpdating (mZoomUpdate a) (zoomApplied p v s a)))
  /\ notifications e2 = [] /\ stopRequests e2 = 0%nat.
Proof.
  unfold advanceZoom_deferred, bind, read, assign, pure. cbn -[doZoom].
  destruct (mZoomUpdate a) eqn:U; cbn -[doZoom].
  - destruct (doZoom (mTargetZoomIdx a) (mkMachine a n))
      as [[[r m1] e1]|] eqn:D; [|discriminate].
    cbn -[doZoom]. intros H. injection H as _ <- <-.
    apply doZoom_effects in D. destruct D as ((p & v & s & Ha) & Hev).
    cbn [adapter] in *. rewrite Ha.
    split; [exists p, v, s; destruct a; reflexivity|].
    rewrite !app_nil_r.
    destruct Hev as [(-> & _)|(scale & -> & _)]; split; reflexivity.
  - intros H. injection H as _ <- <-.
    split; [|split; reflexivity].
    exists (mPreviousZoomIndx a), (mPrevZoomModeIsVideo a),
      (mPrevZoomSensorIndex a).
    destruct a; cbn in *. subst. reflexivity.
Qed.

Lemma advanceZoom_move_inv
    (br : Bridge) (a : Adapter) (n : nat)
    (ret : status_t) (m1 : Machine) (e1 : list Event) :
  advanceZoom_move br (mkMachine a n) = Some (ret, m1, e1) ->
  exists inc p v s,
    adapter m1
    = zoomApplied p v s
        (set_mReturnZoomStatus false
           (set_mZoomInc inc
              (set_mTargetZoomIdx
                 (snd (advancedIndices
                         (negb (Z.land ZOOM_ACTIVE (getState br) =? 0)) a))
                 (set_mCurrentZoomIdx
                    (fst (advancedIndices
                            (negb (Z.land ZOOM_ACTIVE (getState br) =? 0)) a))
                    a)))).
Proof.
  destruct a as [cur tgt prev inc par rzs upd upg mx cs cm si pv ps].
  unfold advancedIndices. cbn [mReturnZoomStatus mCurrentZoomIdx
                                mTargetZoomIdx mZoomInc].
  destruct rzs.
  - rewrite advanceZoom_move_return by reflexivity.
    cbn [mCurrentZoomIdx mZoomInc fst snd].
    unfold bind, notifyZoomSubscribers, emit, pure.
    destruct (doZoom _ _) as [[[r m'] e']|] eqn:D; [|discriminate].
    intros H. injection H as _ <- _.
    apply doZoom_effects in D. destruct D as ((p & v & s & Ha) & _).
    exists inc, p, v, s. rewrite Ha. reflexivity.
  - unfold advanceZoom_move, bind, read, assign, pure,
      notifyZoomSubscribers, emit.
    cbn -[doZoom int32 Z.add Z.land Z.eqb Z.ltb requestStopSmoothZoom].
    destruct (cur =? tgt) eqn:E;
      cbn -[doZoom int32 Z.add Z.land Z.eqb Z.ltb requestStopSmoothZoom].
    + (* at the target *)
      assert (Hshape : forall m0 : Machine,
                m0 = mkMachine
                       (mkAdapter cur tgt prev inc par false upd upg mx cs cm
                          si pv ps) n ->
                exists p v s,
                  adapter m0
                  = zoomApplied p v s
                      (mkAdapter cur tgt prev inc par false upd upg mx cs cm
                         si pv ps)).
      { intros m0 ->. exists prev, pv, ps. reflexivity. }
      destruct (negb (Z.land ZOOM_ACTIVE (getState br) =? 0)).
      * destruct (requestStopSmoothZoom_events br
                    (mkMachine
                       (mkAdapter cur tgt prev inc par false upd upg mx cs cm
                          si pv ps) n))
          as (r & e & Hr & _).
        rewrite Hr. intros H. injection H as _ <- _.
        exists inc, prev, pv, ps. reflexivity.
      * intros H. injection H as _ <- _.
        exists inc, prev, pv, ps. reflexivity.
    + destruct (negb (Z.land ZOOM_ACTIVE (getState br) =? 0)) eqn:Act;
        cbn -[doZoom int32 Z.add Z.land Z.eqb Z.ltb requestStopSmoothZoom].
      * (* one step of a smooth zoom *)
        set (dir := if cur <? tgt then 1 else -1).
        assert (Hinc :
          (if cur <? tgt
           then assign set_mZoomInc 1
           else assign set_mZoomInc (-1)) = assign set_mZoomInc dir)
          by (subst dir; destruct (cur <? tgt); reflexivity).
        unfold assign in Hinc. rewrite Hinc. clear Hinc.
        cbn -[doZoom int32 Z.add Z.land Z.eqb Z.ltb requestStopSmoothZoom].
        destruct (doZoom _ _) as [[[r m'] e']|] eqn:D; [|discriminate].
        apply doZoom_effects in D. destruct D as ((p & v & s & Ha) & _).
        destruct m' as [a' n']. cbn [adapter] in Ha. subst a'.
        cbn -[doZoom int32 Z.add Z.land Z.eqb Z.ltb requestStopSmoothZoom].
        destruct (int32 (cur + dir) =? tgt).
        -- change (match r with 0 => true | _ => false end)
             with (NO_ERROR =? r).
           destruct (NO_ERROR =? r).
           ++ match goal with
              | |- context [requestStopSmoothZoom br ?m0] =>
                  destruct (requestStopSmoothZoom_events br m0)
                    as (r' & e'' & Hr & _); rewrite Hr
              end.
              cbn. intros H. injection H as _ <- _.
              exists dir, p, v, s. reflexivity.
           ++ cbn. intros H. injection H as _ <- _.
              exists dir, p, v, s. reflexivity.
        -- cbn. intros H. injection H as _ <- _.
           exists dir, p, v, s. reflexivity.
      * (* outside smooth zoom: straight to the target *)
        destruct (doZoom _ _) as [[[r m'] e']|] eqn:D; [|discriminate].
        apply doZoom_effects in D. destruct D as ((p & v & s & Ha) & _).
        cbn. intros H. injection H as _ <- _.
        exists inc, p, v, s. rewrite Ha. reflexivity.
Qed.

Lemma advanceZoom_session
    (br : Bridge) (m m' : Machine) (ret : status_t) (evs : list Event) :
  advanceZoom br m = Some (ret, m', evs) ->
  (mCurrentZoomIdx (adapter m'), mTargetZoomIdx (adapter m'))
  = advancedIndices (negb (Z.land ZOOM_ACTIVE (getState br) =? 0)) (adapter m)
  /\ mReturnZoomStatus (adapter m') = false
  /\ mZoomUpdate (adapter m') = false
  /\ mZoomUpdating (adapter m') = mZoomUpdate (adapter m).
Proof.
  destruct m as [a n]. cbn [adapter]. unfold advanceZoom, bind.
  destruct (advanceZoom_move br (mkMachine a n)) as [[[r m1] e1]|] eqn:Mv;
    [|discriminate].
  destruct m1 as [a1 n1].
  destruct (advanceZoom_deferred (mkMachine a1 n1)) as [[[u m2] e2]|] eqn:Df;
    [|discriminate].
  unfold pure. intros H. injection H as _ <- _.
  apply advanceZoom_move_inv in Mv. destruct Mv as (i & p & v & s & Ha1).
  apply advanceZoom_deferred_inv in Df.
  destruct Df as ((p2 & v2 & s2 & Ha2) & _).
  cbn [adapter] in Ha1. rewrite Ha2, Ha1.
  destruct (advancedIndices _ a) as [c t]. destruct a; cbn. repeat split.
Qed.

(** X9. The zoom indices after a tick are a function of the session
    before it and of the [ZOOM_ACTIVE] bit alone: a pending stop step adds
    [mZoomInc] and settles there; otherwise a session at its target stays,
    a session in smooth zoom moves one index towards the target, and a
    session outside smooth zoom goes straight to the target. Neither the
    answers of the component, nor the component state, nor the answers of
    the state machine change this. Every tick also clears
    [mReturnZoomStatus] and [mZoomUpdate], and leaves [mZoomUpdating] set
    exactly when a zoom had been deferred. *)
Theorem advanceZoom_indices_ignore_hardware
    (br : Bridge) (m m' : Machine) (ret : status_t) (evs : list Event) :
  advanceZoom br m = Some (ret, m', evs) ->
  (mCurrentZoomIdx (adapter m'), mTargetZoomIdx (adapter m'))
  = advancedIndices (negb (Z.land ZOOM_ACTIVE (getState br) =? 0)) (adapter m)
  /\ mReturnZoomStatus (adapter m') = false
  /\ mZoomUpdate (adapter m') = false
  /\ mZoomUpdating (adapter m') = mZoomUpdate (adapter m).
Proof. exact (advanceZoom_session br m m' ret evs). Qed.

Lemma advanceZoom_move_events
    (br : Bridge) (a : Adapter) (n : nat)
    (ret : status_t) (m1 : Machine) (e1 : list Event) :
  advanceZoom_move br (mkMachine a n) = Some (ret, m1, e1) ->
  let zoomActive := negb (Z.land ZOOM_ACTIVE (getState br) =? 0) in
  notifications e1 = tickNotifications zoomActive a
  /\ (stopRequests e1 <= 1)%nat
  /\ (zoomActive = false -> stopRequests e1 = 0%nat)
  /\ (mReturnZoomStatus a = true -> stopRequests e1 = 0%nat)
  /\ (mReturnZoomStatus a = false ->
      mCurrentZoomIdx a = mTargetZoomIdx a ->
      zoomActive = true -> stopRequests e1 = 1%nat).
Proof.
  destruct a as [cur tgt prev inc par rzs upd upg mx cs cm si pv ps].
  unfold tickNotifications, advancedIndices.
  cbn [mReturnZoomStatus mCurrentZoomIdx mTargetZoomIdx mZoomInc].
  destruct rzs.
  - rewrite advanceZoom_move_return by reflexivity.
    cbn [mCurrentZoomIdx mZoomInc fst snd].
    unfold bind, notifyZoomSubscribers, emit, pure.
    destruct (doZoom _ _) as [[[r m'] e']|] eqn:D; [|discriminate].
    intros H. injection H as _ _ <-.
    apply doZoom_effects in D.
    destruct D as (_ & [(-> & _)|(scale & -> & _)]);
      cbn; repeat split; intros; (reflexivity || lia || discriminate).
  - unfold advanceZoom_move, bind, read, assign, pure,
      notifyZoomSubscribers, emit.
    cbn -[doZoom int32 Z.add Z.land Z.eqb Z.ltb requestStopSmoothZoom].
    destruct (cur =? tgt) eqn:E;
      cbn -[doZoom int32 Z.add Z.land Z.eqb Z.ltb requestStopSmoothZoom].
    + destruct (negb (Z.land ZOOM_ACTIVE (getState br) =? 0)).
      * match goal with
        | |- context [requestStopSmoothZoom br ?m0] =>
            destruct (requestStopSmoothZoom_events br m0)
              as (r & e & Hr & Hn & Hs & _); rewrite Hr
        end.
        intros H. injection H as _ _ <-. rewrite Hn, Hs.
        repeat split; intros; (reflexivity || lia || discriminate).
      * intros H. injection H as _ _ <-. cbn.
        repeat split; intros; (reflexivity || lia || discriminate).
    + apply Z.eqb_neq in E.
      destruct (negb (Z.land ZOOM_ACTIVE (getState br) =? 0)) eqn:Act;
        cbn -[doZoom int32 Z.add Z.land Z.eqb Z.ltb requestStopSmoothZoom].
      * set (dir := if cur <? tgt then 1 else -1).
        assert (Hinc :
          (if cur <? tgt
           then assign set_mZoomInc 1
           else assign set_mZoomInc (-1)) = assign set_mZoomInc dir)
          by (subst dir; destruct (cur <? tgt); reflexivity).
        unfold assign in Hinc. rewrite Hinc. clear Hinc.
        cbn -[doZoom int32 Z.add Z.land Z.eqb Z.ltb requestStopSmoothZoom].
        destruct (doZoom _ _) as [[[r m'] e']|] eqn:D; [|discriminate].
        apply doZoom_effects in D.
        assert (Hq : notifications e' = [] /\ stopRequests e' = 0%nat)
          by (destruct D as (_ & [(-> & _)|(scale & -> & _)]); split; reflexivity).
        destruct Hq as [Hn' Hs']. clear D.
        cbn -[doZoom int32 Z.add Z.land Z.eqb Z.ltb requestStopSmoothZoom].
        destruct (int32 (cur + dir) =? tgt).
        -- change (match r with 0 => true | _ => false end)
             with (NO_ERROR =? r).
           destruct (NO_ERROR =? r).
           ++ match goal with
              | |- context [requestStopSmoothZoom br ?m0] =>
                  destruct (requestStopSmoothZoom_events br m0)
                    as (r' & e'' & Hr & Hn & Hs & _); rewrite Hr
              end.
              cbn. intros H. injection H as _ _ <-.
              rewrite ?app_nil_r, ?notifications_app, ?stopRequests_app,
                Hn', Hs', Hn, Hs.
              cbn. repeat split; intros; (reflexivity || lia || discriminate || congruence).
           ++ cbn. intros H. injection H as _ _ <-.
              rewrite ?app_nil_r, ?notifications_app, ?stopRequests_app, Hn', Hs'.
              cbn. repeat split; intros; (reflexivity || lia || discriminate || congruence).
        -- cbn. intros H. injection H as _ _ <-.
           rewrite ?app_nil_r, ?notifications_app, ?stopRequests_app, Hn', Hs'.
           cbn. repeat split; intros; (reflexivity || lia || discriminate || congruence).
      * destruct (doZoom _ _) as [[[r m'] e']|] eqn:D; [|discriminate].
        apply doZoom_effects in D.
        cbn. intros H. injection H as _ _ <-.
        destruct D as (_ & [(-> & _)|(scale & -> & _)]);
          cbn; repeat split; intros; (reflexivity || lia || discriminate || congruence).
Qed.

Lemma advanceZoom_events
    (br : Bridge) (m m' : Machine) (ret : status_t) (evs : list Event) :
  advanceZoom br m = Some (ret, m', evs) ->
  let zoomActive := negb (Z.land ZOOM_ACTIVE (getState br) =? 0) in
  notifications evs = tickNotifications zoomActive (adapter m)
  /\ (stopRequests evs <= 1)%nat
  /\ (zoomActive = false -> stopRequests evs = 0%nat)
  /\ (mReturnZoomStatus (adapter m) = true -> stopRequests evs = 0%nat)
  /\ (mReturnZoomStatus (adapter m) = false ->
      mCurrentZoomIdx (adapter m) = mTargetZoomIdx (adapter m) ->
      zoomActive = true -> stopRequests evs = 1%nat).
Proof.
  destruct m as [a n]. cbn [adapter]. unfold advanceZoom, bind.
  destruct (advanceZoom_move br (mkMachine a n)) as [[[r m1] e1]|] eqn:Mv;
    [|discriminate].
  destruct m1 as [a1 n1].
  destruct (advanceZoom_deferred (mkMachine a1 n1)) as [[[u m2] e2]|] eqn:Df;
    [|discriminate].
  unfold pure. intros H. injection H as _ _ <-.
  apply advanceZoom_move_events in Mv.
  apply advanceZoom_deferred_inv in Df. destruct Df as (_ & Hn2 & Hs2).
  cbv zeta in Mv |- *.
  rewrite !app_nil_r, notifications_app, stopRequests_app, Hn2, Hs2,
    app_nil_r, Nat.add_0_r.
  exact Mv.
Qed.

(** X10. The notifications of a tick are a function of the session before
    it and of the [ZOOM_ACTIVE] bit: a pending stop step is notified once,
    as final; a step of a smooth zoom is notified once, as final exactly
    when it reaches the target; a tick at the target, and a tick that
    jumps to the target outside smooth zoom, notify nobody. A tick asks to
    leave smooth zoom at most once, never with [ZOOM_ACTIVE] clear and
    never for a pending stop step, and exactly once when it finds the
    session at its target with [ZOOM_ACTIVE] set. *)
Theorem advanceZoom_notifications
    (br : Bridge) (m m' : Machine) (ret : status_t) (evs : list Event) :
  advanceZoom br m = Some (ret, m', evs) ->
  let zoomActive := negb (Z.land ZOOM_ACTIVE (getState br) =? 0) in
  notifications evs = tickNotifications zoomActive (adapter m)
  /\ (stopRequests evs <= 1)%nat
  /\ (zoomActive = false -> stopRequests evs = 0%nat)
  /\ (mReturnZoomStatus (adapter m) = true -> stopRequests evs = 0%nat)
  /\ (mReturnZoomStatus (adapter m) = false ->
      mCurrentZoomIdx (adapter m) = mTargetZoomIdx (adapter m) ->
      zoomActive = true -> stopRequests evs = 1%nat).
Proof. exact (advanceZoom_events br m m' ret evs). Qed.

(** *** Immediate zoom, alone and with ticks *)

Lemma setParametersZoom_inv
    (params : CameraParameters) (state : Z) (a : Adapter) (n : nat)
    (ret : status_t) (m1 : Machine) (e1 : list Event) :
  setParametersZoom params state (mkMachine a n) = Some (ret, m1, e1) ->
  let zoom := getInt params KEY_ZOOM in
  ret = NO_ERROR
  /\ ((m1 = mkMachine a n /\ e1 = []
       /\ (Z.land ZOOM_ACTIVE state = ZOOM_ACTIVE
           \/ ~ 0 <= zoom < mMaxZoomSupported a))
      \/ (Z.land ZOOM_ACTIVE state <> ZOOM_ACTIVE
          /\ 0 <= zoom < mMaxZoomSupported a
          /\ exists r0 m0 p v s,
               (if mZoomUpdating a
                then Some (r0, m0, e1) = Some (NO_ERROR, mkMachine a n, [])
                else doZoom zoom
                       (mkMachine
                          (set_mCurrentZoomIdx zoom (set_mTargetZoomIdx zoom a))
                          n)
                     = Some (r0, m0, e1))
               /\ omxCalls m1 = omxCalls m0
               /\ adapter m0
                  = zoomApplied p v s
                      (if mZoomUpdating a then a
                       else set_mCurrentZoomIdx zoom
                              (set_mTargetZoomIdx zoom a))
               /\ adapter m1
                  = zoomApplied p v s
                      (set_mZoomUpdate (mZoomUpdating a || mZoomUpdate a)
                         (set_mZoomUpdating true
                            (set_mCurrentZoomIdx zoom
                               (set_mTargetZoomIdx zoom a)))))).
Proof.
  intros H zoom. revert H.
  unfold setParametersZoom, bind, read, assign, pure. fold zoom.
  destruct (Z.eqb_spec (Z.land ZOOM_ACTIVE state) ZOOM_ACTIVE) as [Act|Act];
    cbn -[doZoom Z.geb Z.ltb].
  { intros H. injection H as <- <- <-. split; [reflexivity|].
    left. repeat split. left. assumption. }
  destruct ((zoom >=? 0) && (zoom <? mMaxZoomSupported a)) eqn:C;
    cbn -[doZoom].
  2:{ intros H. injection H as <- <- <-. split; [reflexivity|].
      left. repeat split. right. intros [H1 H2].
      apply andb_false_iff in C. rewrite Z.geb_leb, Z.leb_gt, Z.ltb_ge in C.
      lia. }
  apply andb_true_iff in C. destruct C as [C1 C2].
  rewrite Z.geb_leb in C1. apply Z.leb_le in C1. apply Z.ltb_lt in C2.
  destruct (mZoomUpdating a) eqn:U; cbn -[doZoom].
  - intros H. injection H as <- <- <-. split; [reflexivity|].
    right. split; [assumption|]. split; [lia|].
    exists NO_ERROR, (mkMachine a n), (mPreviousZoomIndx a),
      (mPrevZoomModeIsVideo a), (mPrevZoomSensorIndex a).
    cbn [adapter omxCalls orb].
    split; [reflexivity|]. split; [reflexivity|].
    destruct a; cbn in *; subst; split; reflexivity.
  - destruct (doZoom _ _) as [[[r0 m0] e0]|] eqn:D; [|discriminate].
    cbn -[doZoom]. intros H. injection H as <- <- <-.
    split; [reflexivity|]. right. split; [assumption|]. split; [lia|].
    pose proof (doZoom_effects _ _ _ _ _ D) as ((p & v & s & Ha) & _).
    cbn [adapter] in Ha.
    exists r0, m0, p, v, s. cbn [adapter omxCalls orb].
    rewrite !app_nil_r.
    split; [reflexivity|]. split; [reflexivity|]. split; [assumption|].
    rewrite Ha. destruct a; cbn in *; subst; reflexivity.
Qed.

Lemma setParametersZoom_writes
    (params : CameraParameters) (state : Z) (m m1 : Machine)
    (ret : status_t) (e1 : list Event) :
  setParametersZoom params state m = Some (ret, m1, e1) ->
  ret = NO_ERROR
  /\ notifications e1 = [] /\ stopRequests e1 = 0%nat
  /\ (List.length (hardwareWrites e1) <= 1)%nat
  /\ (mZoomUpdating (adapter m) = true ->
      hardwareWrites e1 = [] /\ mZoomUpdating (adapter m1) = true)
  /\ (hardwareWrites e1 <> [] -> mZoomUpdating (adapter m1) = true).
Proof.
  destruct m as [a n]. intros H. apply setParametersZoom_inv in H.
  cbv zeta in H. destruct H as (-> & [(-> & -> & _)|(_ & _ & H)]).
  - cbn. repeat split; intros; try lia; try tauto.
  - destruct H as (r0 & m0 & p & v & s & Hrun & _ & _ & Ha1).
    split; [reflexivity|].
    assert (Hupd : mZoomUpdating (adapter m1) = true)
      by (rewrite Ha1; destruct a; reflexivity).
    destruct (mZoomUpdating a) eqn:U.
    + injection Hrun as _ _ ->. cbn [adapter]. cbn.
      repeat split; intros; try lia; try assumption; try contradiction.
    + apply doZoom_effects in Hrun.
      destruct Hrun as (_ & [(-> & _)|(scale & -> & _)]);
        cbn in *; repeat split; intros; try lia; try assumption;
        try discriminate; try congruence.
Qed.

(** X11. [setParametersZoom] returns [NO_ERROR] whenever it returns, also
    when the component rejected the write, and it sends no notification
    and makes no state machine call. However many immediate zooms arrive
    between two ticks, and whatever they ask for, together they make at
    most one [OMX_SetConfig] call, and none at all when [mZoomUpdating]
    was already set. *)
Theorem setParametersZoom_burst_writes_once
    (requests : list (CameraParameters * Z)) (m m' : Machine)
    (rets : list status_t) (evs : list Event) :
  runCalls (map (fun r => SetParametersZoom (fst r) (snd r)) requests) m
  = Some (rets, m', evs) ->
  Forall (fun ret => ret = NO_ERROR) rets
  /\ notifications evs = [] /\ stopRequests evs = 0%nat
  /\ (List.length (hardwareWrites evs) <= 1)%nat
  /\ (mZoomUpdating (adapter m) = true -> hardwareWrites evs = []).
Proof.
  revert m m' rets evs.
  induction requests as [|[params state] requests IH]; intros m m' rets evs.
  - cbn. intros H. injection H as <- _ <-. cbn. repeat split; auto.
  - cbn [map runCalls runCall fst snd]. unfold bind at 1.
    destruct (setParametersZoom params state m) as [[[r m1] e1]|] eqn:S;
      [|discriminate].
    unfold bind at 1.
    destruct (runCalls _ m1) as [[[rs m2] e2]|] eqn:Rest; [|discriminate].
    unfold pure. intros H. injection H as <- _ <-.
    apply setParametersZoom_writes in S.
    destruct S as (-> & Hn1 & Hs1 & Hl1 & Hu1 & Hw1).
    apply IH in Rest. destruct Rest as (Hr & Hn2 & Hs2 & Hl2 & Hu2).
    rewrite app_nil_r, notifications_app, stopRequests_app,
      hardwareWrites_app, Hn1, Hn2, Hs1, Hs2.
    split; [constructor; [reflexivity|assumption]|].
    split; [reflexivity|]. split; [reflexivity|].
    rewrite length_app.
    destruct (hardwareWrites e1) as [|w ws] eqn:W.
    + cbn. split; [assumption|].
      intros U. destruct (Hu1 U) as [_ U1]. apply Hu2. assumption.
    + assert (U1 : mZoomUpdating (adapter m1) = true)
        by (apply Hw1; discriminate).
      rewrite (Hu2 U1). cbn in Hl1 |- *. split; [lia|].
      intros U. destruct (Hu1 U) as [Hnil _]. discriminate.
Qed.

Lemma bind_inv {A B} (c : M A) (k : A -> M B) (m m2 : Machine)
    (b : B) (evs : list Event) :
  bind c k m = Some (b, m2, evs) ->
  exists a m1 e1 e2,
    c m = Some (a, m1, e1) /\ k a m1 = Some (b, m2, e2) /\ evs = e1 ++ e2.
Proof.
  unfold bind.
  destruct (c m) as [[[a m1] e1]|]; [|discriminate].
  destruct (k a m1) as [[[b' m2'] e2]|] eqn:K; [|discriminate].
  intros H. injection H as <- <- <-. exists a, m1, e1, e2. repeat split.
  assumption.
Qed.

Lemma advanceZoom_deferred_previous (a : Adapter) (n : nat)
    (u : unit) (m2 : Machine) (e2 : list Event) :
  zoomRangeInTable a ->
  mComponentState a <> OMX_StateInvalid ->
  0 <= mTargetZoomIdx a < mMaxZoomSupported a ->
  (forall k w h, OMX_SetConfig k w h = OMX_ErrorNone) ->
  advanceZoom_deferred (mkMachine a n) = Some (u, m2, e2) ->
  mPreviousZoomIndx (adapter m2)
  = if mZoomUpdate a then mTargetZoomIdx a else mPreviousZoomIndx a.
Proof.
  intros Hmax Hcs Ht Hok.
  unfold advanceZoom_deferred, bind, read, assign, pure. cbn -[doZoom].
  destruct (mZoomUpdate a); cbn -[doZoom].
  - destruct (doZoom_succeeds (mTargetZoomIdx a) (mkMachine a n) Hmax Hcs Ht Hok)
      as (v & s & n' & e & Hz & _).
    rewrite Hz. cbn. intros H. injection H as _ <- _.
    destruct a; reflexivity.
  - intros H. injection H as _ <- _. destruct a; reflexivity.
Qed.

(** X12. An immediate zoom reaches the component by the next tick at the
    latest. With no stop step pending, a valid component that accepts
    every write, and an adapter state outside smooth zoom,
    [setParametersZoom] for an index in range followed by one
    [advanceZoom] leaves current, target and previously applied index all
    equal to the requested index, with nothing deferred any more and no
    notification sent, whether or not an update was in flight when the
    request came. *)
Theorem immediate_zoom_applied_by_next_tick
    (params : CameraParameters) (state : Z) (a : Adapter) (n : nat)
    (br : Bridge) :
  let zoom := getInt params KEY_ZOOM in
  zoomRangeInTable a ->
  mComponentState a <> OMX_StateInvalid ->
  (forall k w h, OMX_SetConfig k w h = OMX_ErrorNone) ->
  mReturnZoomStatus a = false ->
  Z.land ZOOM_ACTIVE state <> ZOOM_ACTIVE ->
  0 <= zoom < mMaxZoomSupported a ->
  exists ret m' evs,
    (setParametersZoom params state ;; advanceZoom br) (mkMachine a n)
    = Some (ret, m', evs)
    /\ mCurrentZoomIdx (adapter m') = zoom
    /\ mTargetZoomIdx (adapter m') = zoom
    /\ mPreviousZoomIndx (adapter m') = zoom
    /\ mZoomUpdate (adapter m') = false
    /\ notifications evs = [].
Proof.
  intros zoom Hmax Hcs Hok Hret Hidle Hz.
  destruct (runs_bind (setParametersZoom params state)
              (fun _ => advanceZoom br)
              (runs_runCall (SetParametersZoom params state))
              (fun _ => runs_runCall (AdvanceZoom br))
              (mkMachine a n) Hmax)
    as (ret & m' & evs & Hrun & _).
  exists ret, m', evs. split; [assumption|].
  apply bind_inv in Hrun.
  destruct Hrun as (r1 & m1 & e1 & e2 & Hset & Hadv & ->).
  pose proof (setParametersZoom_writes _ _ _ _ _ _ Hset) as (_ & Hn1 & _).
  apply setParametersZoom_inv in Hset. cbv zeta in Hset. fold zoom in Hset.
  destruct Hset as (_ & [(_ & _ & [Hact|Hout])|(_ & _ & Hacc)]);
    [contradiction|contradiction|].
  destruct Hacc as (r0 & m0 & p & v & s & Hzoom & _ & Ha0 & Ha1).
  destruct m1 as [a1 n1]. cbn [adapter] in Ha1.
  (* the session after the request *)
  assert (Hcur1 : mCurrentZoomIdx a1 = zoom) by (rewrite Ha1; destruct a; reflexivity).
  assert (Htgt1 : mTargetZoomIdx a1 = zoom) by (rewrite Ha1; destruct a; reflexivity).
  assert (Hret1 : mReturnZoomStatus a1 = false)
    by (rewrite Ha1; destruct a; exact Hret).
  assert (Hupd1 : mZoomUpdate a1 = mZoomUpdating a || mZoomUpdate a)
    by (rewrite Ha1; destruct a; reflexivity).
  assert (Hprev1 : mPreviousZoomIndx a1 = p) by (rewrite Ha1; destruct a; reflexivity).
  assert (Hmax1 : zoomRangeInTable a1) by (rewrite Ha1; destruct a; exact Hmax).
  assert (Hcs1 : mComponentState a1 <> OMX_StateInvalid)
    by (rewrite Ha1; destruct a; exact Hcs).
  assert (Hz1 : 0 <= mTargetZoomIdx a1 < mMaxZoomSupported a1)
    by (rewrite Ha1; destruct a; exact Hz).
  (* what the request itself wrote *)
  assert (Hp : mZoomUpdating a = false -> p = zoom).
  { intros U. rewrite U in Hzoom, Ha0.
    match type of Hzoom with
    | doZoom _ ?m = _ =>
        destruct (doZoom_succeeds zoom m) as (v' & s' & n' & e' & Hz' & _);
          [destruct a; exact Hmax|destruct a; exact Hcs|destruct a; exact Hz
          |exact Hok|]
    end.
    rewrite Hz' in Hzoom. injection Hzoom as _ <- _.
    cbn [adapter] in Ha0.
    apply (f_equal mPreviousZoomIndx) in Ha0.
    destruct a; cbn in Ha0. congruence. }
  (* the tick *)
  pose proof (advanceZoom_session _ _ _ _ _ Hadv) as (Hidx & _ & Hupd' & _).
  pose proof (advanceZoom_events _ _ _ _ _ Hadv) as (Hn2 & _).
  cbv zeta in Hn2. cbn [adapter] in Hidx, Hn2.
  unfold advancedIndices in Hidx. unfold tickNotifications in Hn2.
  rewrite Hret1, Hcur1, Htgt1, Z.eqb_refl in Hidx, Hn2.
  injection Hidx as Hc Ht.
  split; [assumption|]. split; [assumption|].
  split; [|split; [assumption|rewrite notifications_app, Hn1, Hn2; reflexivity]].
  unfold advanceZoom in Hadv. apply bind_inv in Hadv.
  destruct Hadv as (r & m2 & e3 & e4 & Hmove & Hrest & _).
  destruct (advanceZoom_move_at_target br (mkMachine a1 n1))
    as (r' & e' & Hmove' & _);
    [exact Hret1|cbn [adapter]; congruence|].
  rewrite Hmove' in Hmove. injection Hmove as _ <- _.
  apply bind_inv in Hrest.
  destruct Hrest as (u & m3 & e5 & e6 & Hdef & Hpure & _).
  injection Hpure as _ <- _.
  rewrite (advanceZoom_deferred_previous a1 n1 u m3 e5 Hmax1 Hcs1 Hz1 Hok Hdef).
  rewrite Hupd1, Htgt1, Hprev1.
  destruct (mZoomUpdating a); cbn [orb]; [reflexivity|].
  destruct (mZoomUpdate a); [reflexivity|]. apply Hp. reflexivity.
Qed.

(** X13. An immediate zoom that arrives while a stop step is pending does
    not stay where it was put: [setParametersZoom] for an index in range
    followed by one [advanceZoom] ends one [mZoomInc] beyond the requested
    index, with the target moved there too, and the subscribers are told
    that index as final. *)
Theorem immediate_zoom_after_stop_is_shifted
    (params : CameraParameters) (state : Z) (a : Adapter) (n : nat)
    (br : Bridge) (ret : status_t) (m' : Machine) (evs : list Event) :
  let zoom := getInt params KEY_ZOOM in
  mReturnZoomStatus a = true ->
  Z.land ZOOM_ACTIVE state <> ZOOM_ACTIVE ->
  0 <= zoom < mMaxZoomSupported a ->
  (setParametersZoom params state ;; advanceZoom br) (mkMachine a n)
  = Some (ret, m', evs) ->
  mCurrentZoomIdx (adapter m') = int32 (zoom + mZoomInc a)
  /\ mTargetZoomIdx (adapter m') = int32 (zoom + mZoomInc a)
  /\ notifications evs = [(int32 (zoom + mZoomInc a), true)].
Proof.
  intros zoom Hret Hidle Hz Hrun.
  apply bind_inv in Hrun.
  destruct Hrun as (r1 & m1 & e1 & e2 & Hset & Hadv & ->).
  pose proof (setParametersZoom_writes _ _ _ _ _ _ Hset) as (_ & Hn1 & _).
  apply setParametersZoom_inv in Hset. cbv zeta in Hset. fold zoom in Hset.
  destruct Hset as (_ & [(_ & _ & [Hact|Hout])|(_ & _ & Hacc)]);
    [contradiction|contradiction|].
  destruct Hacc as (r0 & m0 & p & v & s & _ & _ & _ & Ha1).
  pose proof (advanceZoom_session _ _ _ _ _ Hadv) as (Hidx & _).
  pose proof (advanceZoom_events _ _ _ _ _ Hadv) as (Hn2 & _).
  cbv zeta in Hn2.
  unfold tickNotifications in Hn2. unfold advancedIndices in Hidx, Hn2.
  rewrite Ha1 in Hidx, Hn2.
  replace (mReturnZoomStatus (zoomApplied p v s _)) with true in Hidx, Hn2
    by (destruct a; cbn in *; congruence).
  replace (mCurrentZoomIdx (zoomApplied p v s _)) with zoom in Hidx, Hn2
    by (destruct a; reflexivity).
  replace (mZoomInc (zoomApplied p v s _)) with (mZoomInc a) in Hidx, Hn2
    by (destruct a; reflexivity).
  cbn [fst] in Hn2. injection Hidx as Hc Ht.
  rewrite notifications_app, Hn1, Hn2. repeat split; assumption.
Qed.

(** *** The indices stay in range *)

Lemma runCall_keeps_max (c : Call) (m m' : Machine)
    (ret : status_t) (evs : list Event) :
  runCall c m = Some (ret, m', evs) ->
  mMaxZoomSupported (adapter m') = mMaxZoomSupported (adapter m).
Proof.
  apply (preserves_runCall
           (fun m0 m1 _ =>
              mMaxZoomSupported (adapter m1) = mMaxZoomSupported (adapter m0))).
  - reflexivity.
  - intros; congruence.
  - intros m0 m1 (_ & _ & H & _). assumption.
  - reflexivity.
  - intros index m0 r m1 e H. apply doZoom_effects in H.
    destruct H as ((p & v & s & ->) & _). destruct (adapter m0); reflexivity.
Qed.

Lemma advanceZoom_coherent (br : Bridge) (m m' : Machine)
    (ret : status_t) (evs : list Event) :
  sessionCoherent (adapter m) ->
  is_int32 (mMaxZoomSupported (adapter m)) ->
  advanceZoom br m = Some (ret, m', evs) ->
  sessionCoherent (adapter m').
Proof.
  intros ((Hc & Ht) & Hp) Hint Hadv.
  pose proof (runCall_keeps_max (AdvanceZoom br) _ _ _ _ Hadv) as Hmx.
  apply advanceZoom_session in Hadv. destruct Hadv as (Hidx & Hrz & _).
  unfold sessionCoherent, indicesInRange. rewrite Hmx, Hrz.
  split; [|intros; discriminate].
  unfold advancedIndices in Hidx. unfold is_int32 in Hint.
  destruct (mReturnZoomStatus (adapter m)).
  - destruct (Hp eq_refl) as (Hne & Hinc). rewrite Hinc in Hidx.
    rewrite int32_small in Hidx
      by (unfold is_int32;
          destruct (mCurrentZoomIdx (adapter m) <? mTargetZoomIdx (adapter m))
            eqn:L; [apply Z.ltb_lt in L|apply Z.ltb_ge in L]; lia).
    injection Hidx as -> ->.
    destruct (mCurrentZoomIdx (adapter m) <? mTargetZoomIdx (adapter m))
      eqn:L; [apply Z.ltb_lt in L|apply Z.ltb_ge in L]; lia.
  - destruct (mCurrentZoomIdx (adapter m) =? mTargetZoomIdx (adapter m)) eqn:E.
    + injection Hidx as -> ->. split; assumption.
    + apply Z.eqb_neq in E.
      destruct (negb (Z.land ZOOM_ACTIVE (getState br) =? 0)).
      * rewrite int32_small in Hidx
          by (unfold is_int32;
              destruct (mCurrentZoomIdx (adapter m) <? mTargetZoomIdx (adapter m))
                eqn:L; [apply Z.ltb_lt in L|apply Z.ltb_ge in L]; lia).
        injection Hidx as -> ->.
        destruct (mCurrentZoomIdx (adapter m) <? mTargetZoomIdx (adapter m))
          eqn:L; [apply Z.ltb_lt in L|apply Z.ltb_ge in L]; lia.
      * injection Hidx as -> ->. split; assumption.
Qed.

Lemma startSmoothZoom_inv (targetIdx : Z) (a : Adapter) (n : nat)
    (ret : status_t) (m' : Machine) (evs : list Event) :
  startSmoothZoom targetIdx (mkMachine a n) = Some (ret, m', evs) ->
  evs = []
  /\ ((0 <= targetIdx < mMaxZoomSupported a
       /\ ret = NO_ERROR
       /\ m' = mkMachine
                 (set_mReturnZoomStatus false
                    (set_mZoomParameterIdx (mCurrentZoomIdx a)
                       (set_mTargetZoomIdx targetIdx a))) n)
      \/ (~ 0 <= targetIdx < mMaxZoomSupported a
          /\ ret = - EINVAL /\ m' = mkMachine a n)).
Proof.
  unfold startSmoothZoom, bind, read, assign, pure. cbn.
  destruct ((targetIdx >=? 0) && (targetIdx <? mMaxZoomSupported a)) eqn:C;
    cbn; intros H; injection H as <- <- <-; (split; [reflexivity|]).
  - apply andb_true_iff in C. rewrite Z.geb_leb, Z.leb_le, Z.ltb_lt in C.
    left. repeat split; lia.
  - apply andb_false_iff in C. rewrite Z.geb_leb, Z.leb_gt, Z.ltb_ge in C.
    right. repeat split. lia.
Qed.

Lemma stopSmoothZoom_result (a : Adapter) (n : nat) :
  stopSmoothZoom (mkMachine a n)
  = Some (NO_ERROR,
          mkMachine
            (if mCurrentZoomIdx a =? mTargetZoomIdx a then a
             else set_mReturnZoomStatus true
                    (set_mZoomInc
                       (if mCurrentZoomIdx a <? mTargetZoomIdx a then 1 else -1)
                       a))
            n,
          []).
Proof.
  destruct (Z.eqb_spec (mCurrentZoomIdx a) (mTargetZoomIdx a)) as [E|E].
  - unfold stopSmoothZoom, bind, read, pure. cbn [adapter].
    rewrite E, Z.eqb_refl. reflexivity.
  - apply stopSmoothZoom_pending. assumption.
Qed.

Lemma runCall_coherent (c : Call) (m m' : Machine)
    (ret : status_t) (evs : list Event) :
  smoothZoomCall c ->
  sessionCoherent (adapter m) ->
  is_int32 (mMaxZoomSupported (adapter m)) ->
  runCall c m = Some (ret, m', evs) ->
  sessionCoherent (adapter m')
  /\ mMaxZoomSupported (adapter m') = mMaxZoomSupported (adapter m).
Proof.
  intros Hc Hcoh Hint Hrun.
  split; [|exact (runCall_keeps_max c m m' ret evs Hrun)].
  destruct c as [params state|br|targetIdx|]; cbn [runCall] in Hrun.
  - contradiction.
  - exact (advanceZoom_coherent br m m' ret evs Hcoh Hint Hrun).
  - destruct m as [a n]. apply startSmoothZoom_inv in Hrun.
    destruct Hrun as (_ & [(Hin & _ & ->)|(_ & _ & ->)]); [|assumption].
    destruct Hcoh as ((Hcur & _) & _). cbn [adapter].
    unfold sessionCoherent, indicesInRange.
    destruct a; cbn in *. split; [split; assumption|intros; discriminate].
  - destruct m as [a n]. rewrite stopSmoothZoom_result in Hrun.
    injection Hrun as _ <- _. cbn [adapter] in *.
    destruct (Z.eqb_spec (mCurrentZoomIdx a) (mTargetZoomIdx a)) as [E|E];
      [assumption|].
    destruct Hcoh as (Hin & _).
    unfold sessionCoherent, indicesInRange in *.
    destruct a; cbn in *. split; [assumption|]. intros _. split; [assumption|].
    reflexivity.
Qed.

(** X14. During smooth zoom the indices never leave the supported range.
    From a session with both indices in [[0, mMaxZoomSupported)] (and, if a
    stop step is pending, pending away from the target with the increment
    pointing at it), any sequence of [advanceZoom], [startSmoothZoom] and
    [stopSmoothZoom] calls, with any targets, adapter states and answers
    of the component and the state machine, leaves both indices in range
    and the session in that same shape. *)
Theorem smooth_zoom_keeps_indices_in_range
    (calls : list Call) (m m' : Machine) (rets : list status_t)
    (evs : list Event) :
  Forall smoothZoomCall calls ->
  sessionCoherent (adapter m) ->
  is_int32 (mMaxZoomSupported (adapter m)) ->
  runCalls calls m = Some (rets, m', evs) ->
  sessionCoherent (adapter m').
Proof.
  revert m m' rets evs.
  induction calls as [|c calls IH]; intros m m' rets evs Hall Hcoh Hint.
  - cbn. intros H. injection H as _ <- _. assumption.
  - inversion Hall as [|? ? Hc Hrest]; subst.
    cbn [runCalls]. intros Hrun.
    apply bind_inv in Hrun.
    destruct Hrun as (r & m1 & e1 & e2 & Hcall & Hnext & _).
    apply bind_inv in Hnext.
    destruct Hnext as (rs & m2 & e3 & e4 & Hcalls & Hpure & _).
    injection Hpure as _ <- _.
    destruct (runCall_coherent c m m1 r e1 Hc Hcoh Hint Hcall) as (Hcoh1 & Hmx).
    apply (IH m1 m2 rs e3 Hrest Hcoh1); [rewrite Hmx; assumption|assumption].
Qed.

(** *** The smooth zoom commands *)

(** X15. [stopSmoothZoom] always returns [NO_ERROR], writes nothing,
    notifies nobody and moves neither index, and calling it twice in a row
    is the same as calling it once. *)
Theorem stopSmoothZoom_idempotent (m : Machine) :
  (exists m1,
     stopSmoothZoom m = Some (NO_ERROR, m1, [])
     /\ mCurrentZoomIdx (adapter m1) = mCurrentZoomIdx (adapter m)
     /\ mTargetZoomIdx (adapter m1) = mTargetZoomIdx (adapter m))
  /\ (stopSmoothZoom ;; stopSmoothZoom) m = stopSmoothZoom m.
Proof.
  destruct m as [a n]. cbn [adapter].
  split.
  - rewrite stopSmoothZoom_result. eexists. split; [reflexivity|].
    cbn [adapter].
    destruct (mCurrentZoomIdx a =? mTargetZoomIdx a); destruct a; split; reflexivity.
  - unfold bind at 1. rewrite stopSmoothZoom_result, stopSmoothZoom_result.
    cbn [app]. do 3 f_equal.
    destruct (Z.eqb_spec (mCurrentZoomIdx a) (mTargetZoomIdx a)) as [E|E].
    + rewrite E, Z.eqb_refl. reflexivity.
    + destruct a; cbn in *. apply Z.eqb_neq in E. rewrite E. reflexivity.
Qed.

(** X16. [startSmoothZoom] checks its target: for a target in
    [[0, mMaxZoomSupported)] it returns [NO_ERROR], sets the target,
    records the current index in [mZoomParameterIdx] and clears a pending
    stop step, so that a stop followed by a start leaves no stop step
    behind; for any other target it returns [-EINVAL] and changes nothing,
    so that a stop step stays pending. It never moves the current index,
    never writes and never notifies. *)
Theorem startSmoothZoom_checks_target
    (targetIdx : Z) (m m' : Machine) (ret : status_t) (evs : list Event) :
  startSmoothZoom targetIdx m = Some (ret, m', evs) ->
  evs = []
  /\ mCurrentZoomIdx (adapter m') = mCurrentZoomIdx (adapter m)
  /\ ((0 <= targetIdx < mMaxZoomSupported (adapter m)
       /\ ret = NO_ERROR
       /\ mTargetZoomIdx (adapter m') = targetIdx
       /\ mZoomParameterIdx (adapter m') = mCurrentZoomIdx (adapter m)
       /\ mReturnZoomStatus (adapter m') = false
       /\ exists m2,
            (stopSmoothZoom ;; startSmoothZoom targetIdx) m
            = Some (NO_ERROR, m2, [])
            /\ mReturnZoomStatus (adapter m2) = false)
      \/ (~ 0 <= targetIdx < mMaxZoomSupported (adapter m)
          /\ ret = - EINVAL /\ m' = m)).
Proof.
  destruct m as [a n]. cbn [adapter]. intros H.
  apply startSmoothZoom_inv in H.
  destruct H as (-> & [(Hin & -> & ->)|(Hout & -> & ->)]).
  - split; [reflexivity|]. split; [destruct a; reflexivity|]. left.
    split; [assumption|]. split; [reflexivity|].
    split; [destruct a; reflexivity|].
    split; [destruct a; reflexivity|].
    split; [destruct a; reflexivity|].
    unfold bind. rewrite stopSmoothZoom_result.
    unfold startSmoothZoom, bind, read, assign, pure. cbn [adapter omxCalls].
    assert (C : forall a', mMaxZoomSupported a' = mMaxZoomSupported a ->
                (targetIdx >=? 0) && (targetIdx <? mMaxZoomSupported a') = true).
    { intros a' ->. apply andb_true_iff.
      rewrite Z.geb_leb, Z.leb_le, Z.ltb_lt. lia. }
    rewrite C by (destruct (mCurrentZoomIdx a =? mTargetZoomIdx a);
                  destruct a; reflexivity).
    cbn. eexists. split; reflexivity.
  - split; [reflexivity|]. split; [reflexivity|]. right. repeat split.
    assumption.
Qed.

(** *** Smooth zoom against any component *)

Lemma runTicks_smooth_any_component (brs : list Bridge) :
  forall (a : Adapter) (n : nat) (dir : Z),
    dir = 1 \/ dir = -1 ->
    mTargetZoomIdx a - mCurrentZoomIdx a = dir * Z.of_nat (List.length brs) ->
    zoomRangeInTable a ->
    mReturnZoomStatus a = false ->
    is_int32 (mCurrentZoomIdx a) ->
    is_int32 (mTargetZoomIdx a) ->
    Forall (fun br => Z.land ZOOM_ACTIVE (getState br) <> 0) brs ->
    exists ticks m2,
      runTicks brs (mkMachine a n) = Some (ticks, m2)
      /\ mCurrentZoomIdx (adapter m2) = mTargetZoomIdx a
      /\ map (fun t => (tickIndex t, notifications (tickEvents t))) ticks
         = map (fun k => fst (smoothTick (mCurrentZoomIdx a) dir
                                (List.length brs) k))
             (seq 1 (List.length brs)).
Proof.
  induction brs as [|br brs IH]; intros a n dir Hdir Hdist Hmax Hret Hc Ht Hact.
  - cbn in *. exists [], (mkMachine a n). cbn. repeat split. lia.
  - inversion Hact as [|? ? Hbr Hrest]; subst.
    cbn [List.length] in Hdist. rewrite Nat2Z.inj_succ in Hdist.
    assert (Hne : mCurrentZoomIdx a <> mTargetZoomIdx a) by lia.
    assert (Hd : dir = (if mCurrentZoomIdx a <? mTargetZoomIdx a then 1 else -1)).
    { destruct (mCurrentZoomIdx a <? mTargetZoomIdx a) eqn:L;
        [apply Z.ltb_lt in L|apply Z.ltb_ge in L]; lia. }
    destruct (advanceZoom_smooth br a n dir Hmax Hret Hbr Hc Ht Hne Hd)
      as (r & a' & n' & evs & Hadv & Hcur & Htg & Hrz & Hmx & _ & Hnot & _).
    assert (H1 : mTargetZoomIdx a' - mCurrentZoomIdx a'
                 = dir * Z.of_nat (List.length brs))
      by (rewrite Hcur, Htg; lia).
    assert (H2 : zoomRangeInTable a')
      by (unfold zoomRangeInTable in *; rewrite Hmx; assumption).
    assert (H3 : is_int32 (mCurrentZoomIdx a'))
      by (rewrite Hcur; unfold is_int32 in *; lia).
    assert (H4 : is_int32 (mTargetZoomIdx a')) by (rewrite Htg; assumption).
    destruct (IH a' n' dir Hdir H1 H2 Hrz H3 H4 Hrest)
      as (ticks & m2 & Hrun & Hend & Hobs).
    cbn [runTicks]. rewrite Hadv, Hrun.
    exists (mkTick r (mCurrentZoomIdx (adapter (mkMachine a' n'))) evs :: ticks), m2.
    split; [reflexivity|]. split; [rewrite Hend; assumption|].
    cbn [map List.length seq]. rewrite Hobs.
    rewrite <- (seq_shift (List.length brs) 1), map_map.
    f_equal.
    + unfold smoothTick. cbn [tickIndex tickEvents adapter fst].
      rewrite Hnot, Hcur. rewrite Z.mul_1_r.
      destruct brs as [|br' brs'].
      * cbn [List.length] in *.
        assert (E : mCurrentZoomIdx a + dir = mTargetZoomIdx a) by lia.
        apply Z.eqb_eq in E. rewrite E. reflexivity.
      * cbn [List.length] in *.
        assert (E : mCurrentZoomIdx a + dir <> mTargetZoomIdx a) by lia.
        apply Z.eqb_neq in E. rewrite E. reflexivity.
    + apply map_ext. intros k. rewrite smoothTick_shift, Hcur. reflexivity.
Qed.

(** X17. A component that rejects writes, or is invalid, cannot stall a
    smooth zoom. With a pending stop step cleared, [ZOOM_ACTIVE] set in
    every frame and [mMaxZoomSupported] within the table,
    [|target - current|] ticks move the index one step per tick to the
    target and notify each index once, final at the target only, whatever
    the component answers and whatever its state. *)
Theorem smooth_zoom_never_stalls
    (a : Adapter) (n : nat) (brs : list Bridge) :
  let current := mCurrentZoomIdx a in
  let target := mTargetZoomIdx a in
  let dir := if current <? target then 1 else -1 in
  let total := Z.abs_nat (target - current) in
  zoomRangeInTable a ->
  mReturnZoomStatus a = false ->
  is_int32 current ->
  is_int32 target ->
  Forall (fun br => Z.land ZOOM_ACTIVE (getState br) <> 0) brs ->
  List.length brs = total ->
  exists ticks m2,
    runTicks brs (mkMachine a n) = Some (ticks, m2)
    /\ mCurrentZoomIdx (adapter m2) = target
    /\ map (fun t => (tickIndex t, notifications (tickEvents t))) ticks
       = map (fun k => (current + dir * Z.of_nat k,
                        [(current + dir * Z.of_nat k, (k =? total)%nat)]))
           (seq 1 total).
Proof.
  intros current target dir total Hmax Hret Hc Ht Hact Hlen.
  assert (Hd : dir = 1 \/ dir = -1)
    by (subst dir; destruct (current <? target); auto).
  assert (Hdist : target - current = dir * Z.of_nat (List.length brs)).
  { rewrite Hlen. subst dir total.
    destruct (current <? target) eqn:L;
      [apply Z.ltb_lt in L|apply Z.ltb_ge in L]; lia. }
  rewrite <- Hlen.
  exact (runTicks_smooth_any_component brs a n dir Hd Hdist Hmax Hret Hc Ht Hact).
Qed.

(** *** The component follows the session *)

Lemma runCall_keeps_component (c : Call) (m m' : Machine)
    (ret : status_t) (evs : list Event) :
  runCall c m = Some (ret, m', evs) ->
  mComponentState (adapter m') = mComponentState (adapter m).
Proof.
  apply (preserves_runCall
           (fun m0 m1 _ =>
              mComponentState (adapter m1) = mComponentState (adapter m0))).
  - reflexivity.
  - intros; congruence.
  - intros m0 m1 (_ & _ & _ & H & _). assumption.
  - reflexivity.
  - intros index m0 r m1 e H. apply doZoom_effects in H.
    destruct H as ((p & v & s & ->) & _). destruct (adapter m0); reflexivity.
Qed.

Lemma advanceZoom_move_previous
    (br : Bridge) (a : Adapter) (n : nat)
    (ret : status_t) (m1 : Machine) (e1 : list Event) :
  zoomRangeInTable a ->
  mComponentState a <> OMX_StateInvalid ->
  (forall k w h, OMX_SetConfig k w h = OMX_ErrorNone) ->
  sessionCoherent a ->
  advanceZoom_move br (mkMachine a n) = Some (ret, m1, e1) ->
  mPreviousZoomIndx (adapter m1)
  = if mReturnZoomStatus a || negb (mCurrentZoomIdx a =? mTargetZoomIdx a)
    then fst (advancedIndices
                (negb (Z.land ZOOM_ACTIVE (getState br) =? 0)) a)
    else mPreviousZoomIndx a.
Proof.
  intros Hmax Hcs Hok ((Hc & Ht) & Hp).
  assert (Hint : mMaxZoomSupported a <= 2147483648)
    by (unfold zoomRangeInTable, ZOOM_STAGES in Hmax; lia).
  destruct a as [cur tgt prev inc par rzs upd upg mx cs cm si pv ps].
  unfold advancedIndices.
  cbn [mReturnZoomStatus mCurrentZoomIdx mTargetZoomIdx mZoomInc
       mPreviousZoomIndx mMaxZoomSupported] in *.
  assert (Hzoom : forall idx a0 n0 r m' e',
    0 <= idx < mx ->
    mMaxZoomSupported a0 = mx -> mComponentState a0 = cs ->
    doZoom idx (mkMachine a0 n0) = Some (r, m', e') ->
    r = NO_ERROR
    /\ exists v s n', m' = mkMachine (zoomApplied idx v s a0) n').
  { intros idx a0 n0 r m' e' Hidx Hmx0 Hcs0 D.
    destruct (doZoom_succeeds idx (mkMachine a0 n0)) as (v & s & n' & e & Hz & _);
      [unfold zoomRangeInTable in *; cbn [adapter]; rewrite Hmx0; exact Hmax
      |cbn [adapter]; rewrite Hcs0; exact Hcs
      |cbn [adapter]; rewrite Hmx0; exact Hidx
      |exact Hok|].
    rewrite Hz in D. injection D as <- <- _. split; [reflexivity|].
    exists v, s, n'. reflexivity. }
  destruct rzs.
  - destruct (Hp eq_refl) as (Hne & Hinc). subst inc.
    rewrite advanceZoom_move_return by reflexivity.
    cbn [mCurrentZoomIdx mZoomInc orb fst].
    assert (Hstep : 0 <= int32 (cur + (if cur <? tgt then 1 else -1)) < mx).
    { rewrite int32_small
        by (unfold is_int32; destruct (cur <? tgt) eqn:L;
            [apply Z.ltb_lt in L|apply Z.ltb_ge in L]; lia).
      destruct (cur <? tgt) eqn:L;
        [apply Z.ltb_lt in L|apply Z.ltb_ge in L]; lia. }
    unfold bind, notifyZoomSubscribers, emit, pure.
    destruct (doZoom _ _) as [[[r m'] e']|] eqn:D; [|discriminate].
    intros H. injection H as _ <- _.
    apply Hzoom in D; [|assumption|reflexivity|reflexivity].
    destruct D as (_ & v & s & n' & ->). reflexivity.
  - clear Hp. cbn [orb].
    unfold advanceZoom_move, bind, read, assign, pure,
      notifyZoomSubscribers, emit.
    cbn -[doZoom int32 Z.add Z.land Z.eqb Z.ltb requestStopSmoothZoom].
    destruct (cur =? tgt) eqn:E;
      cbn -[doZoom int32 Z.add Z.land Z.eqb Z.ltb requestStopSmoothZoom].
    + destruct (negb (Z.land ZOOM_ACTIVE (getState br) =? 0)).
      * match goal with
        | |- context [requestStopSmoothZoom br ?m0] =>
            destruct (requestStopSmoothZoom_events br m0)
              as (r & e & Hr & _); rewrite Hr
        end.
        intros H. injection H as _ <- _. reflexivity.
      * intros H. injection H as _ <- _. reflexivity.
    + apply Z.eqb_neq in E.
      destruct (negb (Z.land ZOOM_ACTIVE (getState br) =? 0)) eqn:Act;
        cbn -[doZoom int32 Z.add Z.land Z.eqb Z.ltb requestStopSmoothZoom].
      * set (dir := if cur <? tgt then 1 else -1).
        assert (Hstep : 0 <= int32 (cur + dir) < mx).
        { subst dir. rewrite int32_small
            by (unfold is_int32; destruct (cur <? tgt) eqn:L;
                [apply Z.ltb_lt in L|apply Z.ltb_ge in L]; lia).
          destruct (cur <? tgt) eqn:L;
            [apply Z.ltb_lt in L|apply Z.ltb_ge in L]; lia. }
        assert (Hinc :
          (if cur <? tgt
           then assign set_mZoomInc 1
           else assign set_mZoomInc (-1)) = assign set_mZoomInc dir)
          by (subst dir; destruct (cur <? tgt); reflexivity).
        unfold assign in Hinc. rewrite Hinc. clear Hinc.
        cbn -[doZoom int32 Z.add Z.land Z.eqb Z.ltb requestStopSmoothZoom].
        destruct (doZoom _ _) as [[[r m'] e']|] eqn:D; [|discriminate].
        apply Hzoom in D; [|assumption|reflexivity|reflexivity].
        destruct D as (-> & v & s & n' & ->).
        cbn -[doZoom int32 Z.add Z.land Z.eqb Z.ltb requestStopSmoothZoom].
        destruct (int32 (cur + dir) =? tgt).
        -- cbn -[doZoom int32 Z.add Z.land Z.ltb requestStopSmoothZoom].
           match goal with
           | |- context [requestStopSmoothZoom br ?m0] =>
               destruct (requestStopSmoothZoom_events br m0)
                 as (r' & e'' & Hr & _); rewrite Hr
           end.
           cbn. intros H. injection H as _ <- _. reflexivity.
        -- cbn. intros H. injection H as _ <- _. reflexivity.
      * destruct (doZoom _ _) as [[[r m'] e']|] eqn:D; [|discriminate].
        apply Hzoom in D; [|assumption|reflexivity|reflexivity].
        destruct D as (_ & v & s & n' & ->).
        cbn. intros H. injection H as _ <- _. reflexivity.
Qed.

Lemma advanceZoom_deferred_idle (a : Adapter) (n : nat) :
  mZoomUpdate a = false ->
  advanceZoom_deferred (mkMachine a n)
  = Some (tt, mkMachine (set_mZoomUpdating false a) n, []).
Proof.
  intros U. unfold advanceZoom_deferred, bind, read, assign, pure.
  cbn -[doZoom]. rewrite U. reflexivity.
Qed.

Lemma advanceZoom_synced (br : Bridge) (m m' : Machine)
    (ret : status_t) (evs : list Event) :
  zoomRangeInTable (adapter m) ->
  mComponentState (adapter m) <> OMX_StateInvalid ->
  (forall k w h, OMX_SetConfig k w h = OMX_ErrorNone) ->
  sessionCoherent (adapter m) ->
  mPreviousZoomIndx (adapter m) = mCurrentZoomIdx (adapter m) ->
  mZoomUpdate (adapter m) = false ->
  advanceZoom br m = Some (ret, m', evs) ->
  mPreviousZoomIndx (adapter m') = mCurrentZoomIdx (adapter m').
Proof.
  destruct m as [a n]. cbn [adapter].
  intros Hmax Hcs Hok Hcoh Hsync Hupd Hadv.
  unfold advanceZoom in Hadv. apply bind_inv in Hadv.
  destruct Hadv as (r & m1 & e1 & e2 & Hmove & Hrest & _).
  apply bind_inv in Hrest.
  destruct Hrest as (u & m2 & e3 & e4 & Hdef & Hpure & _).
  injection Hpure as _ <- _.
  pose proof (advanceZoom_move_previous br a n r m1 e1 Hmax Hcs Hok Hcoh Hmove)
    as Hprev.
  apply advanceZoom_move_inv in Hmove.
  destruct Hmove as (i & p & v & s & Ha1).
  destruct m1 as [a1 n1]. cbn [adapter] in *.
  assert (Hupd1 : mZoomUpdate a1 = false)
    by (rewrite Ha1; destruct a; exact Hupd).
  rewrite (advanceZoom_deferred_idle a1 n1 Hupd1) in Hdef.
  injection Hdef as _ <- _. cbn [adapter].
  replace (mPreviousZoomIndx (set_mZoomUpdating false a1))
    with (mPreviousZoomIndx a1) by (destruct a1; reflexivity).
  replace (mCurrentZoomIdx (set_mZoomUpdating false a1))
    with (mCurrentZoomIdx a1) by (destruct a1; reflexivity).
  rewrite Hprev.
  assert (Hcur1 : mCurrentZoomIdx a1
                  = fst (advancedIndices
                           (negb (Z.land ZOOM_ACTIVE (getState br) =? 0)) a))
    by (rewrite Ha1; destruct a; reflexivity).
  rewrite Hcur1.
  destruct (mReturnZoomStatus a) eqn:Rz; cbn [orb]; [reflexivity|].
  destruct (mCurrentZoomIdx a =? mTargetZoomIdx a) eqn:E; cbn [negb];
    [|reflexivity].
  unfold advancedIndices. rewrite Rz, E. cbn [fst]. assumption.
Qed.

(** A smooth-zoom call sequence keeps the previously applied index equal
    to the current index, with a valid component that accepts every
    write. *)
Lemma runCalls_synced
    (calls : list Call) (m m' : Machine) (rets : list status_t)
    (evs : list Event) :
  Forall smoothZoomCall calls ->
  zoomRangeInTable (adapter m) ->
  mComponentState (adapter m) <> OMX_StateInvalid ->
  (forall k w h, OMX_SetConfig k w h = OMX_ErrorNone) ->
  sessionCoherent (adapter m) ->
  mPreviousZoomIndx (adapter m) = mCurrentZoomIdx (adapter m) ->
  mZoomUpdate (adapter m) = false ->
  runCalls calls m = Some (rets, m', evs) ->
  mPreviousZoomIndx (adapter m') = mCurrentZoomIdx (adapter m').
Proof.
  intros Hall Hmax Hcs Hok. revert m m' rets evs Hmax Hcs.
  induction Hall as [|c calls Hc Hrest IH];
    intros m m' rets evs Hmax Hcs Hcoh Hsync Hupd.
  - cbn. intros H. injection H as _ <- _. assumption.
  - cbn [runCalls]. intros Hrun.
    apply bind_inv in Hrun.
    destruct Hrun as (r & m1 & e1 & e2 & Hcall & Hnext & _).
    apply bind_inv in Hnext.
    destruct Hnext as (rs & m2 & e3 & e4 & Hcalls & Hpure & _).
    injection Hpure as _ <- _.
    assert (Hint : is_int32 (mMaxZoomSupported (adapter m)))
      by (unfold is_int32, zoomRangeInTable, ZOOM_STAGES in *; lia).
    destruct (runCall_coherent c m m1 r e1 Hc Hcoh Hint Hcall) as (Hcoh1 & Hmx).
    pose proof (runCall_keeps_component c m m1 r e1 Hcall) as Hcs1.
    apply (IH m1 m2 rs e3); try assumption.
    + unfold zoomRangeInTable in *. rewrite Hmx. assumption.
    + rewrite Hcs1. assumption.
    + destruct c as [params state|br|targetIdx|]; cbn [runCall] in Hcall.
      * contradiction.
      * exact (advanceZoom_synced br m m1 r e1 Hmax Hcs Hok Hcoh Hsync Hupd Hcall).
      * destruct m as [a n]. apply startSmoothZoom_inv in Hcall.
        destruct Hcall as (_ & [(_ & _ & ->)|(_ & _ & ->)]); [|assumption].
        cbn [adapter] in *. destruct a; exact Hsync.
      * destruct m as [a n]. rewrite stopSmoothZoom_result in Hcall.
        injection Hcall as _ <- _. cbn [adapter] in *.
        destruct (mCurrentZoomIdx a =? mTargetZoomIdx a); [assumption|].
        destruct a; exact Hsync.
    + destruct c as [params state|br|targetIdx|]; cbn [runCall] in Hcall.
      * contradiction.
      * apply advanceZoom_session in Hcall. tauto.
      * destruct m as [a n]. apply startSmoothZoom_inv in Hcall.
        destruct Hcall as (_ & [(_ & _ & ->)|(_ & _ & ->)]); [|assumption].
        cbn [adapter] in *. destruct a; exact Hupd.
      * destruct m as [a n]. rewrite stopSmoothZoom_result in Hcall.
        injection Hcall as _ <- _. cbn [adapter] in *.
        destruct (mCurrentZoomIdx a =? mTargetZoomIdx a); [assumption|].
        destruct a; exact Hupd.
Qed.

(** X18. With a valid component that accepts every write, the component
    follows the session through a smooth zoom. Take a session with
    [mMaxZoomSupported] within the table and both indices in
    [[0, mMaxZoomSupported)], in which a stop step is pending only away
    from the target, with the increment pointing at it, whose previously
    applied index is the current index and which has no zoom deferred.
    Any sequence of [advanceZoom], [startSmoothZoom] and [stopSmoothZoom]
    calls then runs to its end, and ends with the previously applied
    index equal to the current index again. *)
Theorem component_follows_smooth_zoom (calls : list Call) (m : Machine) :
  Forall smoothZoomCall calls ->
  zoomRangeInTable (adapter m) ->
  mComponentState (adapter m) <> OMX_StateInvalid ->
  (forall k w h, OMX_SetConfig k w h = OMX_ErrorNone) ->
  indicesInRange (adapter m) ->
  (mReturnZoomStatus (adapter m) = true ->
   mCurrentZoomIdx (adapter m) <> mTargetZoomIdx (adapter m)
   /\ mZoomInc (adapter m)
      = if mCurrentZoomIdx (adapter m) <? mTargetZoomIdx (adapter m)
        then 1 else -1) ->
  mPreviousZoomIndx (adapter m) = mCurrentZoomIdx (adapter m) ->
  mZoomUpdate (adapter m) = false ->
  exists rets m' evs,
    runCalls calls m = Some (rets, m', evs)
    /\ mPreviousZoomIndx (adapter m') = mCurrentZoomIdx (adapter m').
Proof.
  intros Hall Hmax Hcs Hok Hin Hpending Hsync Hupd.
  destruct (runs_runCalls calls m Hmax) as (rets & m' & evs & Hrun & _).
  exists rets, m', evs. split; [exact Hrun|].
  exact (runCalls_synced calls m m' rets evs Hall Hmax Hcs Hok
           (conj Hin Hpending) Hsync Hupd Hrun).
Qed.

(** *** A rejected write during a tick *)

Lemma doZoom_rejected (index : Z) (a : Adapter) (n : nat)
    (ret : status_t) (m' : Machine) (evs : list Event) :
  zoomRangeInTable a ->
  mComponentState a <> OMX_StateInvalid ->
  (forall k w h, OMX_SetConfig k w h <> OMX_ErrorNone) ->
  0 <= index < mMaxZoomSupported a ->
  mPreviousZoomIndx a <> index ->
  doZoom index (mkMachine a n) = Some (ret, m', evs) ->
  ret = -1 /\ notifications evs = [] /\ stopRequests evs = 0%nat
  /\ List.length (hardwareWrites evs) = 1%nat.
Proof.
  intros Hmax Hcs Hrej Hidx Hprev H.
  assert (G : guardFires a index = false).
  { unfold guardFires. apply Z.eqb_neq in Hprev. rewrite Hprev.
    destruct CAMERAHAL_TUNA; reflexivity. }
  destruct (doZoom_writes index a n Hmax Hcs Hidx G) as (scale & _ & _ & Hw).
  rewrite Hw in H.
  assert (E : (OMX_ErrorNone =? OMX_SetConfig n scale scale) = false)
    by (apply Z.eqb_neq; intros E; apply (Hrej n scale scale); congruence).
  rewrite E in H. injection H as <- _ <-. repeat split.
Qed.

Lemma advanceZoom_move_rejected
    (br : Bridge) (a : Adapter) (n : nat)
    (ret : status_t) (m1 : Machine) (e1 : list Event) :
  zoomRangeInTable a ->
  mComponentState a <> OMX_StateInvalid ->
  (forall k w h, OMX_SetConfig k w h <> OMX_ErrorNone) ->
  sessionCoherent a ->
  mPreviousZoomIndx a = mCurrentZoomIdx a ->
  mReturnZoomStatus a = true \/ mCurrentZoomIdx a <> mTargetZoomIdx a ->
  advanceZoom_move br (mkMachine a n) = Some (ret, m1, e1) ->
  ret = -1 /\ stopRequests e1 = 0%nat
  /\ List.length (hardwareWrites e1) = 1%nat.
Proof.
  intros Hmax Hcs Hrej ((Hc & Ht) & Hp) Hsync Hmoved.
  assert (Hint : mMaxZoomSupported a <= 2147483648)
    by (unfold zoomRangeInTable, ZOOM_STAGES in Hmax; lia).
  destruct a as [cur tgt prev inc par rzs upd upg mx cs cm si pv ps].
  cbn [mReturnZoomStatus mCurrentZoomIdx mTargetZoomIdx mZoomInc
       mPreviousZoomIndx mMaxZoomSupported] in *.
  subst prev.
  assert (Hzoom : forall idx a0 n0 r m' e',
    0 <= idx < mx -> idx <> cur ->
    mMaxZoomSupported a0 = mx -> mComponentState a0 = cs ->
    mPreviousZoomIndx a0 = cur ->
    doZoom idx (mkMachine a0 n0) = Some (r, m', e') ->
    r = -1 /\ notifications e' = [] /\ stopRequests e' = 0%nat
    /\ List.length (hardwareWrites e') = 1%nat).
  { intros idx a0 n0 r m' e' Hidx Hne Hmx0 Hcs0 Hp0 D.
    apply (doZoom_rejected idx a0 n0 r m' e'); try assumption.
    - unfold zoomRangeInTable in *. rewrite Hmx0. exact Hmax.
    - rewrite Hcs0. exact Hcs.
    - rewrite Hmx0. exact Hidx.
    - rewrite Hp0. congruence. }
  assert (Hstep : cur <> tgt ->
    0 <= int32 (cur + (if cur <? tgt then 1 else -1)) < mx
    /\ int32 (cur + (if cur <? tgt then 1 else -1)) <> cur).
  { intros Hne. rewrite int32_small
      by (unfold is_int32; destruct (cur <? tgt) eqn:L;
          [apply Z.ltb_lt in L|apply Z.ltb_ge in L]; lia).
    destruct (cur <? tgt) eqn:L;
      [apply Z.ltb_lt in L|apply Z.ltb_ge in L]; lia. }
  destruct rzs.
  - destruct (Hp eq_refl) as (Hne & Hinc). subst inc.
    destruct (Hstep Hne) as (Hin & Hnc).
    rewrite advanceZoom_move_return by reflexivity.
    cbn [mCurrentZoomIdx mZoomInc].
    unfold bind, notifyZoomSubscribers, emit, pure.
    destruct (doZoom _ _) as [[[r m'] e']|] eqn:D; [|discriminate].
    intros H. injection H as <- _ <-.
    apply Hzoom in D; try assumption; try reflexivity.
    destruct D as (-> & _ & Hs & Hw).
    rewrite stopRequests_app, hardwareWrites_app, length_app, Hs, Hw.
    repeat split.
  - destruct Hmoved as [Hm|Hne]; [discriminate|].
    destruct (Hstep Hne) as (Hin & Hnc).
    unfold advanceZoom_move, bind, read, assign, pure,
      notifyZoomSubscribers, emit.
    cbn -[doZoom int32 Z.add Z.land Z.eqb Z.ltb requestStopSmoothZoom].
    apply Z.eqb_neq in Hne. rewrite Hne. apply Z.eqb_neq in Hne.
    cbn -[doZoom int32 Z.add Z.land Z.eqb Z.ltb requestStopSmoothZoom].
    destruct (negb (Z.land ZOOM_ACTIVE (getState br) =? 0)) eqn:Act;
      cbn -[doZoom int32 Z.add Z.land Z.eqb Z.ltb requestStopSmoothZoom].
    + set (dir := if cur <? tgt then 1 else -1) in *.
      assert (Hinc :
        (if cur <? tgt
         then assign set_mZoomInc 1
         else assign set_mZoomInc (-1)) = assign set_mZoomInc dir)
        by (subst dir; destruct (cur <? tgt); reflexivity).
      unfold assign in Hinc. rewrite Hinc. clear Hinc.
      cbn -[doZoom int32 Z.add Z.land Z.eqb Z.ltb requestStopSmoothZoom].
      destruct (doZoom _ _) as [[[r m'] e']|] eqn:D; [|discriminate].
      apply Hzoom in D; try assumption; try reflexivity.
      destruct D as (-> & _ & Hs & Hw).
      cbn -[doZoom int32 Z.add Z.land Z.ltb requestStopSmoothZoom].
      destruct (int32 (cur + dir) =? tgt);
        cbn; intros H; injection H as <- _ <-;
        rewrite ?app_nil_r, ?stopRequests_app, ?hardwareWrites_app,
          ?length_app, Hs, Hw; repeat split.
    + destruct (doZoom _ _) as [[[r m'] e']|] eqn:D; [|discriminate].
      apply Hzoom in D; try assumption; try reflexivity; try lia.
      destruct D as (-> & _ & Hs & Hw).
      cbn. intros H. injection H as <- _ <-.
      rewrite ?app_nil_r, Hs, Hw. repeat split.
Qed.

(** A tick that moves the index against a component that rejects every
    write. *)
Lemma advanceZoom_rejected_tick
    (br : Bridge) (a : Adapter) (n : nat)
    (ret : status_t) (m' : Machine) (evs : list Event) :
  zoomRangeInTable a ->
  mComponentState a <> OMX_StateInvalid ->
  (forall k w h, OMX_SetConfig k w h <> OMX_ErrorNone) ->
  sessionCoherent a ->
  mPreviousZoomIndx a = mCurrentZoomIdx a ->
  mReturnZoomStatus a = true \/ mCurrentZoomIdx a <> mTargetZoomIdx a ->
  advanceZoom br (mkMachine a n) = Some (ret, m', evs) ->
  ret = -1
  /\ stopRequests evs = 0%nat
  /\ mCurrentZoomIdx (adapter m')
     = fst (advancedIndices (negb (Z.land ZOOM_ACTIVE (getState br) =? 0)) a)
  /\ mCurrentZoomIdx (adapter m') <> mCurrentZoomIdx a.
Proof.
  intros Hmax Hcs Hrej Hcoh Hsync Hmoved Hadv.
  pose proof (advanceZoom_session _ _ _ _ _ Hadv) as (Hidx & _).
  cbn [adapter] in Hidx.
  unfold advanceZoom in Hadv. apply bind_inv in Hadv.
  destruct Hadv as (r & m1 & e1 & e2 & Hmove & Hrest & ->).
  apply bind_inv in Hrest.
  destruct Hrest as (u & m2 & e3 & e4 & Hdef & Hpure & ->).
  injection Hpure as <- <- <-.
  apply (advanceZoom_move_rejected br a n r m1 e1 Hmax Hcs Hrej Hcoh Hsync Hmoved)
    in Hmove.
  destruct Hmove as (-> & Hs1 & _).
  destruct m1 as [a1 n1]. apply advanceZoom_deferred_inv in Hdef.
  destruct Hdef as (_ & _ & Hs3).
  rewrite app_nil_r, stopRequests_app, Hs1, Hs3.
  split; [reflexivity|]. split; [reflexivity|].
  assert (Hc : mCurrentZoomIdx (adapter m2)
               = fst (advancedIndices
                        (negb (Z.land ZOOM_ACTIVE (getState br) =? 0)) a))
    by (rewrite <- Hidx; reflexivity).
  split; [assumption|]. rewrite Hc.
  destruct Hcoh as ((Hcr & Htr) & Hp).
  unfold zoomRangeInTable, ZOOM_STAGES in Hmax.
  unfold advancedIndices.
  destruct (mReturnZoomStatus a).
  - destruct (Hp eq_refl) as (Hne & ->). cbn [fst].
    rewrite int32_small
      by (unfold is_int32; destruct (mCurrentZoomIdx a <? mTargetZoomIdx a);
          lia).
    destruct (mCurrentZoomIdx a <? mTargetZoomIdx a); lia.
  - destruct Hmoved as [Hm|Hne]; [discriminate|].
    apply Z.eqb_neq in Hne. rewrite Hne. apply Z.eqb_neq in Hne.
    destruct (negb (Z.land ZOOM_ACTIVE (getState br) =? 0)); cbn [fst].
    + rewrite int32_small
        by (unfold is_int32; destruct (mCurrentZoomIdx a <? mTargetZoomIdx a);
            lia).
      destruct (mCurrentZoomIdx a <? mTargetZoomIdx a); lia.
    + congruence.
Qed.

(** X19. A rejected write is reported by the tick that made it. Take a
    valid component that rejects every write and a session with
    [mMaxZoomSupported] within the table and both indices in
    [[0, mMaxZoomSupported)], in which a stop step is pending only away
    from the target, with the increment pointing at it, and whose
    previously applied index is the current index. A tick that moves the
    index (a pending stop step, a step of a smooth zoom, or a jump to the
    target) then returns [-1] and does not ask to leave smooth zoom, even
    when the step has reached the target; the index has moved all the
    same. *)
Theorem advanceZoom_reports_rejected_write
    (br : Bridge) (a : Adapter) (n : nat) :
  zoomRangeInTable a ->
  mComponentState a <> OMX_StateInvalid ->
  (forall k w h, OMX_SetConfig k w h <> OMX_ErrorNone) ->
  indicesInRange a ->
  (mReturnZoomStatus a = true ->
   mCurrentZoomIdx a <> mTargetZoomIdx a
   /\ mZoomInc a = if mCurrentZoomIdx a <? mTargetZoomIdx a then 1 else -1) ->
  mPreviousZoomIndx a = mCurrentZoomIdx a ->
  mReturnZoomStatus a = true \/ mCurrentZoomIdx a <> mTargetZoomIdx a ->
  exists ret m' evs,
    advanceZoom br (mkMachine a n) = Some (ret, m', evs)
    /\ ret = -1
    /\ stopRequests evs = 0%nat
    /\ mCurrentZoomIdx (adapter m')
       = fst (advancedIndices
                (negb (Z.land ZOOM_ACTIVE (getState br) =? 0)) a)
    /\ mCurrentZoomIdx (adapter m') <> mCurrentZoomIdx a.
Proof.
  intros Hmax Hcs Hrej Hin Hpending Hsync Hmoved.
  destruct (runs_runCall (AdvanceZoom br) (mkMachine a n) Hmax)
    as (ret & m' & evs & Hrun & _).
  cbn [runCall] in Hrun.
  exists ret, m', evs. split; [exact Hrun|].
  exact (advanceZoom_rejected_tick br a n ret m' evs Hmax Hcs Hrej
           (conj Hin Hpending) Hsync Hmoved Hrun).
Qed.

End OMXZoom.

(** ** The theorems at concrete sessions *)

(** Immediate zoom to index 2 with nothing in flight: written at once. *)
Example immediate_zoom_is_written :
  setParametersZoom false zoomActiveBit componentAccepts (zoomParameter 2) 0
    (mkMachine threeStageSession 0)
  = Some (NO_ERROR,
          mkMachine (mkAdapter 2 2 2 1 0 false true false 3 OMX_StateExecuting
                       (OTHER_MODE 0) 0 false 0) 1,
          [DigitalZoomSet 70124 70124 OMX_ErrorNone]).
Proof. vm_compute. reflexivity. Qed.

(** Smooth zoom from 0 to 2 over three stages, frame by frame: index 1 is
    written and notified as not final, index 2 is written, the exit from
    smooth zoom is requested and committed, and index 2 is notified as
    final. *)
Example smooth_zoom_frames :
  exists m2,
    (startSmoothZoom 2 ;;
     first <- advanceZoom false zoomActiveBit componentAccepts bridgeZoomActive ;;
     second <- advanceZoom false zoomActiveBit componentAccepts bridgeZoomActive ;;
     pure (first, second))
      (mkMachine threeStageSession 0)
    = Some ((NO_ERROR, NO_ERROR), m2,
            [DigitalZoomSet 68157 68157 OMX_ErrorNone;
             ZoomNotified 1 false;
             DigitalZoomSet 70124 70124 OMX_ErrorNone;
             StateRequested CAMERA_STOP_SMOOTH_ZOOM;
             StateCommitted;
             ZoomNotified 2 true])
    /\ mCurrentZoomIdx (adapter m2) = 2.
Proof. eexists. split; [vm_compute; reflexivity|reflexivity]. Qed.

(** The scenario of the spec: three stages, smooth zoom from 0 to 2. *)
Lemma smooth_zoom_reaches_target_witness :
  exists ticks m2,
    runTicks false zoomActiveBit componentAccepts
      [bridgeZoomActive; bridgeZoomActive]
      (mkMachine (mkAdapter 0 2 0 1 0 false false false 3 OMX_StateExecuting
                    (OTHER_MODE 0) 0 false 0) 0)
    = Some (ticks, m2)
    /\ mCurrentZoomIdx (adapter m2) = 2
    /\ map observe ticks = [(1, [(1, false)], 0%nat); (2, [(2, true)], 1%nat)].
Proof.
  apply (smooth_zoom_reaches_target false zoomActiveBit componentAccepts
           (mkMachine threeStageSession 0) _ 2 []
           [bridgeZoomActive; bridgeZoomActive]).
  - reflexivity.
  - concrete.
  - concrete.
  - simpl. discriminate.
  - intros k w h. reflexivity.
  - repeat constructor; simpl; discriminate.
  - reflexivity.
Defined.

Lemma stop_then_advance_settles_witness :
  exists m1 ret m2 evs,
    stopSmoothZoom (mkMachine zoomingSession 0) = Some (NO_ERROR, m1, [])
    /\ advanceZoom false zoomActiveBit componentAccepts bridgeZoomActive m1
       = Some (ret, m2, evs)
    /\ mCurrentZoomIdx (adapter m2) = 1
    /\ mTargetZoomIdx (adapter m2) = 1
    /\ mReturnZoomStatus (adapter m2) = false
    /\ notifications evs = [(1, true)].
Proof.
  destruct (stop_then_advance_settles false zoomActiveBit componentAccepts
              zoomingSession 0 bridgeZoomActive
              ltac:(concrete) ltac:(concrete) ltac:(concrete) ltac:(concrete))
    as (m1 & ret & m2 & evs & H1 & H2 & H3 & H4 & H5 & H6 & _).
  exists m1, ret, m2, evs. repeat split; assumption.
Defined.

(** C3 as stated fails: [setParametersZoom] asked for index 5 with three
    stages supported does
    not fail: the claim that it fails with an out-of-range error does not
    hold of the code. *)
Lemma setParametersZoom_out_of_range_does_not_fail :
  ~ fails (setParametersZoom false zoomActiveBit componentAccepts
             (zoomParameter 5) 0 (mkMachine threeStageSession 0)).
Proof.
  intros (ret & after & evs & Hrun & Herr).
  vm_compute in Hrun. injection Hrun as <- _ _. apply Herr. reflexivity.
Qed.

Lemma setParametersZoom_out_of_range_ignored_witness :
  setParametersZoom false zoomActiveBit componentAccepts
    (zoomParameter 5) 0 (mkMachine threeStageSession 0)
  = Some (NO_ERROR, mkMachine threeStageSession 0, []).
Proof.
  apply (setParametersZoom_out_of_range_ignored false zoomActiveBit
           componentAccepts (zoomParameter 5) 0 (mkMachine threeStageSession 0)).
  cbn. lia.
Defined.

(** C4 as stated fails: [setParametersZoom] called while the state has
    [ZOOM_ACTIVE] set does
    not fail: no busy error reaches the caller. *)
Lemma setParametersZoom_while_zoom_active_does_not_fail :
  ~ fails (setParametersZoom false zoomActiveBit componentAccepts
             (zoomParameter 1) zoomActiveBit (mkMachine threeStageSession 0)).
Proof.
  intros (ret & after & evs & Hrun & Herr).
  vm_compute in Hrun. injection Hrun as <- _ _. apply Herr. reflexivity.
Qed.

Lemma setParametersZoom_ignored_while_zoom_active_witness :
  setParametersZoom false zoomActiveBit componentAccepts
    (zoomParameter 1) zoomActiveBit (mkMachine threeStageSession 0)
  = Some (NO_ERROR, mkMachine threeStageSession 0, []).
Proof.
  apply (setParametersZoom_ignored_while_zoom_active false zoomActiveBit
           componentAccepts (zoomParameter 1) zoomActiveBit
           (mkMachine threeStageSession 0)).
  reflexivity.
Defined.

(** C6 as stated fails: two [doZoom (0)] in a row on the session at zero
    write nothing at all,
    and two [doZoom (3)] in a row against a component that rejects the
    zoom write twice: in neither case is there exactly one write. *)
Lemma doZoom_twice_not_one_write :
  (exists m1 evs1 ret2 m2 evs2,
     doZoom false componentAccepts 0 (mkMachine sessionAtZero 0)
     = Some (NO_ERROR, m1, evs1)
     /\ doZoom false componentAccepts 0 m1 = Some (ret2, m2, evs2)
     /\ hardwareWrites (evs1 ++ evs2) = [])
  /\ (exists ret1 m1 evs1 ret2 m2 evs2,
        doZoom false componentRejects 3 (mkMachine sessionAtZero 0)
        = Some (ret1, m1, evs1)
        /\ doZoom false componentRejects 3 m1 = Some (ret2, m2, evs2)
        /\ hardwareWrites (evs1 ++ evs2) = [72745; 72745]
        /\ ret2 <> NO_ERROR).
Proof.
  split.
  - do 5 eexists. split; [reflexivity|]. split; reflexivity.
  - do 6 eexists. split; [reflexivity|]. split; [reflexivity|].
    split; [reflexivity|discriminate].
Qed.

Lemma doZoom_twice_second_is_noop_witness :
  exists m1 evs2,
    doZoom false componentAccepts 3 (mkMachine sessionAtZero 0)
    = Some (NO_ERROR, m1, [DigitalZoomSet 72745 72745 OMX_ErrorNone])
    /\ doZoom false componentAccepts 3 m1 = Some (NO_ERROR, m1, evs2)
    /\ hardwareWrites evs2 = []
    /\ List.length
         (hardwareWrites ([DigitalZoomSet 72745 72745 OMX_ErrorNone] ++ evs2))
       = 1%nat.
Proof.
  eexists.
  destruct (doZoom_twice_second_is_noop false componentAccepts 3
              (mkMachine sessionAtZero 0) _ _ eq_refl)
    as (evs2 & H1 & H2 & H3).
  exists evs2. split; [reflexivity|]. repeat split; assumption.
Defined.

(** C7, at the input where the code departs from it. With
    [CAMERAHAL_TUNA], index 0 and a switch to video mode since the
    last zoom: the component rejects the write, [doZoom] returns [-1] and
    leaves [mPreviousZoomIndx] at 0, but it has already recorded the video
    mode, so the next [doZoom (0)] returns [NO_ERROR] at the previous-index
    check and the write is not tried again. *)
Lemma doZoom_tuna_rejected_write_not_retried :
  exists m1,
    doZoom true componentRejects 0 (mkMachine videoSessionAtZero 0)
    = Some (-1, m1,
            [DigitalZoomSet BackSensorVideoMinZoom BackSensorVideoMinZoom
               OMX_ErrorHardware])
    /\ mPreviousZoomIndx (adapter m1) = mPreviousZoomIndx videoSessionAtZero
    /\ mPrevZoomModeIsVideo (adapter m1) = true
    /\ doZoom true componentRejects 0 m1 = Some (NO_ERROR, m1, []).
Proof.
  eexists. split; [reflexivity|]. repeat split.
Qed.

(** C8 as stated fails: with index 61, one past the end of the table, and
    with index -1 [getZoomStep] reads outside [ZOOM_STEPS] instead of
    returning an error. *)
Lemma getZoomStep_reads_outside_table :
  getZoomStep false 61 (mkMachine sessionAtZero 0) = None
  /\ getZoomStep true (-1) (mkMachine sessionAtZero 0) = None.
Proof. split; reflexivity. Qed.

Lemma getZoomStep_unchecked_lookup_witness :
  (exists scale,
     getZoomStep false 60 (mkMachine sessionAtZero 0)
     = Some (scale, mkMachine sessionAtZero 0, [])
     /\ 65536 <= scale <= 524288
     /\ ZOOM_STEPS_at 60 = Some scale)
  /\ (exists scale,
       getZoomStep true 0 (mkMachine frontVideoSession 0)
       = Some (scale, mkMachine frontVideoSession 0, [])
       /\ scale = FrontSensorVideoMinZoom)
  /\ getZoomStep false 61 (mkMachine sessionAtZero 0) = None
  /\ doZoom false componentAccepts 61 (mkMachine sessionAtZero 0)
     = Some (- EINVAL, mkMachine sessionAtZero 0, []).
Proof.
  destruct (getZoomStep_unchecked_lookup false componentAccepts 61
              (mkMachine sessionAtZero 0)) as (_ & Hout & Hcaller).
  destruct (getZoomStep_unchecked_lookup false componentAccepts 60
              (mkMachine sessionAtZero 0)) as (Hin & _ & _).
  destruct (getZoomStep_unchecked_lookup true componentAccepts 0
              (mkMachine frontVideoSession 0)) as (Hquirk & _ & _).
  split; [|split; [|split]].
  - destruct Hin as (scale & Hs & Hb & _ & Hv & _); [concrete|].
    exists scale. repeat split; try assumption; apply Hb.
  - destruct Hquirk as (scale & Hs & _ & _ & Hv & _); [concrete|].
    exists scale. split; assumption.
  - apply Hout. concrete.
  - apply Hcaller; concrete.
Defined.

Lemma doZoom_same_index_skips_error_checks_witness :
  mComponentState invalidSession = OMX_StateInvalid
  /\ ~ 0 <= 99 < mMaxZoomSupported invalidSession
  /\ doZoom true componentRejects 99 (mkMachine invalidSession 0)
     = Some (NO_ERROR, mkMachine invalidSession 0, []).
Proof.
  split; [reflexivity|]. split; [concrete|].
  apply (doZoom_same_index_skips_error_checks true componentRejects 99
           (mkMachine invalidSession 0)).
  - reflexivity.
  - split; reflexivity.
Defined.

Lemma stopSmoothZoom_at_target_changes_nothing_witness :
  stopSmoothZoom (mkMachine sessionAtZero 0)
  = Some (NO_ERROR, mkMachine sessionAtZero 0, []).
Proof.
  apply (stopSmoothZoom_at_target_changes_nothing false zoomActiveBit
           componentAccepts (mkMachine sessionAtZero 0)).
  reflexivity.
Defined.

(** C5, at the input where the code departs from it. Smooth zoom to 5
    started and stopped at once, then immediate zooms to
    4, 3 and 2 and one [advanceZoom]. The zoom to 4 is written at once and
    sets [mZoomUpdating]; the zooms to 3 and 2 are deferred. The step left
    pending by [stopSmoothZoom] then moves the index from 2 to 3:
    [advanceZoom] writes the scale of index 3, the first deferred request,
    and the scale of index 2, the latest request, is never written. *)
Lemma deferred_zoom_overridden_by_pending_stop :
  exists ret m evs,
    (startSmoothZoom 5 ;;
     stopSmoothZoom ;;
     setParametersZoom false zoomActiveBit componentAccepts (zoomParameter 4) 0 ;;
     setParametersZoom false zoomActiveBit componentAccepts (zoomParameter 3) 0 ;;
     setParametersZoom false zoomActiveBit componentAccepts (zoomParameter 2) 0 ;;
     advanceZoom false zoomActiveBit componentAccepts bridgeIdle)
      (mkMachine sessionAtZero 0)
    = Some (ret, m, evs)
    /\ hardwareWrites evs = [75366; 72745]
    /\ ZOOM_STEPS_at 4 = Some 75366
    /\ ZOOM_STEPS_at 3 = Some 72745
    /\ ZOOM_STEPS_at 2 = Some 70124
    /\ mCurrentZoomIdx (adapter m) = 3
    /\ mPreviousZoomIndx (adapter m) = 3.
Proof.
  do 3 eexists. split; [vm_compute; reflexivity|]. repeat split.
Qed.

(** ** The further properties at concrete sessions *)

Lemma getZoomStep_strictly_increasing_witness : 66816 < 68157.
Proof.
  apply (getZoomStep_strictly_increasing true 0 1
           (mkMachine frontVideoSession 0) (mkMachine sessionAtZero 0)).
  - lia.
  - reflexivity.
  - reflexivity.
Defined.

Lemma doZoom_one_write_and_session_kept_witness :
  exists ret m' evs,
    doZoom false componentAccepts 3 (mkMachine sessionAtZero 0)
    = Some (ret, m', evs)
    /\ evs = [DigitalZoomSet 72745 72745 OMX_ErrorNone]
    /\ (exists p v s, adapter m' = zoomApplied p v s sessionAtZero).
Proof.
  eassert (H : doZoom false componentAccepts 3 (mkMachine sessionAtZero 0)
               = Some (_, _, _)) by (vm_compute; reflexivity).
  do 3 eexists. split; [exact H|]. split; [reflexivity|].
  exact (proj1 (doZoom_one_write_and_session_kept false componentAccepts
                  3 _ _ _ _ H)).
Defined.

Lemma doZoom_previous_index_follows_accepted_writes_witness :
  exists m' evs,
    doZoom false componentRejects 3 (mkMachine sessionAtZero 0)
    = Some (-1, m', evs)
    /\ mPreviousZoomIndx (adapter m') = 0.
Proof.
  eassert (H : doZoom false componentRejects 3 (mkMachine sessionAtZero 0)
               = Some (_, _, _)) by (vm_compute; reflexivity).
  do 2 eexists. split; [exact H|].
  apply (doZoom_previous_index_follows_accepted_writes false componentRejects
           3 _ _ _ _ H).
  discriminate.
Defined.

Lemma doZoom_index_0_scale_witness :
  exists ret m' scale reply evs,
    doZoom true componentAccepts 0 (mkMachine videoSessionAtZero 0)
    = Some (ret, m', DigitalZoomSet scale scale reply :: evs)
    /\ scale = BackSensorVideoMinZoom.
Proof.
  eassert (H : doZoom true componentAccepts 0 (mkMachine videoSessionAtZero 0)
               = Some (_, _, DigitalZoomSet _ _ _ :: _))
    by (vm_compute; reflexivity).
  do 5 eexists. split; [exact H|].
  exact (doZoom_index_0_scale true componentAccepts _ _ _ _ _ _ _ H).
Defined.

Lemma every_write_is_square_and_in_range_witness :
  zoomRangeInTable sessionAtZero
  /\ exists rets m' evs,
       runCalls false zoomActiveBit componentAccepts mixedCalls
         (mkMachine sessionAtZero 0)
       = Some (rets, m', evs)
       /\ hardwareWrites evs = [75366; 77988; 80609; 83231]
       /\ Forall zoomWrite evs.
Proof.
  split; [concrete|].
  destruct (every_write_is_square_and_in_range false zoomActiveBit
              componentAccepts mixedCalls (mkMachine sessionAtZero 0))
    as (rets & m' & evs & Hrun & Hw); [concrete|].
  exists rets, m', evs. split; [exact Hrun|]. split; [|exact Hw].
  eassert (H : runCalls false zoomActiveBit componentAccepts mixedCalls
                 (mkMachine sessionAtZero 0) = Some (_, _, _))
    by (vm_compute; reflexivity).
  rewrite H in Hrun. injection Hrun as _ _ <-. reflexivity.
Defined.

Lemma calls_keep_configuration_witness :
  exists rets m' evs,
    runCalls false zoomActiveBit componentRejects mixedCalls
      (mkMachine sessionAtZero 0)
    = Some (rets, m', evs)
    /\ mMaxZoomSupported (adapter m') = ZOOM_STAGES
    /\ omxCalls m' = List.length (hardwareWrites evs).
Proof.
  eassert (H : runCalls false zoomActiveBit componentRejects mixedCalls
                 (mkMachine sessionAtZero 0) = Some (_, _, _))
    by (vm_compute; reflexivity).
  do 3 eexists. split; [exact H|].
  destruct (calls_keep_configuration false zoomActiveBit componentRejects
              _ _ _ _ _ H) as (Hmx & _ & _ & _ & Hn).
  split; assumption.
Defined.

Lemma no_write_to_invalid_component_witness :
  exists rets m' evs,
    runCalls true zoomActiveBit componentAccepts mixedCalls
      (mkMachine invalidSession 0)
    = Some (rets, m', evs)
    /\ hardwareWrites evs = [].
Proof.
  eassert (H : runCalls true zoomActiveBit componentAccepts mixedCalls
                 (mkMachine invalidSession 0) = Some (_, _, _))
    by (vm_compute; reflexivity).
  do 3 eexists. split; [exact H|].
  exact (no_write_to_invalid_component true zoomActiveBit componentAccepts
           mixedCalls (mkMachine invalidSession 0) _ _ _ eq_refl H).
Defined.

Lemma calls_never_read_outside_table_witness :
  exists rets m' evs,
    runCalls true zoomActiveBit componentRejects mixedCalls
      (mkMachine videoSessionAtZero 0)
    = Some (rets, m', evs)
    /\ zoomRangeInTable (adapter m').
Proof.
  apply (calls_never_read_outside_table true zoomActiveBit componentRejects
           mixedCalls (mkMachine videoSessionAtZero 0)).
  concrete.
Defined.

Lemma advanceZoom_indices_ignore_hardware_witness :
  exists ret m' evs,
    advanceZoom false zoomActiveBit componentRejects bridgeZoomActive
      (mkMachine zoomingSession 0)
    = Some (ret, m', evs)
    /\ ret = -1
    /\ (mCurrentZoomIdx (adapter m'), mTargetZoomIdx (adapter m')) = (1, 5).
Proof.
  eassert (H : advanceZoom false zoomActiveBit componentRejects
                 bridgeZoomActive (mkMachine zoomingSession 0)
               = Some (_, _, _)) by (vm_compute; reflexivity).
  do 3 eexists. split; [exact H|]. split; [reflexivity|].
  exact (proj1 (advanceZoom_indices_ignore_hardware false zoomActiveBit
                  componentRejects _ _ _ _ _ H)).
Defined.

Lemma advanceZoom_notifications_witness :
  exists ret m' evs,
    advanceZoom false zoomActiveBit componentAccepts bridgeIdle
      (mkMachine zoomingSession 0)
    = Some (ret, m', evs)
    /\ mCurrentZoomIdx (adapter m') = 5
    /\ notifications evs = []
    /\ stopRequests evs = 0%nat.
Proof.
  eassert (H : advanceZoom false zoomActiveBit componentAccepts bridgeIdle
                 (mkMachine zoomingSession 0) = Some (_, _, _))
    by (vm_compute; reflexivity).
  do 3 eexists. split; [exact H|]. split; [reflexivity|].
  destruct (advanceZoom_notifications false zoomActiveBit componentAccepts
              _ _ _ _ _ H) as (Hn & _ & Hs & _).
  split; [exact Hn|]. apply Hs. reflexivity.
Defined.

Lemma setParametersZoom_burst_writes_once_witness :
  exists rets m' evs,
    runCalls false zoomActiveBit componentAccepts
      (map (fun r => SetParametersZoom (fst r) (snd r))
         [(zoomParameter 4, 0); (zoomParameter 61, 0);
          (zoomParameter 9, zoomActiveBit); (zoomParameter 7, 0);
          (zoomParameter 2, 0)])
      (mkMachine sessionAtZero 0)
    = Some (rets, m', evs)
    /\ mCurrentZoomIdx (adapter m') = 2
    /\ hardwareWrites evs = [75366]
    /\ (List.length (hardwareWrites evs) <= 1)%nat.
Proof.
  eassert (H : runCalls false zoomActiveBit componentAccepts
                 (map (fun r => SetParametersZoom (fst r) (snd r))
                    [(zoomParameter 4, 0); (zoomParameter 61, 0);
                     (zoomParameter 9, zoomActiveBit); (zoomParameter 7, 0);
                     (zoomParameter 2, 0)])
                 (mkMachine sessionAtZero 0) = Some (_, _, _))
    by (vm_compute; reflexivity).
  do 3 eexists. split; [exact H|]. split; [reflexivity|].
  split; [reflexivity|].
  destruct (setParametersZoom_burst_writes_once false zoomActiveBit
              componentAccepts _ _ _ _ _ H) as (_ & _ & _ & Hl & _).
  exact Hl.
Defined.

Lemma immediate_zoom_applied_by_next_tick_witness :
  exists ret m' evs,
    (setParametersZoom false zoomActiveBit componentAccepts
       (zoomParameter 7) 0 ;;
     advanceZoom false zoomActiveBit componentAccepts bridgeIdle)%zoom
      (mkMachine (set_mZoomUpdating true sessionAtZero) 0)
    = Some (ret, m', evs)
    /\ mCurrentZoomIdx (adapter m') = 7
    /\ mTargetZoomIdx (adapter m') = 7
    /\ mPreviousZoomIndx (adapter m') = 7
    /\ mZoomUpdate (adapter m') = false
    /\ notifications evs = [].
Proof.
  apply (immediate_zoom_applied_by_next_tick false zoomActiveBit
           componentAccepts (zoomParameter 7) 0
           (set_mZoomUpdating true sessionAtZero) 0 bridgeIdle).
  - concrete.
  - cbn. discriminate.
  - intros k w h. reflexivity.
  - reflexivity.
  - cbn. discriminate.
  - concrete.
Defined.

Lemma immediate_zoom_after_stop_is_shifted_witness :
  exists ret m' evs,
    (setParametersZoom false zoomActiveBit componentAccepts
       (zoomParameter 2) 0 ;;
     advanceZoom false zoomActiveBit componentAccepts bridgeIdle)%zoom
      (mkMachine stoppedSession 0)
    = Some (ret, m', evs)
    /\ mCurrentZoomIdx (adapter m') = 3
    /\ mTargetZoomIdx (adapter m') = 3
    /\ notifications evs = [(3, true)].
Proof.
  eassert (H : (setParametersZoom false zoomActiveBit componentAccepts
                  (zoomParameter 2) 0 ;;
                advanceZoom false zoomActiveBit componentAccepts bridgeIdle)%zoom
                 (mkMachine stoppedSession 0) = Some (_, _, _))
    by (vm_compute; reflexivity).
  do 3 eexists. split; [exact H|].
  refine (immediate_zoom_after_stop_is_shifted false zoomActiveBit
            componentAccepts (zoomParameter 2) 0 stoppedSession 0 bridgeIdle
            _ _ _ _ _ _ H).
  - reflexivity.
  - cbn. discriminate.
  - concrete.
Defined.

Lemma smooth_zoom_keeps_indices_in_range_witness :
  exists rets m' evs,
    runCalls false zoomActiveBit componentRejects smoothCalls
      (mkMachine sessionAtZero 0)
    = Some (rets, m', evs)
    /\ sessionCoherent (adapter m').
Proof.
  eassert (H : runCalls false zoomActiveBit componentRejects smoothCalls
                 (mkMachine sessionAtZero 0) = Some (_, _, _))
    by (vm_compute; reflexivity).
  do 3 eexists. split; [exact H|].
  refine (smooth_zoom_keeps_indices_in_range false zoomActiveBit
            componentRejects smoothCalls (mkMachine sessionAtZero 0) _ _ _
            _ _ _ H).
  - repeat constructor.
  - split; [split; concrete|intros; discriminate].
  - concrete.
Defined.

Lemma startSmoothZoom_checks_target_witness :
  startSmoothZoom 61 (mkMachine stoppedSession 0)
  = Some (- EINVAL, mkMachine stoppedSession 0, [])
  /\ mCurrentZoomIdx stoppedSession = 0.
Proof.
  assert (H : startSmoothZoom 61 (mkMachine stoppedSession 0)
              = Some (- EINVAL, mkMachine stoppedSession 0, []))
    by reflexivity.
  split; [exact H|].
  destruct (startSmoothZoom_checks_target 61 _ _ _ _ H) as (_ & Hc & _).
  exact Hc.
Defined.

Lemma smooth_zoom_never_stalls_witness :
  exists ticks m2,
    runTicks false zoomActiveBit componentRejects
      [bridgeZoomActive; bridgeZoomActive]
      (mkMachine (mkAdapter 5 3 5 1 0 false false false ZOOM_STAGES
                    OMX_StateInvalid (OTHER_MODE 0) 0 false 0) 0)
    = Some (ticks, m2)
    /\ mCurrentZoomIdx (adapter m2) = 3
    /\ map (fun t => (tickIndex t, notifications (tickEvents t))) ticks
       = [(4, [(4, false)]); (3, [(3, true)])].
Proof.
  apply (smooth_zoom_never_stalls false zoomActiveBit componentRejects
           (mkAdapter 5 3 5 1 0 false false false ZOOM_STAGES
              OMX_StateInvalid (OTHER_MODE 0) 0 false 0) 0
           [bridgeZoomActive; bridgeZoomActive]).
  - concrete.
  - reflexivity.
  - concrete.
  - concrete.
  - repeat constructor; cbn; discriminate.
  - reflexivity.
Defined.

Lemma component_follows_smooth_zoom_witness :
  exists rets m' evs,
    runCalls true zoomActiveBit componentAccepts smoothCalls
      (mkMachine sessionAtZero 0)
    = Some (rets, m', evs)
    /\ mPreviousZoomIndx (adapter m') = mCurrentZoomIdx (adapter m').
Proof.
  apply (component_follows_smooth_zoom true zoomActiveBit componentAccepts
           smoothCalls (mkMachine sessionAtZero 0)).
  - repeat constructor.
  - concrete.
  - cbn. discriminate.
  - intros k w h. reflexivity.
  - split; concrete.
  - intros; discriminate.
  - reflexivity.
  - reflexivity.
Defined.

Lemma advanceZoom_reports_rejected_write_witness :
  exists ret m' evs,
    advanceZoom false zoomActiveBit componentRejects bridgeZoomActive
      (mkMachine (mkAdapter 4 5 4 1 0 false false false ZOOM_STAGES
                    OMX_StateExecuting (OTHER_MODE 0) 0 false 0) 0)
    = Some (ret, m', evs)
    /\ ret = -1
    /\ stopRequests evs = 0%nat
    /\ mCurrentZoomIdx (adapter m') = 5.
Proof.
  destruct (advanceZoom_reports_rejected_write false zoomActiveBit
              componentRejects bridgeZoomActive
              (mkAdapter 4 5 4 1 0 false false false ZOOM_STAGES
                 OMX_StateExecuting (OTHER_MODE 0) 0 false 0) 0
              ltac:(concrete) ltac:(cbn; discriminate)
              ltac:(intros k w h; discriminate)
              ltac:(split; concrete)
              ltac:(intros; discriminate)
              ltac:(reflexivity) ltac:(right; cbn; lia))
    as (ret & m' & evs & Hrun & Hr & Hs & Hc & _).
  exists ret, m', evs.
  split; [exact Hrun|]. split; [exact Hr|]. split; [exact Hs|].
  rewrite Hc. reflexivity.
Defined.
